(** * Requirement index and deep validation engine

    A shallow embedding of the deep-validation analyzers (cycle detection,
    coverage, orphan classification, status consistency, completeness
    tracing, gap recommendations) and of the requirement index, followed by
    the properties established about them.

    Conventions of the embedding:
    - JavaScript strings are [string]; [===] on strings is [String.eqb].
    - A JavaScript [Map] or object whose iteration order is observed is an
      association list in insertion order ([map_set] keeps the position of
      an existing key); a [Set] whose order is observed is a duplicate-free
      list in insertion order.
    - A [Map] or [Set] that is only queried by key is a [gmap] or [gset].
    - JavaScript numbers that hold counts are [nat]; the percentage
      computation is carried out on IEEE-754 binary64 values, as in the
      source. *)

From Stdlib Require Import ZArith List String Ascii Bool Lia Permutation Sorted.
From Stdlib Require Import Floats Uint63 OrderedTypeEx.
From Stdlib Require HexadecimalString HexadecimalZ HexadecimalPos.
From stdpp Require Import base gmap sets list strings pretty.

Local Open Scope string_scope.
Local Open Scope list_scope.

(** ** JavaScript containers whose order is observable *)

Module Js.

(** [Map.prototype.get] on an insertion-ordered map. *)
Fixpoint map_get {V : Type} (m : list (string * V)) (k : string) : option V :=
  match m with
  | [] => None
  | (k', v) :: m' => if String.eqb k' k then Some v else map_get m' k
  end.

Definition map_has {V : Type} (m : list (string * V)) (k : string) : bool :=
  match map_get m k with Some _ => true | None => false end.

(** [Map.prototype.set]: an existing key keeps its position. *)
Fixpoint map_set {V : Type} (k : string) (v : V) (m : list (string * V))
  : list (string * V) :=
  match m with
  | [] => [(k, v)]
  | (k', v') :: m' =>
      if String.eqb k' k then (k, v) :: m' else (k', v') :: map_set k v m'
  end.

Definition map_keys {V : Type} (m : list (string * V)) : list string :=
  map fst m.

Definition map_values {V : Type} (m : list (string * V)) : list V :=
  map snd m.

(** [Array.prototype.includes] on an array of strings. *)
Definition includes (l : list string) (x : string) : bool :=
  existsb (String.eqb x) l.

(** [Set.prototype.add] on an insertion-ordered set. *)
Definition set_add (s : list string) (x : string) : list string :=
  if includes s x then s else s ++ [x].

(** [new Set(array)], or adding every element of an array in turn. *)
Definition set_add_all (s : list string) (xs : list string) : list string :=
  fold_left set_add xs s.

(** [Array.prototype.find] with the predicate [r => key r === k]. *)
Fixpoint find_by {A : Type} (key : A -> string) (l : list A) (k : string)
  : option A :=
  match l with
  | [] => None
  | x :: l' => if String.eqb (key x) k then Some x else find_by key l' k
  end.

(** [s || d] on an optional string: [undefined] and the empty string are
    falsy. *)
Definition or_default (s : option string) (d : string) : string :=
  match s with
  | Some EmptyString => d
  | Some v => v
  | None => d
  end.

(** Truthiness of an optional string. *)
Definition truthy (s : option string) : bool :=
  match s with
  | Some EmptyString => false
  | Some _ => true
  | None => false
  end.

(** [String.prototype.toLowerCase] on ASCII text. *)
Definition lower_ascii (c : ascii) : ascii :=
  let n := nat_of_ascii c in
  if (65 <=? n)%nat && (n <=? 90)%nat then ascii_of_nat (n + 32) else c.

Fixpoint toLowerCase (s : string) : string :=
  match s with
  | EmptyString => EmptyString
  | String c s' => String (lower_ascii c) (toLowerCase s')
  end.

(** The [<] of JavaScript on strings: lexicographic on code units. *)
Definition str_lt (a b : string) : bool :=
  match String.compare a b with Lt => true | _ => false end.

End Js.

(** ** Record model (types.ts) *)

Record Location := { loc_file : string; loc_line : nat }.

Record RequirementObject := {
  req_id : string;
  req_type : string;
  req_level : option string;
  req_status : option string;
  req_links : list (string * list string);
  req_metadata : list (string * string);
  req_location : Location;
  req_baseline : option string
}.

(** [req.metadata.priority || 'medium'] *)
Definition priorityOf (r : RequirementObject) : string :=
  Js.or_default (Js.map_get (req_metadata r) "priority") "medium".

Inductive ValidationSeverity := BLOCKER | HIGH | MEDIUM | LOW | INFO.

Definition severity_eqb (a b : ValidationSeverity) : bool :=
  match a, b with
  | BLOCKER, BLOCKER | HIGH, HIGH | MEDIUM, MEDIUM | LOW, LOW | INFO, INFO => true
  | _, _ => false
  end.

(** ** Shared helpers of the deep validation (deepValidation.ts) *)

Module DeepValidation.

Record CycleSeverityConfig := {
  length2 : ValidationSeverity;
  length3_5 : ValidationSeverity;
  length6plus : ValidationSeverity
}.

Record OrphanSeverityConfig := {
  os_critical : ValidationSeverity;
  os_high : ValidationSeverity;
  os_medium : ValidationSeverity;
  os_low : ValidationSeverity
}.

Record HierarchicalCoverageRule := {
  fromTypes : list string;
  toTypes : list string;
  rule_threshold : Z
}.

Record StatusConsistencyConfig := {
  enforceApprovedChain : bool;
  enforceImplementedChain : bool
}.

Record BaselineStabilityConfig := {
  requireApproved : bool;
  requireDownstreamBaselined : bool
}.

(** The configuration object read by the analyzers. A threshold is a
    percentage; an absent or zero entry of [priorityWeightedCoverage] is
    falsy in the source. *)
Record DeepValidationConfig := {
  cycleSeverity : CycleSeverityConfig;
  orphanSeverity : OrphanSeverityConfig;
  hierarchicalCoverage : list (string * HierarchicalCoverageRule);
  priorityWeightedCoverage : list (string * Z);
  statusConsistency : StatusConsistencyConfig;
  baselineStability : BaselineStabilityConfig
}.

(** Modelled from the spec: the cycle severities of
    [DEFAULT_DEEP_VALIDATION_CONFIG], whose declaration is not among the
    sources; the values are the ones its unit test expects. *)
Definition DEFAULT_CYCLE_SEVERITY : CycleSeverityConfig :=
  {| length2 := HIGH; length3_5 := MEDIUM; length6plus := LOW |}.

(** The typed edge view: node -> (link type -> targets). *)
Definition Graph := list (string * list (string * list string)).

(** The entries of [req.links] as a [Map]; an object is held as its
    entries in property order, so this is the list itself. *)
Definition edgesOf (r : RequirementObject) : list (string * list string) :=
  req_links r.

(** Modelled from the spec: [buildGraph], whose body is not among the
    sources. Every record becomes a node carrying its links by link type,
    labels and direction preserved; a record without links is a node
    with an empty edge map. *)
Definition buildGraph (requirements : list RequirementObject) : Graph :=
  fold_left (fun g r => Js.map_set (req_id r) (edgesOf r) g) requirements [].

(** Modelled from the spec: [getAllOutgoingLinks], whose body is not among
    the sources: the targets of every link type, in order. *)
Definition getAllOutgoingLinks (r : RequirementObject) : list string :=
  concat (Js.map_values (req_links r)).

(** Modelled from the spec: [getRequirementById], whose body is not among
    the sources: the first record carrying the id, if any. *)
Definition getRequirementById (requirements : list RequirementObject)
  (i : string) : option RequirementObject :=
  Js.find_by req_id requirements i.

(** Modelled from the spec: [getAllIncomingLinks], whose body is not among
    the sources: the ids of the records that link to [target], one entry
    per linking record, as its unit test expects. *)
Definition getAllIncomingLinks (requirements : list RequirementObject)
  (target : string) : list string :=
  map req_id
    (List.filter (fun r => existsb (fun ts => Js.includes ts target)
                        (Js.map_values (req_links r)))
       requirements).

Definition is_letter (c : ascii) : bool :=
  let n := nat_of_ascii c in
  ((65 <=? n)%nat && (n <=? 90)%nat) || ((97 <=? n)%nat && (n <=? 122)%nat).

(** Modelled from the spec: [getTypePrefix], whose body is not among the
    sources: the leading letters of an id, empty when the id does not
    start with a letter, as its unit test expects. *)
Fixpoint getTypePrefix (i : string) : string :=
  match i with
  | EmptyString => EmptyString
  | String c s => if is_letter c then String c (getTypePrefix s) else EmptyString
  end.

End DeepValidation.

(** ** DV-001: circular dependency detection (circularDependencyDetector.ts) *)

Module CircularDependencyDetector.
Import DeepValidation.

Record CircularDependency := {
  cd_cycle : list string;
  cd_length : nat;
  cd_severity : ValidationSeverity;
  cd_linkTypes : list string
}.

(** The mutable variables closed over by [strongConnect]. [stack] has its
    top at the head; [sccs] grows at its end. *)
Record TarjanState := {
  indices : gmap string nat;
  lowLinks : gmap string nat;
  onStack : gset string;
  stack : list string;
  index : nat;
  sccs : list (list string)
}.

Definition initialState : TarjanState :=
  {| indices := ∅; lowLinks := ∅; onStack := ∅; stack := []; index := 0;
     sccs := [] |}.

(** [map.get(k)!]: every read in the source is of a key already set, so
    the default is never observed. *)
Definition getNum (m : gmap string nat) (k : string) : nat :=
  default 0 (m !! k).

Definition hasIndex (st : TarjanState) (node : string) : bool :=
  bool_decide (is_Some (indices st !! node)).

Definition isOnStack (st : TarjanState) (node : string) : bool :=
  bool_decide (node ∈ onStack st).

Definition setLowLink (node : string) (v : nat) (st : TarjanState) : TarjanState :=
  {| indices := indices st; lowLinks := <[node := v]> (lowLinks st);
     onStack := onStack st; stack := stack st; index := index st;
     sccs := sccs st |}.

(** The first five statements of [strongConnect]. *)
Definition enter (node : string) (st : TarjanState) : TarjanState :=
  {| indices := <[node := index st]> (indices st);
     lowLinks := <[node := index st]> (lowLinks st);
     onStack := {[node]} ∪ onStack st;
     stack := node :: stack st;
     index := S (index st);
     sccs := sccs st |}.

(** All neighbours regardless of link type, as the [Set] built from the
    targets of every entry of the edge map. *)
Definition neighborsOf (edges : list (string * list string)) : list string :=
  Js.set_add_all [] (concat (Js.map_values edges)).

(** The loop over the neighbours inside [strongConnect]; [sc] is the
    recursive call. *)
Fixpoint visitNeighbors (sc : string -> TarjanState -> option TarjanState)
  (node : string) (ns : list string) (st : TarjanState) : option TarjanState :=
  match ns with
  | [] => Some st
  | neighbor :: ns' =>
      if negb (hasIndex st neighbor) then
        match sc neighbor st with
        | None => None
        | Some st' =>
            visitNeighbors sc node ns'
              (setLowLink node
                 (Nat.min (getNum (lowLinks st') node)
                          (getNum (lowLinks st') neighbor)) st')
        end
      else if isOnStack st neighbor then
        visitNeighbors sc node ns'
          (setLowLink node
             (Nat.min (getNum (lowLinks st) node)
                      (getNum (indices st) neighbor)) st)
      else visitNeighbors sc node ns' st
  end.

(** The [do ... while (w !== node)] loop: pops into [scc] down to and
    including [node]. The stack cannot run out before [node] is met, since
    [node] was pushed on it; the model has no result there. *)
Fixpoint popScc (node : string) (stk : list string) (onStk : gset string)
  (scc : list string) : option (list string * gset string * list string) :=
  match stk with
  | [] => None
  | w :: stk' =>
      if String.eqb w node then Some (stk', onStk ∖ {[w]}, scc ++ [w])
      else popScc node stk' (onStk ∖ {[w]}) (scc ++ [w])
  end.

(** The final [if] of [strongConnect]. *)
Definition closeScc (node : string) (st : TarjanState) : option TarjanState :=
  if Nat.eqb (getNum (lowLinks st) node) (getNum (indices st) node) then
    match popScc node (stack st) (onStack st) [] with
    | None => None
    | Some (stk, onStk, scc) =>
        Some {| indices := indices st; lowLinks := lowLinks st;
                onStack := onStk; stack := stk; index := index st;
                sccs := sccs st ++ [scc] |}
    end
  else Some st.

(** [strongConnect]; the recursion of the source is bounded by [fuel], and
    [None] stands for a run that needs more. *)
Fixpoint strongConnect (fuel : nat) (graph : Graph) (node : string)
  (st : TarjanState) : option TarjanState :=
  match fuel with
  | O => None
  | S fuel' =>
      let st1 := enter node st in
      let visited :=
        match Js.map_get graph node with
        | Some edges =>
            visitNeighbors (strongConnect fuel' graph) node (neighborsOf edges) st1
        | None => Some st1
        end in
      match visited with
      | None => None
      | Some st2 => closeScc node st2
      end
  end.

(** The loop over [graph.keys()] of [findStronglyConnectedComponents]. *)
Fixpoint connectAll (fuel : nat) (graph : Graph) (nodes : list string)
  (st : TarjanState) : option TarjanState :=
  match nodes with
  | [] => Some st
  | node :: nodes' =>
      if negb (hasIndex st node) then
        match strongConnect fuel graph node st with
        | None => None
        | Some st' => connectAll fuel graph nodes' st'
        end
      else connectAll fuel graph nodes' st
  end.

(** Every id that occurs in the graph, as a key or as a target. *)
Definition graphNodes (graph : Graph) : list string :=
  Js.map_keys graph ++ concat (map (fun kv => concat (Js.map_values (snd kv))) graph).

Definition findStronglyConnectedComponentsFuel (fuel : nat) (graph : Graph)
  : option (list (list string)) :=
  match connectAll fuel graph (Js.map_keys graph) initialState with
  | None => None
  | Some st => Some (sccs st)
  end.

(** The recursion depth of [strongConnect] never exceeds the number of
    distinct ids of the graph. *)
Definition tarjanFuel (graph : Graph) : nat := S (length (graphNodes graph)).

Definition findStronglyConnectedComponents (graph : Graph)
  : option (list (list string)) :=
  findStronglyConnectedComponentsFuel (tarjanFuel graph) graph.

(** The variables closed over by [dfs] in [findCyclePath]. *)
Record DfsState := {
  visited : gset string;
  path : list string
}.

(** The loop over the neighbours inside [dfs]; the result is [Some true]
    when the loop returned [true] from [dfs], and [Some false] when it ran
    to its end. *)
Fixpoint dfsNeighbors (rec : string -> DfsState -> option (bool * DfsState))
  (sccSet : gset string) (target : string) (ns : list string) (st : DfsState)
  : option (bool * DfsState) :=
  match ns with
  | [] => Some (false, st)
  | neighbor :: ns' =>
      if negb (bool_decide (neighbor ∈ sccSet)) then
        dfsNeighbors rec sccSet target ns' st
      else if String.eqb neighbor target && (1 <? length (path st))%nat then
        Some (true, {| visited := visited st; path := path st ++ [neighbor] |})
      else if negb (bool_decide (neighbor ∈ visited st)) then
        match rec neighbor st with
        | None => None
        | Some (true, st') => Some (true, st')
        | Some (false, st') => dfsNeighbors rec sccSet target ns' st'
        end
      else dfsNeighbors rec sccSet target ns' st
  end.

Fixpoint dfs (fuel : nat) (graph : Graph) (sccSet : gset string)
  (target : string) (node : string) (st : DfsState) : option (bool * DfsState) :=
  match fuel with
  | O => None
  | S fuel' =>
      let st1 := {| visited := {[node]} ∪ visited st; path := path st ++ [node] |} in
      let looped :=
        match Js.map_get graph node with
        | Some edges =>
            dfsNeighbors (dfs fuel' graph sccSet target) sccSet target
              (neighborsOf edges) st1
        | None => Some (false, st1)
        end in
      match looped with
      | None => None
      | Some (true, st2) => Some (true, st2)
      | Some (false, st2) =>
          Some (false, {| visited := visited st2; path := removelast (path st2) |})
      end
  end.

(** [findCyclePath]; [scc] is never empty where it is called. The [dfs]
    from the first node of the component re-enters no node, so its depth
    is at most the size of the component plus one. *)
Definition findCyclePath (scc : list string) (graph : Graph) : option (list string) :=
  match scc with
  | [] => Some scc
  | startNode :: _ =>
      match dfs (S (S (length scc))) graph (list_to_set scc) startNode startNode
              {| visited := ∅; path := [] |} with
      | None => None
      | Some (_, st) =>
          Some (if (0 <? length (path st))%nat then path st else scc)
      end
  end.

(** The inner loop of [getCycleLinkTypes] over the entries of one node. *)
Definition linkTypesTo (edges : list (string * list string)) (to : string)
  (acc : list string) : list string :=
  fold_left (fun a kv => if Js.includes (snd kv) to then Js.set_add a (fst kv) else a)
    edges acc.

Fixpoint cycleLinkTypesFrom (cycle : list string) (graph : Graph)
  (acc : list string) : list string :=
  match cycle with
  | from :: ((to :: _) as rest) =>
      cycleLinkTypesFrom rest graph
        (match Js.map_get graph from with
         | Some edges => linkTypesTo edges to acc
         | None => acc
         end)
  | _ => acc
  end.

Definition getCycleLinkTypes (cycle : list string) (graph : Graph) : list string :=
  cycleLinkTypesFrom cycle graph [].

Definition determineCycleSeverity (len : nat) (config : DeepValidationConfig)
  : ValidationSeverity :=
  if (len <=? 2)%nat then length2 (cycleSeverity config)
  else if (len <=? 5)%nat then length3_5 (cycleSeverity config)
  else length6plus (cycleSeverity config).

(** The body of the loop of [detectCircularDependencies] for one
    component: the cycles it pushes. *)
Definition cyclesOfScc (graph : Graph) (config : DeepValidationConfig)
  (scc : list string) : option (list CircularDependency) :=
  if (1 <? length scc)%nat then
    match findCyclePath scc graph with
    | None => None
    | Some cycle =>
        Some [ {| cd_cycle := cycle;
                  cd_length := length cycle - 1;
                  cd_severity := determineCycleSeverity (length cycle) config;
                  cd_linkTypes := getCycleLinkTypes cycle graph |} ]
    end
  else
    match scc with
    | [node] =>
        match Js.map_get graph node with
        | Some edges =>
            if existsb (fun targets => Js.includes targets node) (Js.map_values edges)
            then Some [ {| cd_cycle := [node; node];
                           cd_length := 1;
                           cd_severity := HIGH;
                           cd_linkTypes := Js.map_keys edges |} ]
            else Some []
        | None => Some []
        end
    | _ => Some []
    end.

Fixpoint cyclesOfSccs (graph : Graph) (config : DeepValidationConfig)
  (components : list (list string)) : option (list CircularDependency) :=
  match components with
  | [] => Some []
  | scc :: rest =>
      match cyclesOfScc graph config scc, cyclesOfSccs graph config rest with
      | Some cs, Some cs' => Some (cs ++ cs')
      | _, _ => None
      end
  end.

(** [detectCircularDependencies] on an already built graph. *)
Definition detectCyclesInGraph (graph : Graph) (config : DeepValidationConfig)
  : option (list CircularDependency) :=
  match findStronglyConnectedComponents graph with
  | None => None
  | Some components => cyclesOfSccs graph config components
  end.

Definition detectCircularDependencies (requirements : list RequirementObject)
  (config : DeepValidationConfig) : option (list CircularDependency) :=
  detectCyclesInGraph (buildGraph requirements) config.

End CircularDependencyDetector.

(** ** Percentages on JavaScript numbers *)

Module JsNumber.

(** The values a rounded quotient can take in the source. *)
Inductive jsnum := JsInt (z : Z) | JsNaN | JsInf (negative : bool).

(** A count, as the binary64 value JavaScript holds. *)
Definition ofNat (n : nat) : float :=
  PrimFloat.of_uint63 (Uint63.of_Z (Z.of_nat n)).

(** [Math.round]: the nearest integer, halves towards positive infinity,
    computed exactly from the sign, mantissa and exponent of the argument. *)
Definition Math_round (x : float) : jsnum :=
  match Prim2SF x with
  | S754_zero _ => JsInt 0
  | S754_infinity s => JsInf s
  | S754_nan => JsNaN
  | S754_finite s m e =>
      let v := if s then Z.neg m else Z.pos m in
      JsInt (if (0 <=? e)%Z then v * 2 ^ e
             else (2 * v + 2 ^ (- e)) / 2 ^ (- e + 1))%Z
  end.

(** [Math.round((covered / total) * 100)] *)
Definition roundedRatio (covered total : nat) : jsnum :=
  Math_round (PrimFloat.mul (PrimFloat.div (ofNat covered) (ofNat total)) (ofNat 100)).

(** [total > 0 ? Math.round((covered / total) * 100) : 0] *)
Definition percentageOf (covered total : nat) : jsnum :=
  if (0 <? total)%nat then roundedRatio covered total else JsInt 0.

(** [percentage >= threshold] for an integral threshold. *)
Definition geZ (p : jsnum) (threshold : Z) : bool :=
  match p with
  | JsInt z => (threshold <=? z)%Z
  | JsNaN => false
  | JsInf negative => negb negative
  end.

End JsNumber.

(** ** Graph analysis (utils/graphAnalysis.ts) *)

Module GraphAnalysis.

(** The index as the analyzers read it; only [objects] and [linkGraph]
    are consulted here. *)
Record RequirementIndex := {
  objects : gmap string RequirementObject;
  linkGraph : gmap string (gset string)
}.

(** The adjacency list built at the start of [detectCircularDependencies]:
    all targets of a record, link types flattened. *)
Definition adjacency (requirements : list RequirementObject)
  : list (string * list string) :=
  fold_left
    (fun g req => Js.map_set (req_id req) (concat (Js.map_values (req_links req))) g)
    requirements [].

(** The variables closed over by [dfs]. *)
Record DfsState := {
  visited : gset string;
  recursionStack : gset string;
  path : list string;
  cycles : list (list string)
}.

(** [path.indexOf(x)] and [path.slice(i)] in one pass: the suffix of the
    path from the first occurrence of [x]. *)
Fixpoint sliceFrom (x : string) (p : list string) : option (list string) :=
  match p with
  | [] => None
  | y :: p' => if String.eqb y x then Some p else sliceFrom x p'
  end.

(** The loop over the neighbours inside [dfs]. *)
Fixpoint dfsNeighbors (rec : string -> DfsState -> option DfsState)
  (graph : list (string * list string)) (ns : list string) (st : DfsState)
  : option DfsState :=
  match ns with
  | [] => Some st
  | neighbor :: ns' =>
      if negb (bool_decide (neighbor ∈ visited st)) then
        if Js.map_has graph neighbor then
          match rec neighbor st with
          | None => None
          | Some st' => dfsNeighbors rec graph ns' st'
          end
        else dfsNeighbors rec graph ns' st
      else if bool_decide (neighbor ∈ recursionStack st) then
        match sliceFrom neighbor (path st) with
        | Some cyc =>
            dfsNeighbors rec graph ns'
              {| visited := visited st; recursionStack := recursionStack st;
                 path := path st; cycles := cycles st ++ [cyc ++ [neighbor]] |}
        | None => dfsNeighbors rec graph ns' st
        end
      else dfsNeighbors rec graph ns' st
  end.

Fixpoint dfs (fuel : nat) (graph : list (string * list string)) (nodeId : string)
  (st : DfsState) : option DfsState :=
  match fuel with
  | O => None
  | S fuel' =>
      let st1 := {| visited := {[nodeId]} ∪ visited st;
                    recursionStack := {[nodeId]} ∪ recursionStack st;
                    path := path st ++ [nodeId];
                    cycles := cycles st |} in
      match dfsNeighbors (dfs fuel' graph) graph
              (default [] (Js.map_get graph nodeId)) st1 with
      | None => None
      | Some st2 =>
          Some {| visited := visited st2;
                  recursionStack := recursionStack st2 ∖ {[nodeId]};
                  path := removelast (path st2);
                  cycles := cycles st2 |}
      end
  end.

(** The loop [for (const req of requirements)] that starts a [dfs] from
    every record not yet visited. *)
Fixpoint dfsAll (fuel : nat) (graph : list (string * list string))
  (requirements : list RequirementObject) (st : DfsState) : option DfsState :=
  match requirements with
  | [] => Some st
  | req :: rest =>
      if negb (bool_decide (req_id req ∈ visited st)) then
        match dfs fuel graph (req_id req) st with
        | None => None
        | Some st' => dfsAll fuel graph rest st'
        end
      else dfsAll fuel graph rest st
  end.

(** Index of the smallest element of a non-empty cycle, scanning from the
    second element as the source does. *)
Fixpoint minIndexFrom (cleanCycle : list string) (i : nat) (minIndex : nat)
  (rest : list string) : nat :=
  match rest with
  | [] => minIndex
  | x :: rest' =>
      if Js.str_lt x (nth minIndex cleanCycle "")
      then minIndexFrom cleanCycle (S i) i rest'
      else minIndexFrom cleanCycle (S i) minIndex rest'
  end.

Definition normalizeCycle (cycle : list string) : list string :=
  if (length cycle <=? 1)%nat then cycle
  else
    let cleanCycle :=
      if String.eqb (nth 0 cycle "") (nth (length cycle - 1) cycle "")
      then removelast cycle else cycle in
    let minIndex := minIndexFrom cleanCycle 1 0 (tl cleanCycle) in
    skipn minIndex cleanCycle ++ firstn minIndex cleanCycle.

(** [normalized.join('->')] *)
Definition cycleKey (normalized : list string) : string :=
  String.concat "->" normalized.

(** The deduplication loop: [seenCycles] holds the keys, [uniqueCycles]
    the cycles kept. *)
Fixpoint dedupe (cs : list (list string)) (seenCycles : list string)
  (uniqueCycles : list (list string)) : list (list string) :=
  match cs with
  | [] => uniqueCycles
  | cycle :: cs' =>
      let normalized := normalizeCycle cycle in
      let key := cycleKey normalized in
      if Js.includes seenCycles key then dedupe cs' seenCycles uniqueCycles
      else dedupe cs' (seenCycles ++ [key]) (uniqueCycles ++ [normalized])
  end.

(** [detectCircularDependencies] of graphAnalysis.ts. A [dfs] enters only
    keys of the adjacency list not yet visited, plus the record it starts
    from. *)
Definition detectCircularDependencies (requirements : list RequirementObject)
  : option (list (list string)) :=
  let graph := adjacency requirements in
  match dfsAll (S (S (length graph))) graph requirements
          {| visited := ∅; recursionStack := ∅; path := []; cycles := [] |} with
  | None => None
  | Some st => Some (dedupe (cycles st) [] [])
  end.

(** [Object.values(req.links).some(ids => ids.length > 0)] *)
Definition hasOutgoing (req : RequirementObject) : bool :=
  existsb (fun ids => (0 <? length ids)%nat) (Js.map_values (req_links req)).

Definition findOrphanedRequirements (requirements : list RequirementObject)
  (idx : RequirementIndex) : list string :=
  map req_id
    (List.filter
       (fun req =>
          let hasIncoming :=
            match linkGraph idx !! req_id req with
            | Some linkedIds => (0 <? size linkedIds)%nat
            | None => false
            end in
          negb (hasOutgoing req) && negb hasIncoming)
       requirements).

Record Coverage := {
  cov_total : nat;
  cov_withLinks : nat;
  cov_percentage : JsNumber.jsnum
}.

Definition calculateCoverage (requirements : list RequirementObject) : Coverage :=
  let total := length requirements in
  let withLinks := length (List.filter hasOutgoing requirements) in
  {| cov_total := total;
     cov_withLinks := withLinks;
     cov_percentage := JsNumber.percentageOf withLinks total |}.

End GraphAnalysis.

(** ** DV-002: hierarchical traceability coverage *)

Module HierarchicalCoverage.
Import DeepValidation.

Record HierarchicalCoverage := {
  hc_linkType : string;
  hc_fromTypes : list string;
  hc_toTypes : list string;
  hc_total : nat;
  hc_withLinks : nat;
  hc_percentage : JsNumber.jsnum;
  hc_threshold : Z;
  hc_meets_threshold : bool;
  hc_missing : list string
}.

(** The targets of [links] that exist and have a type in [toTypes]. *)
Definition validTargets (requirements : list RequirementObject)
  (toTypes : list string) (links : list string) : list string :=
  List.filter
    (fun targetId =>
       match Js.find_by req_id requirements targetId with
       | Some target => Js.includes toTypes (req_type target)
       | None => false
       end)
    links.

(** The test that sends a source record to [withLinks] rather than to
    [missing]. *)
Definition hasValidLink (requirements : list RequirementObject)
  (linkType : string) (toTypes : list string) (req : RequirementObject) : bool :=
  match Js.map_get (req_links req) linkType with
  | Some links =>
      (0 <? length links)%nat
      && (0 <? length (validTargets requirements toTypes links))%nat
  | None => false
  end.

Definition calculateCoverageForLinkType (requirements : list RequirementObject)
  (linkType : string) (fromTypes toTypes : list string) (threshold : Z)
  : HierarchicalCoverage :=
  let sourceRequirements :=
    List.filter (fun req => Js.includes fromTypes (req_type req)) requirements in
  let withLinks :=
    List.filter (hasValidLink requirements linkType toTypes) sourceRequirements in
  let missing :=
    map req_id
      (List.filter (fun req => negb (hasValidLink requirements linkType toTypes req))
         sourceRequirements) in
  let total := length sourceRequirements in
  let covered := length withLinks in
  let percentage := JsNumber.percentageOf covered total in
  {| hc_linkType := linkType;
     hc_fromTypes := fromTypes;
     hc_toTypes := toTypes;
     hc_total := total;
     hc_withLinks := covered;
     hc_percentage := percentage;
     hc_threshold := threshold;
     hc_meets_threshold := JsNumber.geZ percentage threshold;
     hc_missing := missing |}.


End HierarchicalCoverage.

(** ** DV-003: orphaned requirements *)

Module OrphanDetector.
Import DeepValidation.

Inductive OrphanCategory := true_orphan | dead_end | source_only.

Record OrphanedRequirement := {
  or_id : string;
  or_type : string;
  or_priority : string;
  or_category : OrphanCategory;
  or_severity : ValidationSeverity;
  or_incomingCount : nat;
  or_outgoingCount : nat
}.

(** The [if / else if] chain that picks the category from the two
    lengths. *)
Definition categoryOf (outgoing incoming : nat) : option OrphanCategory :=
  if (outgoing =? 0)%nat && (incoming =? 0)%nat then Some true_orphan
  else if (outgoing =? 0)%nat && (0 <? incoming)%nat then Some dead_end
  else if (0 <? outgoing)%nat && (incoming =? 0)%nat then Some source_only
  else None.

Definition determineOrphanSeverity (req : RequirementObject)
  (category : OrphanCategory) (config : DeepValidationConfig) : ValidationSeverity :=
  let priority := Js.toLowerCase (priorityOf req) in
  match category with
  | true_orphan =>
      if String.eqb priority "critical" then os_critical (orphanSeverity config)
      else if String.eqb priority "high" then os_high (orphanSeverity config)
      else if String.eqb priority "medium" then os_medium (orphanSeverity config)
      else if String.eqb priority "low" then os_low (orphanSeverity config)
      else MEDIUM
  | _ =>
      if String.eqb priority "critical" then HIGH
      else if String.eqb priority "high" then MEDIUM
      else if String.eqb priority "medium" then LOW
      else if String.eqb priority "low" then INFO
      else LOW
  end.

Section WithLinkHelpers.

(** The two link helpers come from deepValidation.ts, which is not among
    the sources; the detector is defined over any pair of them. *)
Variable getAllOutgoingLinks : RequirementObject -> list string.
Variable getAllIncomingLinks : list RequirementObject -> string -> list string.

(** The body of the loop of [detectOrphanedRequirements] for one record:
    the report it pushes, if any. *)
Definition reportFor (requirements : list RequirementObject)
  (config : DeepValidationConfig) (req : RequirementObject)
  : option OrphanedRequirement :=
  let outgoing := getAllOutgoingLinks req in
  let incoming := getAllIncomingLinks requirements (req_id req) in
  match categoryOf (length outgoing) (length incoming) with
  | Some category =>
      Some {| or_id := req_id req;
              or_type := req_type req;
              or_priority := priorityOf req;
              or_category := category;
              or_severity := determineOrphanSeverity req category config;
              or_incomingCount := length incoming;
              or_outgoingCount := length outgoing |}
  | None => None
  end.

Definition detectOrphanedRequirements (requirements : list RequirementObject)
  (config : DeepValidationConfig) : list OrphanedRequirement :=
  flat_map
    (fun req =>
       match reportFor requirements config req with
       | Some report => [report]
       | None => []
       end)
    requirements.

End WithLinkHelpers.

End OrphanDetector.

(** ** DV-005, DV-006: completeness and priority-weighted coverage
       (completenessAnalyzer.ts) *)

Module CompletenessAnalyzer.
Import DeepValidation.

Record IncompleteChain := {
  ic_startId : string;
  ic_expectedPath : list string;
  ic_actualPath : list string;
  ic_missingLinks : list string;
  ic_severity : ValidationSeverity
}.

Record PriorityWeightedCoverage := {
  pw_priority : string;
  pw_total : nat;
  pw_covered : nat;
  pw_percentage : JsNumber.jsnum;
  pw_threshold : Z;
  pw_meets_threshold : bool;
  pw_missing : list string
}.

(** The default value of the parameter [expectedChain]. *)
Definition defaultExpectedChain : list string := ["STK"; "SYS"; "DSG"; "TST"].

Definition determineCompletenessSeverity (priority : string)
  (missingLinkCount : nat) : ValidationSeverity :=
  if String.eqb priority "critical" then BLOCKER
  else if String.eqb priority "high" then
    (if (1 <? missingLinkCount)%nat then HIGH else MEDIUM)
  else MEDIUM.

(** [config.priorityWeightedCoverage[priority] || 80] *)
Definition thresholdFor (config : DeepValidationConfig) (priority : string) : Z :=
  match Js.map_get (priorityWeightedCoverage config) priority with
  | Some 0%Z => 80%Z
  | Some t => t
  | None => 80%Z
  end.

Section WithHelpers.

(** The three helpers come from deepValidation.ts, which is not among the
    sources; the analyzers are defined over any choice of them. *)
Variable getTypePrefix : string -> string.
Variable getRequirementById : list RequirementObject -> string -> option RequirementObject.
Variable getAllOutgoingLinks : RequirementObject -> list string.

(** The two nested loops that fill [foundTargets] for one level. *)
Definition findTargets (requirements : list RequirementObject)
  (currentReqs : list string) (targetType : string) : list string :=
  fold_left
    (fun foundTargets reqId =>
       match getRequirementById requirements reqId with
       | None => foundTargets
       | Some req =>
           fold_left
             (fun found targetId =>
                match getRequirementById requirements targetId with
                | Some target =>
                    if String.eqb (getTypePrefix (req_id target)) targetType
                    then Js.set_add found targetId
                    else found
                | None => found
                end)
             (getAllOutgoingLinks req) foundTargets
       end)
    currentReqs [].

(** The [for] loop of [traceChain] from index [i] on: [prevType] is
    [expectedChain[i - 1]] and [remaining] is [expectedChain.slice(i)]. *)
Fixpoint traceFrom (requirements : list RequirementObject) (prevType : string)
  (remaining : list string) (currentReqs actualPath missingLinks : list string)
  : list string * list string :=
  match remaining with
  | [] => (actualPath, missingLinks)
  | targetType :: remaining' =>
      let foundTargets := findTargets requirements currentReqs targetType in
      if (0 <? length foundTargets)%nat then
        traceFrom requirements targetType remaining' foundTargets
          (actualPath ++ [targetType]) missingLinks
      else
        (actualPath, missingLinks ++ [(prevType ++ "→" ++ targetType)%string])
  end.

(** [traceChain]: the pair of [actualPath] and [missingLinks]. *)
Definition traceChain (requirements : list RequirementObject) (startId : string)
  (expectedChain : list string) : list string * list string :=
  match expectedChain with
  | [] => ([getTypePrefix startId], [])
  | first :: remaining =>
      traceFrom requirements first remaining [startId] [getTypePrefix startId] []
  end.

(** The records at the start of the chain; with an empty chain
    [expectedChain[0]] is [undefined] and no prefix equals it. *)
Definition startRequirements (requirements : list RequirementObject)
  (expectedChain : list string) : list RequirementObject :=
  match expectedChain with
  | [] => []
  | first :: _ =>
      List.filter (fun req => String.eqb (getTypePrefix (req_id req)) first) requirements
  end.

Definition verifyHierarchicalCompleteness (requirements : list RequirementObject)
  (config : DeepValidationConfig) (expectedChain : list string)
  : list IncompleteChain :=
  flat_map
    (fun startReq =>
       let traced := traceChain requirements (req_id startReq) expectedChain in
       if (0 <? length (snd traced))%nat then
         [ {| ic_startId := req_id startReq;
              ic_expectedPath := expectedChain;
              ic_actualPath := fst traced;
              ic_missingLinks := snd traced;
              ic_severity :=
                determineCompletenessSeverity (priorityOf startReq)
                  (length (snd traced)) |} ]
       else [])
    (startRequirements requirements expectedChain).

(** The body of the loop of [calculatePriorityWeightedCoverage] for one
    priority. *)
Definition coverageForPriority (requirements : list RequirementObject)
  (config : DeepValidationConfig) (priority : string) : PriorityWeightedCoverage :=
  let priorityReqs :=
    List.filter (fun req => String.eqb (Js.toLowerCase (priorityOf req)) priority)
      requirements in
  let covered :=
    List.filter (fun req => (0 <? length (getAllOutgoingLinks req))%nat) priorityReqs in
  let missing :=
    map req_id
      (List.filter (fun req => (length (getAllOutgoingLinks req) =? 0)%nat) priorityReqs) in
  let threshold := thresholdFor config priority in
  let total := length priorityReqs in
  let coveredCount := length covered in
  let percentage := JsNumber.percentageOf coveredCount total in
  {| pw_priority := priority;
     pw_total := total;
     pw_covered := coveredCount;
     pw_percentage := percentage;
     pw_threshold := threshold;
     pw_meets_threshold := JsNumber.geZ percentage threshold;
     pw_missing := missing |}.

Definition calculatePriorityWeightedCoverage (requirements : list RequirementObject)
  (config : DeepValidationConfig) : list PriorityWeightedCoverage :=
  map (coverageForPriority requirements config) ["critical"; "high"; "medium"; "low"].

End WithHelpers.

End CompletenessAnalyzer.

(** ** DV-004: status consistency *)

Module StatusConsistency.
Import DeepValidation.

Inductive Violation := approved_to_draft | implemented_to_draft | baselined_to_draft.

Record StatusInconsistency := {
  si_chain : list string;
  si_fromId : string;
  si_toId : string;
  si_fromStatus : string;
  si_toStatus : string;
  si_linkType : string;
  si_severity : ValidationSeverity;
  si_violation : Violation
}.

Definition detectStatusViolation (fromStatus toStatus : string)
  (config : DeepValidationConfig) : option Violation :=
  let from := Js.toLowerCase fromStatus in
  let to := Js.toLowerCase toStatus in
  if enforceApprovedChain (statusConsistency config)
     && (String.eqb from "approved" && String.eqb to "draft")
  then Some approved_to_draft
  else if enforceImplementedChain (statusConsistency config)
          && (String.eqb from "implemented" && String.eqb to "draft")
  then Some implemented_to_draft
  else if String.eqb from "baselined"
          && (String.eqb to "draft" || String.eqb to "review")
  then Some baselined_to_draft
  else None.

Definition determineStatusInconsistencySeverity (fromStatus toStatus : string)
  (violation : Violation) (priority : string) : ValidationSeverity :=
  match violation with
  | baselined_to_draft => HIGH
  | _ =>
      if String.eqb priority "critical" || String.eqb priority "high"
      then HIGH else MEDIUM
  end.

Definition buildChain (requirements : list RequirementObject)
  (fromId toId : string) : list string :=
  [fromId; toId].

Section WithHelpers.

(** [getRequirementById] comes from deepValidation.ts, which is not among
    the sources. *)
Variable getRequirementById : list RequirementObject -> string -> option RequirementObject.

(** The body of the innermost loop: the inconsistency pushed for one
    link, if any. *)
Definition checkLink (requirements : list RequirementObject)
  (config : DeepValidationConfig) (req : RequirementObject)
  (linkType targetId : string) : list StatusInconsistency :=
  let fromStatus := Js.or_default (req_status req) "draft" in
  match getRequirementById requirements targetId with
  | None => []
  | Some target =>
      let toStatus := Js.or_default (req_status target) "draft" in
      match detectStatusViolation fromStatus toStatus config with
      | Some violation =>
          [ {| si_chain := buildChain requirements (req_id req) targetId;
               si_fromId := req_id req;
               si_toId := targetId;
               si_fromStatus := fromStatus;
               si_toStatus := toStatus;
               si_linkType := linkType;
               si_severity :=
                 determineStatusInconsistencySeverity fromStatus toStatus
                   violation (priorityOf req);
               si_violation := violation |} ]
      | None => []
      end
  end.

Definition detectStatusInconsistencies (requirements : list RequirementObject)
  (config : DeepValidationConfig) : list StatusInconsistency :=
  flat_map
    (fun req =>
       flat_map
         (fun entry =>
            flat_map (checkLink requirements config req (fst entry)) (snd entry))
         (req_links req))
    requirements.

End WithHelpers.

End StatusConsistency.

(** ** DV-010: gap analysis with recommendations *)

Module GapAnalysis.
Import DeepValidation.
Import CircularDependencyDetector HierarchicalCoverage OrphanDetector.
Import StatusConsistency CompletenessAnalyzer.

Inductive ValidationCategory :=
  | CIRCULAR_DEPENDENCY | COVERAGE | ORPHANED | STATUS_CONSISTENCY
  | COMPLETENESS | PRIORITY | BASELINE.

Inductive Effort := effort_low | effort_medium | effort_high.

Inductive BaselineIssueKind :=
  not_approved | downstream_not_baselined | version_conflict.

Record BaselineIssue := {
  bi_id : string;
  bi_baseline : string;
  bi_issue : BaselineIssueKind;
  bi_severity : ValidationSeverity;
  bi_affectedIds : list string;
  bi_details : string
}.

Record DeepValidationReport := {
  circularDependencies : list CircularDependency;
  hierarchicalCoverageResults : list HierarchicalCoverage;
  orphanedRequirements : list OrphanedRequirement;
  statusInconsistencies : list StatusInconsistency;
  incompleteChains : list IncompleteChain;
  priorityWeightedCoverageResults : list PriorityWeightedCoverage;
  baselineIssues : list BaselineIssue
}.

Record GapRecommendation := {
  severity : ValidationSeverity;
  category : ValidationCategory;
  action : string;
  description : string;
  affectedCount : nat;
  affectedIds : list string;
  estimatedEffort : Effort;
  priority : nat
}.

(** A number inside a template literal. *)
Definition showNat (n : nat) : string := pretty n.

Definition showNum (p : JsNumber.jsnum) : string :=
  match p with
  | JsNumber.JsInt z => pretty z
  | JsNumber.JsNaN => "NaN"
  | JsNumber.JsInf false => "Infinity"
  | JsNumber.JsInf true => "-Infinity"
  end.

(** [threshold - percentage > k] *)
Definition gapExceeds (threshold : Z) (p : JsNumber.jsnum) (k : Z) : bool :=
  match p with
  | JsNumber.JsInt z => (k <? threshold - z)%Z
  | JsNumber.JsNaN => false
  | JsNumber.JsInf negative => negative
  end.

(** The ids of all cycles of a group, gathered into a [Set]. *)
Definition cycleIds (cs : list CircularDependency) : list string :=
  Js.set_add_all [] (concat (map cd_cycle cs)).

Definition analyzeCircularDependencies (cycles : list CircularDependency)
  : list GapRecommendation :=
  let blockerCycles := List.filter (fun c => severity_eqb (cd_severity c) BLOCKER) cycles in
  let highCycles := List.filter (fun c => severity_eqb (cd_severity c) HIGH) cycles in
  (if (0 <? length blockerCycles)%nat then
     [ {| severity := BLOCKER;
          category := CIRCULAR_DEPENDENCY;
          action := "Break circular dependencies";
          description :=
            (showNat (length blockerCycles)
             ++ " critical circular dependencies detected with length ≤2. These must be resolved immediately.")%string;
          affectedCount := length (cycleIds blockerCycles);
          affectedIds := cycleIds blockerCycles;
          estimatedEffort := effort_high;
          priority := 0 |} ]
   else [])
  ++
  (if (0 <? length highCycles)%nat then
     [ {| severity := HIGH;
          category := CIRCULAR_DEPENDENCY;
          action := "Resolve circular dependencies";
          description :=
            (showNat (length highCycles)
             ++ " circular dependencies (length 3-5) should be resolved soon.")%string;
          affectedCount := length (cycleIds highCycles);
          affectedIds := cycleIds highCycles;
          estimatedEffort := effort_medium;
          priority := 0 |} ]
   else []).

Definition analyzeCoverageGaps (coverage : list HierarchicalCoverage)
  (requirements : list RequirementObject) : list GapRecommendation :=
  flat_map
    (fun cov =>
       if negb (hc_meets_threshold cov) && (0 <? length (hc_missing cov))%nat then
         [ {| severity :=
                if gapExceeds (hc_threshold cov) (hc_percentage cov) 20 then HIGH
                else if gapExceeds (hc_threshold cov) (hc_percentage cov) 10 then MEDIUM
                else LOW;
              category := COVERAGE;
              action := ("Add " ++ hc_linkType cov ++ " links")%string;
              description :=
                (hc_linkType cov ++ " coverage is " ++ showNum (hc_percentage cov)
                 ++ "% (threshold: " ++ pretty (hc_threshold cov) ++ "%). "
                 ++ showNat (length (hc_missing cov)) ++ " requirements need links.")%string;
              affectedCount := length (hc_missing cov);
              affectedIds := hc_missing cov;
              estimatedEffort :=
                if (20 <? length (hc_missing cov))%nat then effort_high
                else if (10 <? length (hc_missing cov))%nat then effort_medium
                else effort_low;
              priority := 0 |} ]
       else [])
    coverage.

Definition isCategory (c : OrphanCategory) (o : OrphanedRequirement) : bool :=
  match c, or_category o with
  | true_orphan, true_orphan | dead_end, dead_end | source_only, source_only => true
  | _, _ => false
  end.

Definition analyzeOrphanedRequirements (orphans : list OrphanedRequirement)
  : list GapRecommendation :=
  let trueOrphans := List.filter (isCategory true_orphan) orphans in
  let deadEnds := List.filter (isCategory dead_end) orphans in
  let criticalOrphans :=
    List.filter
      (fun o => severity_eqb (or_severity o) BLOCKER || severity_eqb (or_severity o) HIGH)
      trueOrphans in
  (if (0 <? length criticalOrphans)%nat then
     [ {| severity := HIGH;
          category := ORPHANED;
          action := "Link critical orphaned requirements";
          description :=
            (showNat (length criticalOrphans)
             ++ " critical/high-priority requirements have no links. These must be integrated into traceability.")%string;
          affectedCount := length criticalOrphans;
          affectedIds := map or_id criticalOrphans;
          estimatedEffort := effort_high;
          priority := 0 |} ]
   else [])
  ++
  (if (5 <? length deadEnds)%nat then
     [ {| severity := MEDIUM;
          category := ORPHANED;
          action := "Add downstream traceability";
          description :=
            (showNat (length deadEnds)
             ++ " requirements are dead-ends (no downstream links). Add implementations or tests.")%string;
          affectedCount := length deadEnds;
          affectedIds := map or_id deadEnds;
          estimatedEffort := effort_high;
          priority := 0 |} ]
   else []).

Definition isViolation (v : Violation) (i : StatusInconsistency) : bool :=
  match v, si_violation i with
  | approved_to_draft, approved_to_draft
  | implemented_to_draft, implemented_to_draft
  | baselined_to_draft, baselined_to_draft => true
  | _, _ => false
  end.

Definition analyzeStatusInconsistencies (inconsistencies : list StatusInconsistency)
  : list GapRecommendation :=
  let approvedToDraft := List.filter (isViolation approved_to_draft) inconsistencies in
  let baselinedToDraft := List.filter (isViolation baselined_to_draft) inconsistencies in
  let bothEnds :=
    Js.set_add_all [] (flat_map (fun i => [si_fromId i; si_toId i]) baselinedToDraft) in
  let targetIds := Js.set_add_all [] (map si_toId approvedToDraft) in
  (if (0 <? length baselinedToDraft)%nat then
     [ {| severity := HIGH;
          category := STATUS_CONSISTENCY;
          action := "Fix baselined requirement status violations";
          description :=
            (showNat (length baselinedToDraft)
             ++ " baselined requirements link to draft/review items. Update downstream statuses.")%string;
          affectedCount := length bothEnds;
          affectedIds := bothEnds;
          estimatedEffort := effort_medium;
          priority := 0 |} ]
   else [])
  ++
  (if (0 <? length approvedToDraft)%nat then
     [ {| severity := MEDIUM;
          category := STATUS_CONSISTENCY;
          action := "Update status of downstream requirements";
          description :=
            (showNat (length approvedToDraft)
             ++ " approved requirements link to draft items. Consider bulk status update.")%string;
          affectedCount := length targetIds;
          affectedIds := targetIds;
          estimatedEffort := effort_low;
          priority := 0 |} ]
   else []).

Definition analyzeIncompleteChains (chains : list IncompleteChain)
  : list GapRecommendation :=
  let criticalChains :=
    List.filter
      (fun c => severity_eqb (ic_severity c) BLOCKER || severity_eqb (ic_severity c) HIGH)
      chains in
  if (length criticalChains =? 0)%nat then []
  else
    [ {| severity := HIGH;
         category := COMPLETENESS;
         action := "Complete critical traceability chains";
         description :=
           (showNat (length criticalChains)
            ++ " critical requirements have incomplete traceability chains (STK→SYS→DSG→TST).")%string;
         affectedCount := length criticalChains;
         affectedIds := map ic_startId criticalChains;
         estimatedEffort := effort_high;
         priority := 0 |} ].

Definition analyzePriorityCoverage (coverage : list PriorityWeightedCoverage)
  : list GapRecommendation :=
  flat_map
    (fun cov =>
       if negb (pw_meets_threshold cov) && (0 <? length (pw_missing cov))%nat then
         [ {| severity :=
                if String.eqb (pw_priority cov) "critical" then BLOCKER
                else if String.eqb (pw_priority cov) "high" then HIGH
                else MEDIUM;
              category := PRIORITY;
              action := ("Add links for " ++ pw_priority cov ++ " priority requirements")%string;
              description :=
                (pw_priority cov ++ " priority coverage is " ++ showNum (pw_percentage cov)
                 ++ "% (threshold: " ++ pretty (pw_threshold cov) ++ "%). "
                 ++ showNat (length (pw_missing cov)) ++ " requirements need links.")%string;
              affectedCount := length (pw_missing cov);
              affectedIds := pw_missing cov;
              estimatedEffort :=
                if (10 <? length (pw_missing cov))%nat then effort_high else effort_medium;
              priority := 0 |} ]
       else [])
    coverage.

Definition isIssue (k : BaselineIssueKind) (i : BaselineIssue) : bool :=
  match k, bi_issue i with
  | not_approved, not_approved
  | downstream_not_baselined, downstream_not_baselined
  | version_conflict, version_conflict => true
  | _, _ => false
  end.

Definition analyzeBaselineIssues (issues : list BaselineIssue)
  : list GapRecommendation :=
  let notApproved := List.filter (isIssue not_approved) issues in
  let versionConflicts := List.filter (isIssue version_conflict) issues in
  let conflictIds := Js.set_add_all [] (concat (map bi_affectedIds versionConflicts)) in
  (if (0 <? length notApproved)%nat then
     [ {| severity := HIGH;
          category := BASELINE;
          action := "Approve baselined requirements";
          description :=
            (showNat (length notApproved)
             ++ " baselined requirements are not in approved/implemented status.")%string;
          affectedCount := length notApproved;
          affectedIds := map bi_id notApproved;
          estimatedEffort := effort_medium;
          priority := 0 |} ]
   else [])
  ++
  (if (0 <? length versionConflicts)%nat then
     [ {| severity := MEDIUM;
          category := BASELINE;
          action := "Resolve baseline version conflicts";
          description :=
            (showNat (length versionConflicts)
             ++ " baseline version conflicts detected in traceability chains.")%string;
          affectedCount := length conflictIds;
          affectedIds := conflictIds;
          estimatedEffort := effort_medium;
          priority := 0 |} ]
   else []).

(** The table [severityOrder]. *)
Definition severityOrder (s : ValidationSeverity) : Z :=
  match s with
  | BLOCKER => 0 | HIGH => 1 | MEDIUM => 2 | LOW => 3 | INFO => 4
  end%Z.

(** The comparator handed to [sort]. *)
Definition compareRecommendations (a b : GapRecommendation) : Z :=
  let severityDiff := (severityOrder (severity a) - severityOrder (severity b))%Z in
  if negb (severityDiff =? 0)%Z then severityDiff
  else (Z.of_nat (affectedCount b) - Z.of_nat (affectedCount a))%Z.

(** [Array.prototype.sort] with a comparator. The sort of the language is
    stable, and for a comparator that is a total preorder its result does
    not depend on the algorithm; it is computed here by insertion from the
    right, an element going before the first one it does not exceed. *)
Fixpoint sortInsert {A : Type} (cmp : A -> A -> Z) (x : A) (sorted : list A) : list A :=
  match sorted with
  | [] => [x]
  | y :: sorted' =>
      if (cmp x y <=? 0)%Z then x :: y :: sorted' else y :: sortInsert cmp x sorted'
  end.

Definition sortBy {A : Type} (cmp : A -> A -> Z) (l : list A) : list A :=
  fold_right (sortInsert cmp) [] l.

Definition setPriority (rec : GapRecommendation) (p : nat) : GapRecommendation :=
  {| severity := severity rec; category := category rec; action := action rec;
     description := description rec; affectedCount := affectedCount rec;
     affectedIds := affectedIds rec; estimatedEffort := estimatedEffort rec;
     priority := p |}.

(** [recommendations.forEach((rec, index) => rec.priority = index + 1)]
    from position [index] on. *)
Fixpoint assignPriorities (index : nat) (recs : list GapRecommendation)
  : list GapRecommendation :=
  match recs with
  | [] => []
  | rec :: recs' => setPriority rec (index + 1) :: assignPriorities (S index) recs'
  end.

Definition generateGapRecommendations (report : DeepValidationReport)
  (requirements : list RequirementObject) : list GapRecommendation :=
  let recommendations :=
    analyzeCircularDependencies (circularDependencies report)
    ++ analyzeCoverageGaps (hierarchicalCoverageResults report) requirements
    ++ analyzeOrphanedRequirements (orphanedRequirements report)
    ++ analyzeStatusInconsistencies (statusInconsistencies report)
    ++ analyzeIncompleteChains (incompleteChains report)
    ++ analyzePriorityCoverage (priorityWeightedCoverageResults report)
    ++ analyzeBaselineIssues (baselineIssues report) in
  assignPriorities 0 (sortBy compareRecommendations recommendations).

End GapAnalysis.

(** ** The requirement index *)

Module IndexBuilder.
Import GraphAnalysis.

Definition emptyIndex : RequirementIndex :=
  {| objects := ∅; linkGraph := ∅ |}.

(** [linkGraph.get(a)], an absent entry read as the empty set. *)
Definition linked (lg : gmap string (gset string)) (a : string) : gset string :=
  default ∅ (lg !! a).

(** All targets of a record, link types flattened. *)
Definition targetsOf (r : RequirementObject) : list string :=
  concat (Js.map_values (req_links r)).

(** [if (!linkGraph.has(a)) linkGraph.set(a, new Set())] *)
Definition ensureNode (a : string) (lg : gmap string (gset string))
  : gmap string (gset string) :=
  match lg !! a with
  | Some _ => lg
  | None => <[a := ∅]> lg
  end.

(** The body of the innermost loop of [createMockIndex] in
    graphAnalysis.test.ts: the link and its reverse. *)
Definition mockAddLink (a linkedId : string) (lg : gmap string (gset string))
  : gmap string (gset string) :=
  let lg1 := <[a := {[linkedId]} ∪ linked lg a]> lg in
  let lg2 := ensureNode linkedId lg1 in
  <[linkedId := {[a]} ∪ linked lg2 linkedId]> lg2.

(** [createMockIndex] of graphAnalysis.test.ts. *)
Definition createMockIndex (requirements : list RequirementObject)
  : RequirementIndex :=
  fold_left
    (fun idx req =>
       {| objects := <[req_id req := req]> (objects idx);
          linkGraph :=
            fold_left (fun lg linkedId => mockAddLink (req_id req) linkedId lg)
              (targetsOf req) (ensureNode (req_id req) (linkGraph idx)) |})
    requirements emptyIndex.

(** Modelled from the spec: the registration of one directed link by the
    Index Builder, whose source (indexBuilder.ts) is not among the
    sources: inserting [a -> b] also registers [b -> a]. *)
Definition addLink (a b : string) (lg : gmap string (gset string))
  : gmap string (gset string) :=
  let lg1 := <[a := {[b]} ∪ linked lg a]> lg in
  <[b := {[a]} ∪ linked lg1 b]> lg1.

(** Modelled from the spec: the unwinding of one directed link: both
    directions of the link leave [linkGraph]. *)
Definition removeLink (a b : string) (lg : gmap string (gset string))
  : gmap string (gset string) :=
  let lg1 := <[a := linked lg a ∖ {[b]}]> lg in
  <[b := linked lg1 b ∖ {[a]}]> lg1.

(** Modelled from the spec: the removal of one record: it leaves the
    primary mapping, and both directions of each of its links leave
    [linkGraph]. *)
Definition removeRecord (r : RequirementObject) (idx : RequirementIndex)
  : RequirementIndex :=
  {| objects := delete (req_id r) (objects idx);
     linkGraph :=
       fold_left (fun lg b => removeLink (req_id r) b lg) (targetsOf r)
         (linkGraph idx) |}.

(** Modelled from the spec: [upsert], which inserts a record or replaces
    the one with the same id (last write wins); a replaced record is
    first removed with its contribution. *)
Definition upsert (r : RequirementObject) (idx : RequirementIndex)
  : RequirementIndex :=
  let idx1 :=
    match objects idx !! req_id r with
    | Some old => removeRecord old idx
    | None => idx
    end in
  {| objects := <[req_id r := r]> (objects idx1);
     linkGraph :=
       fold_left (fun lg b => addLink (req_id r) b lg) (targetsOf r)
         (linkGraph idx1) |}.

(** Modelled from the spec: [removeByFile], which removes every record
    whose provenance file matches. *)
Definition removeByFile (file : string) (idx : RequirementIndex)
  : RequirementIndex :=
  fold_right removeRecord idx
    (List.filter (fun r => String.eqb (loc_file (req_location r)) file)
       (map snd (map_to_list (objects idx)))).

(** The mutations of the index. *)
Inductive Mutation :=
  | Upsert (r : RequirementObject)
  | RemoveByFile (file : string).

Definition apply (idx : RequirementIndex) (m : Mutation) : RequirementIndex :=
  match m with
  | Upsert r => upsert r idx
  | RemoveByFile file => removeByFile file idx
  end.



(** [b] is a member of [linkGraph(a)]. *)
Definition inLinkGraph (idx : RequirementIndex) (a b : string) : Prop :=
  b ∈ linked (linkGraph idx) a.


End IndexBuilder.

(** ** Sample inputs *)

Module Fixtures.
Import DeepValidation.

(** A record as the unit tests build it: only id, type, status and links
    vary. *)
Definition mkReq (i ty : string) (st : option string)
  (ls : list (string * list string)) : RequirementObject :=
  {| req_id := i; req_type := ty; req_level := None; req_status := st;
     req_links := ls; req_metadata := [];
     req_location := {| loc_file := "/test/file.rst"; loc_line := 1 |};
     req_baseline := None |}.

(** The same with a priority and a source file. *)
Definition mkReqIn (file i : string) (prio : string)
  (ls : list (string * list string)) : RequirementObject :=
  {| req_id := i; req_type := "requirement"; req_level := None;
     req_status := None; req_links := ls;
     req_metadata := [("priority", prio)];
     req_location := {| loc_file := file; loc_line := 1 |};
     req_baseline := None |}.

(** A configuration with the default cycle severities and every check
    enabled. *)
Definition sampleConfig : DeepValidationConfig :=
  {| cycleSeverity := DEFAULT_CYCLE_SEVERITY;
     orphanSeverity :=
       {| os_critical := BLOCKER; os_high := HIGH; os_medium := MEDIUM;
          os_low := LOW |};
     hierarchicalCoverage := [];
     priorityWeightedCoverage := [];
     statusConsistency :=
       {| enforceApprovedChain := true; enforceImplementedChain := true |};
     baselineStability :=
       {| requireApproved := true; requireDownstreamBaselined := true |} |}.

End Fixtures.

(** ** DV-002, continued: coverage queries *)

Module CoverageQueries.
Import DeepValidation HierarchicalCoverage.

(** A percentage read back as the binary64 number it is. *)
Definition toFloat (p : JsNumber.jsnum) : float :=
  match p with
  | JsNumber.JsInt z =>
      if (0 <=? z)%Z then PrimFloat.of_uint63 (Uint63.of_Z z)
      else PrimFloat.opp (PrimFloat.of_uint63 (Uint63.of_Z (- z)))
  | JsNumber.JsNaN => PrimFloat.nan
  | JsNumber.JsInf negative =>
      if negative then PrimFloat.neg_infinity else PrimFloat.infinity
  end.

(** The two accumulators of [getOverallCoverageScore] after the loop. *)
Definition totalWeightOf (hierarchicalCoverage : list HierarchicalCoverage) : nat :=
  fold_left (fun totalWeight coverage => totalWeight + hc_total coverage)%nat
    hierarchicalCoverage 0%nat.

Definition weightedSumOf (hierarchicalCoverage : list HierarchicalCoverage) : float :=
  fold_left
    (fun weightedSum coverage =>
       PrimFloat.add weightedSum
         (PrimFloat.mul (toFloat (hc_percentage coverage))
            (JsNumber.ofNat (hc_total coverage))))
    hierarchicalCoverage (JsNumber.ofNat 0).

Definition getOverallCoverageScore (hierarchicalCoverage : list HierarchicalCoverage)
  : JsNumber.jsnum :=
  if (length hierarchicalCoverage =? 0)%nat then JsNumber.JsInt 0
  else
    let totalWeight := totalWeightOf hierarchicalCoverage in
    let weightedSum := weightedSumOf hierarchicalCoverage in
    if (0 <? totalWeight)%nat
    then JsNumber.Math_round (PrimFloat.div weightedSum (JsNumber.ofNat totalWeight))
    else JsNumber.JsInt 0.

Record PrefixCoverage := {
  pc_total : nat;
  pc_covered : nat;
  pc_percentage : JsNumber.jsnum;
  pc_missing : list string
}.


(** One cell of the matrix of [buildTraceabilityMatrix]. *)
Record MatrixCell := { cell_covered : nat; cell_total : nat }.

Section WithHelpers.

(** [getTypePrefix] and [hasLinksOfType] come from deepValidation.ts,
    which is not among the sources. *)
Variable getTypePrefix : string -> string.
Variable hasLinksOfType : RequirementObject -> list string -> bool.

Definition getCoverageByTypePrefix (requirements : list RequirementObject)
  (typePrefix : string) (linkTypes : list string) : PrefixCoverage :=
  let typeRequirements :=
    List.filter (fun req => String.eqb (getTypePrefix (req_id req)) typePrefix)
      requirements in
  let covered := List.filter (fun req => hasLinksOfType req linkTypes) typeRequirements in
  let missing :=
    map req_id
      (List.filter (fun req => negb (hasLinksOfType req linkTypes)) typeRequirements) in
  let total := length typeRequirements in
  let coveredCount := length covered in
  {| pc_total := total;
     pc_covered := coveredCount;
     pc_percentage := JsNumber.percentageOf coveredCount total;
     pc_missing := missing |}.

(** The set of the non-empty type prefixes of the ids, in order of first
    occurrence. *)
Definition typePrefixesOf (requirements : list RequirementObject) : list string :=
  fold_left
    (fun typePrefixes req =>
       match getTypePrefix (req_id req) with
       | EmptyString => typePrefixes
       | prefix => Js.set_add typePrefixes prefix
       end)
    requirements [].

(** [links.some(...)] for one link type of one record: a link to an
    existing record whose prefix is [toType]. *)
Definition hasLinkToType (requirements : list RequirementObject)
  (toType : string) (req : RequirementObject) (linkType : string) : bool :=
  existsb
    (fun targetId =>
       match Js.find_by req_id requirements targetId with
       | Some target => String.eqb (getTypePrefix (req_id target)) toType
       | None => false
       end)
    (default [] (Js.map_get (req_links req) linkType)).

(** The loop over [fromReqs] that counts [covered]: a record counts once,
    at its first link type with such a link. *)
Definition coveredCount (requirements : list RequirementObject)
  (linkTypes : list string) (toType : string) (fromReqs : list RequirementObject)
  : nat :=
  fold_left
    (fun covered req =>
       if existsb (hasLinkToType requirements toType req) linkTypes
       then S covered else covered)
    fromReqs 0%nat.

Definition buildTraceabilityMatrix (requirements : list RequirementObject)
  (linkTypes : list string) : list (string * list (string * MatrixCell)) :=
  let typePrefixes := typePrefixesOf requirements in
  fold_left
    (fun matrix fromType =>
       Js.map_set fromType
         (fold_left
            (fun row toType =>
               let fromReqs :=
                 List.filter
                   (fun req => String.eqb (getTypePrefix (req_id req)) fromType)
                   requirements in
               Js.map_set toType
                 {| cell_covered := coveredCount requirements linkTypes toType fromReqs;
                    cell_total := length fromReqs |}
                 row)
            typePrefixes [])
         matrix)
    typePrefixes [].

End WithHelpers.

End CoverageQueries.

(** ** DV-007: baseline stability, and bulk status suggestions
       (completenessAnalyzer.ts, continued) *)

Module BaselineStability.
Import DeepValidation GapAnalysis StatusConsistency.

(** An optional string inside a template literal. *)
Definition showOpt (s : option string) : string :=
  match s with Some v => v | None => "undefined" end.

(** [a !== b] on optional strings. *)
Definition strictNe (a b : option string) : bool :=
  match a, b with
  | Some x, Some y => negb (String.eqb x y)
  | None, None => false
  | _, _ => true
  end.

(** [array.join(sep)] *)
Definition join (sep : string) (l : list string) : string := String.concat sep l.

(** The status test of the first check: not approved, implemented or
    baselined, in any letter case. *)
Definition notStable (req : RequirementObject) : bool :=
  let status := Js.toLowerCase (Js.or_default (req_status req) "draft") in
  negb (String.eqb status "approved") && negb (String.eqb status "implemented")
  && negb (String.eqb status "baselined").

Section WithHelpers.

(** The two helpers come from deepValidation.ts, which is not among the
    sources. *)
Variable getRequirementById : list RequirementObject -> string -> option RequirementObject.
Variable getAllOutgoingLinks : RequirementObject -> list string.

(** The loop over the outgoing links of one baselined record: the
    version conflicts it pushes, and the targets it collects in
    [notBaselined]. *)
Fixpoint checkDownstream (requirements : list RequirementObject)
  (req : RequirementObject) (outgoing : list string)
  : list BaselineIssue * list string :=
  match outgoing with
  | [] => ([], [])
  | targetId :: rest =>
      let later := checkDownstream requirements req rest in
      match getRequirementById requirements targetId with
      | Some target =>
          if negb (Js.truthy (req_baseline target)) then
            (fst later, targetId :: snd later)
          else if strictNe (req_baseline target) (req_baseline req) then
            ({| bi_id := req_id req;
                bi_baseline := showOpt (req_baseline req);
                bi_issue := version_conflict;
                bi_severity := MEDIUM;
                bi_affectedIds := [req_id req; targetId];
                bi_details :=
                  (req_id req ++ " (" ++ showOpt (req_baseline req) ++ ") links to "
                   ++ targetId ++ " (" ++ showOpt (req_baseline target) ++ ")")%string |}
             :: fst later, snd later)
          else later
      | None => later
      end
  end.

(** The body of the loop of [analyzeBaselineStability] for one baselined
    record. *)
Definition issuesFor (requirements : list RequirementObject)
  (config : DeepValidationConfig) (req : RequirementObject) : list BaselineIssue :=
  (if requireApproved (baselineStability config) && notStable req then
     [ {| bi_id := req_id req;
          bi_baseline := showOpt (req_baseline req);
          bi_issue := not_approved;
          bi_severity := HIGH;
          bi_affectedIds := [req_id req];
          bi_details :=
            ("Baselined requirement " ++ req_id req ++ " has status '"
             ++ showOpt (req_status req)
             ++ "' but should be approved/implemented")%string |} ]
   else [])
  ++
  (if requireDownstreamBaselined (baselineStability config) then
     let checked := checkDownstream requirements req (getAllOutgoingLinks req) in
     fst checked
     ++ (if (0 <? length (snd checked))%nat then
           [ {| bi_id := req_id req;
                bi_baseline := showOpt (req_baseline req);
                bi_issue := downstream_not_baselined;
                bi_severity := MEDIUM;
                bi_affectedIds := req_id req :: snd checked;
                bi_details :=
                  ("Baselined " ++ req_id req ++ " links to non-baselined: "
                   ++ join ", " (snd checked))%string |} ]
         else [])
   else []).

Definition analyzeBaselineStability (requirements : list RequirementObject)
  (config : DeepValidationConfig) : list BaselineIssue :=
  flat_map (issuesFor requirements config)
    (List.filter (fun req => Js.truthy (req_baseline req)) requirements).

End WithHelpers.

Inductive BulkAction := update_target_status | update_source_status.

Record BulkSuggestion := {
  bs_action : BulkAction;
  bs_affectedIds : list string;
  bs_fromStatus : string;
  bs_toStatus : string;
  bs_reason : string
}.

(** [getBulkUpdateSuggestions]; its second parameter is not read. *)
Definition getBulkUpdateSuggestions (inconsistencies : list StatusInconsistency)
  (requirements : list RequirementObject) : list BulkSuggestion :=
  let approvedToDraft := List.filter (isViolation approved_to_draft) inconsistencies in
  if (0 <? length approvedToDraft)%nat then
    let targetIds := Js.set_add_all [] (map si_toId approvedToDraft) in
    [ {| bs_action := update_target_status;
         bs_affectedIds := targetIds;
         bs_fromStatus := "draft";
         bs_toStatus := "approved";
         bs_reason :=
           (showNat (length targetIds)
            ++ " draft requirements are linked from approved requirements")%string |} ]
  else [].

End BaselineStability.

(** ** Graph analysis, continued (utils/graphAnalysis.ts) *)

Module GraphQueries.

(** The members of [DiagnosticType] that graphAnalysis.ts uses; the
    enumeration is declared in types.ts. *)
Inductive DiagnosticType := StatusInconsistent | CircularDep | OrphanedReq.

Record ValidationIssue := {
  vi_type : DiagnosticType;
  vi_message : string;
  vi_location : Location;
  vi_relatedIds : option (list string);
  vi_severity : string
}.

(** [new Map(requirements.map(r => [r.id, r]))]: a later record replaces
    an earlier one with the same id. *)
Definition reqMapOf (requirements : list RequirementObject)
  : list (string * RequirementObject) :=
  fold_left (fun m r => Js.map_set (req_id r) r m) requirements [].

(** [new Map(statusOrder.map((s, i) => [s, i]))] from index [i] on. *)
Fixpoint statusRankFrom (i : nat) (statusOrder : list string)
  (m : list (string * nat)) : list (string * nat) :=
  match statusOrder with
  | [] => m
  | s :: rest => statusRankFrom (S i) rest (Js.map_set s i m)
  end.

Definition statusRankOf (statusOrder : list string) : list (string * nat) :=
  statusRankFrom 0 statusOrder [].

(** [array.indexOf(x)], with -1 for an absent element. *)
Fixpoint indexOfFrom (i : Z) (l : list string) (x : string) : Z :=
  match l with
  | [] => (-1)%Z
  | y :: rest => if String.eqb y x then i else indexOfFrom (i + 1)%Z rest x
  end.

Definition indexOf (l : list string) (x : string) : Z := indexOfFrom 0%Z l x.

(** [map.get(s)] for an optional status: [undefined] is no key of the
    map. *)
Definition rankOf (statusRank : list (string * nat)) (status : option string)
  : option nat :=
  match status with
  | Some s => Js.map_get statusRank s
  | None => None
  end.

(** The body of the innermost loop of [checkStatusConsistency]. *)
Definition checkLinked (statusOrder : list string)
  (reqMap : list (string * RequirementObject)) (statusRank : list (string * nat))
  (req : RequirementObject) (reqRank : nat) (linkedId : string)
  : list ValidationIssue :=
  match Js.map_get reqMap linkedId with
  | None => []
  | Some linkedReq =>
      if negb (Js.truthy (req_status linkedReq)) then []
      else
        match rankOf statusRank (req_status linkedReq) with
        | None => []
        | Some linkedRank =>
            if (linkedRank <? reqRank)%nat
               && (indexOf statusOrder "approved" <=? Z.of_nat reqRank)%Z
            then
              [ {| vi_type := StatusInconsistent;
                   vi_message :=
                     ("'" ++ req_id req ++ "' ("
                      ++ BaselineStability.showOpt (req_status req) ++ ") links to '"
                      ++ linkedId ++ "' ("
                      ++ BaselineStability.showOpt (req_status linkedReq) ++ ")")%string;
                   vi_location := req_location req;
                   vi_relatedIds := Some [linkedId];
                   vi_severity := "warning" |} ]
            else []
        end
  end.

Definition checkStatusConsistency (requirements : list RequirementObject)
  (statusOrder : list string) : list ValidationIssue :=
  let reqMap := reqMapOf requirements in
  let statusRank := statusRankOf statusOrder in
  flat_map
    (fun req =>
       if negb (Js.truthy (req_status req)) then []
       else
         match rankOf statusRank (req_status req) with
         | None => []
         | Some reqRank =>
             flat_map
               (fun linkedIds =>
                  flat_map (checkLinked statusOrder reqMap statusRank req reqRank)
                    linkedIds)
               (Js.map_values (req_links req))
         end)
    requirements.

(** [getReverseDependencies]: the loop over the link lists of a record
    stops at the first one that includes the id. *)
Definition getReverseDependencies (i : string) (requirements : list RequirementObject)
  : list string :=
  fold_left
    (fun dependents req =>
       if existsb (fun linkedIds => Js.includes linkedIds i)
            (Js.map_values (req_links req))
       then dependents ++ [req_id req] else dependents)
    requirements [].

Definition hasType (t : DiagnosticType) (issue : ValidationIssue) : bool :=
  match t, vi_type issue with
  | StatusInconsistent, StatusInconsistent
  | CircularDep, CircularDep
  | OrphanedReq, OrphanedReq => true
  | _, _ => false
  end.

(** The result of [performDeepValidation]. *)
Record DeepValidationResult := {
  dv_issues : list ValidationIssue;
  dv_coverage : GraphAnalysis.Coverage;
  dv_circularDeps : list (list string);
  dv_orphanedReqs : list string
}.

(** [requirements.find(r => r.id === cycle[0])]: an empty cycle has no
    first element, and no id equals [undefined]. *)
Definition firstReqOf (requirements : list RequirementObject) (cycle : list string)
  : option RequirementObject :=
  match cycle with
  | [] => None
  | first :: _ => Js.find_by req_id requirements first
  end.

(** The issues pushed for the cycles. *)
Definition cycleIssues (requirements : list RequirementObject)
  (circularDeps : list (list string)) : list ValidationIssue :=
  flat_map
    (fun cycle =>
       match firstReqOf requirements cycle with
       | Some firstReq =>
           [ {| vi_type := CircularDep;
                vi_message :=
                  ("Circular dependency: " ++ BaselineStability.join " -> " cycle)%string;
                vi_location := req_location firstReq;
                vi_relatedIds := Some cycle;
                vi_severity := "warning" |} ]
       | None => []
       end)
    circularDeps.

(** The issues pushed for the orphans. *)
Definition orphanIssues (requirements : list RequirementObject)
  (orphanedReqs : list string) : list ValidationIssue :=
  flat_map
    (fun orphanId =>
       match Js.find_by req_id requirements orphanId with
       | Some req =>
           [ {| vi_type := OrphanedReq;
                vi_message :=
                  ("Orphaned requirement: '" ++ orphanId ++ "' has no links")%string;
                vi_location := req_location req;
                vi_relatedIds := None;
                vi_severity := "info" |} ]
       | None => []
       end)
    orphanedReqs.

(** [performDeepValidation]; [None] stands for a cycle detection that
    needs more fuel. *)
Definition performDeepValidation (requirements : list RequirementObject)
  (idx : GraphAnalysis.RequirementIndex) (statusOrder : list string)
  : option DeepValidationResult :=
  match GraphAnalysis.detectCircularDependencies requirements with
  | None => None
  | Some circularDeps =>
      let orphanedReqs := GraphAnalysis.findOrphanedRequirements requirements idx in
      Some {| dv_issues :=
                cycleIssues requirements circularDeps
                ++ orphanIssues requirements orphanedReqs
                ++ checkStatusConsistency requirements statusOrder;
              dv_coverage := GraphAnalysis.calculateCoverage requirements;
              dv_circularDeps := circularDeps;
              dv_orphanedReqs := orphanedReqs |}
  end.

(** The default value of the parameter [statusOrder]. *)
Definition defaultStatusOrder : list string :=
  ["draft"; "review"; "approved"; "implemented"].

End GraphQueries.

(** ** The shortest cycle through a link (circularDependencyDetector.ts,
       continued) *)

Module MinimalCycle.
Import DeepValidation CircularDependencyDetector.

(** The loop over the neighbours of one dequeued node: it returns the
    cycle when it meets [fromId], and otherwise the visited set and the
    queue it leaves. *)
Fixpoint scanNeighbors (fromId : string) (path : list string) (ns : list string)
  (visited : gset string) (queue : list (string * list string))
  : list string + (gset string * list (string * list string)) :=
  match ns with
  | [] => inr (visited, queue)
  | neighbor :: ns' =>
      if String.eqb neighbor fromId then inl (fromId :: path)
      else if negb (bool_decide (neighbor ∈ visited)) then
        scanNeighbors fromId path ns' ({[neighbor]} ∪ visited)
          (queue ++ [(neighbor, path ++ [neighbor])])
      else scanNeighbors fromId path ns' visited queue
  end.

(** The [while (queue.length > 0)] loop; [fuel] bounds its iterations,
    and [None] stands for a run that needs more. The inner [Some] is the
    cycle returned, the inner [None] the [null] after the loop. *)
Fixpoint bfs (fuel : nat) (fromId : string) (graph : Graph)
  (visited : gset string) (queue : list (string * list string))
  : option (option (list string)) :=
  match fuel with
  | O => None
  | S fuel' =>
      match queue with
      | [] => Some None
      | (node, path) :: queue' =>
          match Js.map_get graph node with
          | Some edges =>
              match scanNeighbors fromId path (neighborsOf edges) visited queue' with
              | inl cycle => Some (Some cycle)
              | inr (visited', queue'') => bfs fuel' fromId graph visited' queue''
              end
          | None => bfs fuel' fromId graph visited queue'
          end
      end
  end.

(** [findMinimalCycle]: every node enters the queue at most once, so the
    loop runs at most once per id of the graph and once for [toId], and
    tests its condition once more. *)
Definition findMinimalCycle (fromId toId : string) (graph : Graph)
  : option (option (list string)) :=
  bfs (S (S (length (graphNodes graph)))) fromId graph {[toId]} [(toId, [toId])].

End MinimalCycle.

(** ** Orphan queries (orphan detector, continued) *)

Module OrphanQueries.
Import OrphanDetector.

Definition category_eqb (a b : OrphanCategory) : bool :=
  match a, b with
  | true_orphan, true_orphan | dead_end, dead_end | source_only, source_only => true
  | _, _ => false
  end.

Definition getOrphansByCategory (orphaned : list OrphanedRequirement)
  (category : OrphanCategory) : list OrphanedRequirement :=
  List.filter (fun o => category_eqb (or_category o) category) orphaned.

Definition getOrphansBySeverity (orphaned : list OrphanedRequirement)
  (severity : ValidationSeverity) : list OrphanedRequirement :=
  List.filter (fun o => severity_eqb (or_severity o) severity) orphaned.

End OrphanQueries.

(** ** ID generator (idGenerator.ts) *)

Module IdGenerator.

(** The fields of [IdConfig] that the generator and its helpers read;
    the interface is declared in types.ts. Ids carry whole numbers. *)
Record IdConfig := {
  prefix : string;
  separator : string;
  padding : nat;
  start : Z
}.

Section WithDefaults.

(** [formatId] and [parseIdNumber] come from configuration/defaults.ts,
    which is not among the sources; the generator is defined over any
    pair of them. [None] stands for [null]. *)
Variable formatId : IdConfig -> Z -> string.
Variable parseIdNumber : IdConfig -> string -> option Z.

Definition extractNumber (i : string) (idConfig : IdConfig) : option Z :=
  parseIdNumber idConfig i.

(** The loop of [generateNextId] that finds the highest number. *)
Definition maxNumOf (idConfig : IdConfig) (existingRequirements : list RequirementObject)
  : Z :=
  fold_left
    (fun maxNum req =>
       match parseIdNumber idConfig (req_id req) with
       | Some num => if (maxNum <? num)%Z then num else maxNum
       | None => maxNum
       end)
    existingRequirements 0%Z.

Definition generateNextId (idConfig : IdConfig)
  (existingRequirements : list RequirementObject) : string :=
  if (length existingRequirements =? 0)%nat then formatId idConfig (start idConfig)
  else
    formatId idConfig
      (Z.max (maxNumOf idConfig existingRequirements + 1) (start idConfig)).

Definition isValidId (i : string) (idConfig : IdConfig) : bool :=
  match parseIdNumber idConfig i with
  | Some num => (0 <? num)%Z
  | None => false
  end.

(** [parseIdNumber(idConfig, a) || 0] *)
Definition numberOrZero (idConfig : IdConfig) (a : string) : Z :=
  match parseIdNumber idConfig a with
  | Some num => num
  | None => 0%Z
  end.

(** The comparator of [getIdsSorted] and [getIdsByLevel]. *)
Definition compareIds (idConfig : IdConfig) (a b : string) : Z :=
  (numberOrZero idConfig a - numberOrZero idConfig b)%Z.

Definition getIdsSorted (idConfig : IdConfig) (requirements : list RequirementObject)
  : list string :=
  GapAnalysis.sortBy (compareIds idConfig) (map req_id requirements).

(** [r.level === level] *)
Definition hasLevel (level : string) (r : RequirementObject) : bool :=
  match req_level r with
  | Some l => String.eqb l level
  | None => false
  end.

Definition getIdsByLevel (level : string) (idConfig : IdConfig)
  (requirements : list RequirementObject) : list string :=
  GapAnalysis.sortBy (compareIds idConfig)
    (map req_id (List.filter (hasLevel level) requirements)).









End WithDefaults.

End IdGenerator.

(** ** Id formats (configuration/defaults.ts) *)

Module Defaults.
Import IdGenerator.

(** [s.padStart(n, '0')] *)
Definition padStart (n : nat) (s : string) : string :=
  (String.concat "" (repeat "0" (n - String.length s)) ++ s)%string.

(** Modelled from the spec: [formatId], whose body is not among the
    sources: the prefix and the separator, when there is a prefix, then
    the number padded with zeros, as its unit test expects. *)
Definition formatId (idConfig : IdConfig) (n : Z) : string :=
  ((if String.eqb (prefix idConfig) "" then ""
    else prefix idConfig ++ separator idConfig)
   ++ padStart (padding idConfig) (pretty n))%string.

Fixpoint digitsValue (s : string) (acc : Z) : option Z :=
  match s with
  | EmptyString => Some acc
  | String c s' =>
      let n := nat_of_ascii c in
      if (48 <=? n)%nat && (n <=? 57)%nat
      then digitsValue s' (acc * 10 + Z.of_nat (n - 48))%Z
      else None
  end.

(** [s.slice(p.length)] when [s] starts with [p]. *)
Fixpoint stripPrefix (p s : string) : option string :=
  match p, s with
  | EmptyString, _ => Some s
  | String a p', String b s' => if Ascii.eqb a b then stripPrefix p' s' else None
  | String _ _, EmptyString => None
  end.

(** Modelled from the spec: [parseIdNumber], whose body is not among the
    sources: the number after the prefix and the separator, and [null]
    for an id of another shape, as its unit test expects. *)
Definition parseIdNumber (idConfig : IdConfig) (i : string) : option Z :=
  let lead :=
    if String.eqb (prefix idConfig) "" then ""
    else (prefix idConfig ++ separator idConfig)%string in
  match stripPrefix lead i with
  | Some EmptyString => None
  | Some digits => digitsValue digits 0%Z
  | None => None
  end.

End Defaults.

(** ** Configuration hash (indexCache.ts) *)

Module IndexCache.

(** [ToInt32]: the wrap-around of the bit operators. *)
Definition toInt32 (z : Z) : Z := ((z + 2 ^ 31) mod 2 ^ 32 - 2 ^ 31)%Z.

(** The body of the loop of [hashConfig]: [hash << 5] wraps, the
    subtraction and the addition are exact, and [hash & hash] wraps. *)
Definition hashStep (hash char : Z) : Z :=
  toInt32 (toInt32 (hash * 2 ^ 5) - hash + char).

(** The loop of [hashConfig] over the UTF-16 code units of the string. *)
Definition hashCode (units : list Z) : Z := fold_left hashStep units 0%Z.

(** [hash.toString(16)] *)
Definition toString16 (z : Z) : string :=
  HexadecimalString.NilZero.string_of_int (Z.to_hex_int z).

(** [hashConfig] on the code units of [JSON.stringify(config)]. *)
Definition hashConfig (units : list Z) : string := toString16 (hashCode units).

End IndexCache.

(** ** Dependency chains (utils/graphAnalysis.ts, continued) *)

Module DependencyChain.

Inductive Direction := upstream | downstream.

(** The variables closed over by [traverse]. *)
Record ChainState := {
  visited : gset string;
  chain : list string
}.

(** The ids that one call of [traverse] pushes and visits, in order:
    downstream the targets of the record that [reqMap] holds for the id,
    upstream the id of every record once for each of its link lists that
    includes the id. *)
Definition nextOf (direction : Direction) (requirements : list RequirementObject)
  (reqMap : list (string * RequirementObject)) (currentId : string) : list string :=
  match direction with
  | downstream =>
      match Js.map_get reqMap currentId with
      | Some req => concat (Js.map_values (req_links req))
      | None => []
      end
  | upstream =>
      flat_map
        (fun req =>
           flat_map
             (fun linkedIds =>
                if Js.includes linkedIds currentId then [req_id req] else [])
             (Js.map_values (req_links req)))
        requirements
  end.

(** The loops inside [traverse]: each id is pushed on the chain, then
    traversed. *)
Fixpoint visitAll (rec : string -> ChainState -> option ChainState)
  (ns : list string) (st : ChainState) : option ChainState :=
  match ns with
  | [] => Some st
  | n :: ns' =>
      match rec n {| visited := visited st; chain := chain st ++ [n] |} with
      | None => None
      | Some st' => visitAll rec ns' st'
      end
  end.

(** [traverse]; the recursion of the source is bounded by [fuel], and
    [None] stands for a run that needs more. *)
Fixpoint traverse (fuel : nat) (direction : Direction)
  (requirements : list RequirementObject)
  (reqMap : list (string * RequirementObject)) (currentId : string)
  (st : ChainState) : option ChainState :=
  match fuel with
  | O => None
  | S fuel' =>
      if bool_decide (currentId ∈ visited st) then Some st
      else
        visitAll (traverse fuel' direction requirements reqMap)
          (nextOf direction requirements reqMap currentId)
          {| visited := {[currentId]} ∪ visited st; chain := chain st |}
  end.

(** Every id the traversal can meet: the start, the ids of the records
    and their targets. *)
Definition chainNodes (i : string) (requirements : list RequirementObject)
  : list string :=
  i :: map req_id requirements ++ concat (map IndexBuilder.targetsOf requirements).

(** [getDependencyChain]: a call of [traverse] that goes below the
    visited test visits a new id, so the depth never exceeds the number
    of ids by more than one. *)
Definition getDependencyChain (i : string) (requirements : list RequirementObject)
  (direction : Direction) : option (list string) :=
  match traverse (S (S (length (chainNodes i requirements)))) direction requirements
          (GraphQueries.reqMapOf requirements) i {| visited := ∅; chain := [] |} with
  | Some st => Some (chain st)
  | None => None
  end.

End DependencyChain.

(** ** Further sample inputs *)

Module Samples.

(** A record with a status and a baseline. *)
Definition mkBaselined (i : string) (st : option string) (bl : string)
  (ls : list (string * list string)) : RequirementObject :=
  {| req_id := i; req_type := "requirement"; req_level := None; req_status := st;
     req_links := ls; req_metadata := [];
     req_location := {| loc_file := "/test/file.rst"; loc_line := 1 |};
     req_baseline := Some bl |}.

End Samples.

(** ** Vocabulary of the statements *)

Module Statements.

(** What a coverage computation reports from its two counts: 0 for an
    empty population, otherwise the rounded quotient. *)
Definition percentageFor (total covered : nat) (percentage : JsNumber.jsnum) : Prop :=
  (total = 0%nat -> percentage = JsNumber.JsInt 0)
  /\ ((0 < total)%nat -> percentage = JsNumber.roundedRatio covered total).

(** The order of the final list: a more severe recommendation first,
    and among equally severe ones the larger affected count first. *)
Definition precedes (a b : GapAnalysis.GapRecommendation) : Prop :=
  (GapAnalysis.severityOrder (GapAnalysis.severity a)
   < GapAnalysis.severityOrder (GapAnalysis.severity b))%Z
  \/ (GapAnalysis.severityOrder (GapAnalysis.severity a)
      = GapAnalysis.severityOrder (GapAnalysis.severity b)
      /\ (GapAnalysis.affectedCount b <= GapAnalysis.affectedCount a)%nat).

(** The recommendations gathered from the seven analyzers, before they
    are sorted. *)
Definition gathered (report : GapAnalysis.DeepValidationReport)
  (requirements : list RequirementObject) : list GapAnalysis.GapRecommendation :=
  GapAnalysis.analyzeCircularDependencies (GapAnalysis.circularDependencies report)
  ++ GapAnalysis.analyzeCoverageGaps (GapAnalysis.hierarchicalCoverageResults report)
       requirements
  ++ GapAnalysis.analyzeOrphanedRequirements (GapAnalysis.orphanedRequirements report)
  ++ GapAnalysis.analyzeStatusInconsistencies (GapAnalysis.statusInconsistencies report)
  ++ GapAnalysis.analyzeIncompleteChains (GapAnalysis.incompleteChains report)
  ++ GapAnalysis.analyzePriorityCoverage
       (GapAnalysis.priorityWeightedCoverageResults report)
  ++ GapAnalysis.analyzeBaselineIssues (GapAnalysis.baselineIssues report).

(** A source record is covered for a link type when one of its links of
    that type goes to a record that exists and whose type is among the
    target types. *)
Definition coveredBy (requirements : list RequirementObject) (linkType : string)
  (toTypes : list string) (req : RequirementObject) : Prop :=
  exists links targetId target,
    Js.map_get (req_links req) linkType = Some links
    /\ In targetId links
    /\ Js.find_by req_id requirements targetId = Some target
    /\ Js.includes toTypes (req_type target) = true.








Section TarjanVocabulary.
Import DeepValidation CircularDependencyDetector.

(** The ids of the graph, as a set. *)
Definition universe (graph : Graph) : gset string :=
  list_to_set (graphNodes graph).

(** How many ids of the graph [strongConnect] has not entered yet. *)
Definition unindexed (graph : Graph) (st : TarjanState) : nat :=
  size (universe graph ∖ dom (indices st)).

(** [st'] comes after [st]: no index is lost and the stack has only
    grown above what it held. *)
Definition extends (st st' : TarjanState) : Prop :=
  dom (indices st) ⊆ dom (indices st')
  /\ exists above, stack st' = above ++ stack st.

(** The node [r] is not on the stack, and the components found so far
    that contain it are the single component [[r]] once [r] has an
    index, and none before. *)
Definition apart (r : string) (st : TarjanState) : Prop :=
  ~ In r (stack st)
  /\ List.filter (fun scc => Js.includes scc r) (sccs st)
     = if hasIndex st r then [[r]] else [].

(** Every node of the path of [findCyclePath] belongs to the component. *)
Definition pathWithin (sccSet : gset string) (st : DfsState) : Prop :=
  forall x, In x (path st) -> x ∈ sccSet.

(** How many nodes of the component [dfs] has not visited yet. *)
Definition unvisited (sccSet : gset string) (st : DfsState) : nat :=
  size (sccSet ∖ visited st).

(** What a call of [strongConnect] with [fuel] achieves on a node that
    has no index yet, when the fuel covers the ids not yet entered. *)
Definition connects (graph : Graph) (r : string) (fuel : nat) : Prop :=
  forall node st,
    node ∈ universe graph -> indices st !! node = None ->
    (unindexed graph st <= fuel)%nat -> apart r st ->
    exists st',
      strongConnect fuel graph node st = Some st'
      /\ extends st st'
      /\ is_Some (indices st' !! node)
      /\ apart r st'.

(** What a call of [dfs] with [fuel] achieves on a node of the component
    not yet visited, when the fuel covers the nodes not yet visited. *)
Definition searches (graph : Graph) (sccSet : gset string) (target : string)
  (fuel : nat) : Prop :=
  forall node st,
    node ∈ sccSet -> node ∉ visited st ->
    (unvisited sccSet st <= fuel)%nat -> pathWithin sccSet st ->
    exists found st',
      dfs fuel graph sccSet target node st = Some (found, st')
      /\ visited st ⊆ visited st'
      /\ pathWithin sccSet st'.

End TarjanVocabulary.

Import DeepValidation GapAnalysis StatusConsistency.

(** The four buckets are disjoint: a record falls in one of them when
    its priority reads critical, high, medium or low, and in none
    otherwise. *)
Definition bucketed (req : RequirementObject) : bool :=
  Js.includes ["critical"; "high"; "medium"; "low"] (Js.toLowerCase (priorityOf req)).

(** How many records read priority [p]. *)
Definition bucketSize (p : string) (requirements : list RequirementObject) : nat :=
  length
    (List.filter (fun req => String.eqb (Js.toLowerCase (priorityOf req)) p)
       requirements).


(** An outgoing link that resolves to a record without a baseline. *)
Definition resolvesUnbaselined
  (getRequirementById : list RequirementObject -> string -> option RequirementObject)
  (requirements : list RequirementObject) (targetId : string) : bool :=
  match getRequirementById requirements targetId with
  | Some target => negb (Js.truthy (req_baseline target))
  | None => false
  end.

(** What a baseline issue raised for [req] says about [req], by kind. *)
Definition justifiedBy
  (getRequirementById : list RequirementObject -> string -> option RequirementObject)
  (getAllOutgoingLinks : RequirementObject -> list string)
  (requirements : list RequirementObject) (config : DeepValidationConfig)
  (req : RequirementObject) (issue : BaselineIssue) : Prop :=
  bi_id issue = req_id req /\
  match bi_issue issue with
  | not_approved =>
      requireApproved (baselineStability config) = true
      /\ BaselineStability.notStable req = true
      /\ bi_severity issue = HIGH
      /\ bi_affectedIds issue = [req_id req]
  | version_conflict =>
      requireDownstreamBaselined (baselineStability config) = true
      /\ bi_severity issue = MEDIUM
      /\ exists targetId target,
           In targetId (getAllOutgoingLinks req)
           /\ bi_affectedIds issue = [req_id req; targetId]
           /\ getRequirementById requirements targetId = Some target
           /\ Js.truthy (req_baseline target) = true
           /\ req_baseline target <> req_baseline req
  | downstream_not_baselined =>
      requireDownstreamBaselined (baselineStability config) = true
      /\ bi_severity issue = MEDIUM
      /\ bi_affectedIds issue
         = req_id req
           :: List.filter (resolvesUnbaselined getRequirementById requirements)
                (getAllOutgoingLinks req)
      /\ List.filter (resolvesUnbaselined getRequirementById requirements)
           (getAllOutgoingLinks req) <> []
  end.


(** What a violation says of the two statuses, read in lower case, under
    the switches of the configuration. *)
Definition violates (config : DeepValidationConfig) (from to : string)
  (v : Violation) : Prop :=
  match v with
  | approved_to_draft =>
      enforceApprovedChain (statusConsistency config) = true
      /\ from = "approved" /\ to = "draft"
  | implemented_to_draft =>
      enforceImplementedChain (statusConsistency config) = true
      /\ from = "implemented" /\ to = "draft"
  | baselined_to_draft =>
      from = "baselined" /\ (to = "draft" \/ to = "review")
  end.

(** The graph has an edge from [x] to [y], under some link type. *)
Definition edge (graph : Graph) (x y : string) : Prop :=
  exists edges, Js.map_get graph x = Some edges
    /\ In y (concat (Js.map_values edges)).

(** Each element of the list is related to the next one. *)
Fixpoint follows (R : string -> string -> Prop) (l : list string) : Prop :=
  match l with
  | x :: ((y :: _) as rest) => R x y /\ follows R rest
  | _ => True
  end.

(** Each element of the list has an edge to the next one. *)
Definition chain (graph : Graph) (l : list string) : Prop :=
  follows (edge graph) l.

(** [y] follows [x] somewhere in the list. *)
Definition adjacentIn (l : list string) (x y : string) : Prop :=
  exists before after, l = before ++ x :: y :: after.

(** The path of the search is a duplicate-free chain of visited nodes. *)
Definition onTrack (graph : Graph) (st : CircularDependencyDetector.DfsState) : Prop :=
  chain graph (CircularDependencyDetector.path st)
  /\ List.NoDup (CircularDependencyDetector.path st)
  /\ forall x, In x (CircularDependencyDetector.path st) ->
       x ∈ CircularDependencyDetector.visited st.

(** The search has closed its path on [target] from [st]: the new path
    is the old one, then [mid], then [target]. *)
Definition closedOn (graph : Graph) (target : string)
  (st st' : CircularDependencyDetector.DfsState) (mid : list string) : Prop :=
  CircularDependencyDetector.path st'
  = CircularDependencyDetector.path st ++ mid ++ [target]
  /\ chain graph (CircularDependencyDetector.path st')
  /\ List.NoDup (CircularDependencyDetector.path st ++ mid)
  /\ (1 < length (CircularDependencyDetector.path st ++ mid))%nat.

(** What a call of [dfs] returns, whatever its fuel: either it has closed
    the path on the target through the node, or it has restored the
    path. *)
Definition sound (graph : Graph) (sccSet : gset string) (target : string)
  (fuel : nat) : Prop :=
  forall node st found st',
    onTrack graph st ->
    node ∉ CircularDependencyDetector.visited st ->
    (CircularDependencyDetector.path st = []
     \/ exists p cur, CircularDependencyDetector.path st = p ++ [cur]
          /\ edge graph cur node) ->
    CircularDependencyDetector.dfs fuel graph sccSet target node st = Some (found, st') ->
    if found
    then exists mid, closedOn graph target st st' (node :: mid)
    else CircularDependencyDetector.path st' = CircularDependencyDetector.path st
         /\ CircularDependencyDetector.visited st ⊆ CircularDependencyDetector.visited st'
         /\ onTrack graph st'.

(** Every entry of the queue of [findMinimalCycle] holds a chain of the
    graph from [toId] to its node. *)
Definition tracked (graph : Graph) (toId : string)
  (queue : list (string * list string)) : Prop :=
  forall node path, In (node, path) queue ->
    head path = Some toId /\ (exists p, path = p ++ [node]) /\ chain graph path.

(** Every visited node either waits in the queue or has been expanded:
    all its successors are visited, and none of them is [fromId]. *)
Definition explored (graph : Graph) (fromId : string) (visited : gset string)
  (queue : list (string * list string)) : Prop :=
  forall x, x ∈ visited ->
    In x (map fst queue)
    \/ forall y, edge graph x y -> y ∈ visited /\ y <> fromId.

(** The bound on the iterations left: the entries waiting plus the ids of
    the graph not yet visited. *)
Definition pending (graph : Graph) (visited : gset string)
  (queue : list (string * list string)) : nat :=
  length queue + size (universe graph ∖ visited).

(** [c] is a chain of the graph from [toId] to [x]. *)
Definition chainTo (graph : Graph) (toId x : string) (c : list string) : Prop :=
  head c = Some toId /\ (exists p, c = p ++ [x]) /\ chain graph c.

(** [x] is reached from [toId] by a chain of at most [k] nodes. *)
Definition near (graph : Graph) (toId : string) (k : nat) (x : string) : Prop :=
  exists c, chainTo graph toId x c /\ (length c <= k)%nat.

(** The queue of [findMinimalCycle] holds two levels: chains of [d]
    nodes, then chains of [d + 1] nodes; every node within [d] nodes of
    [toId] is visited, and the chain of every entry is a shortest one. *)
Definition levelled (graph : Graph) (toId : string) (visited : gset string)
  (queue : list (string * list string)) (d : nat) : Prop :=
  (exists lo hi,
     queue = lo ++ hi
     /\ List.Forall (fun e => length (snd e) = d) lo
     /\ List.Forall (fun e => length (snd e) = S d) hi)
  /\ toId ∈ visited
  /\ (forall x, near graph toId d x -> x ∈ visited)
  /\ (forall x p, In (x, p) queue ->
        forall c, chainTo graph toId x c -> (length p <= length c)%nat).

(** In the adjacency list of graphAnalysis.ts, [x] lists [y] among its
    targets. *)
Definition linkedTo (graph : list (string * list string)) (x y : string) : Prop :=
  exists targets, Js.map_get graph x = Some targets /\ In y targets.

(** The keys of the adjacency list. *)
Definition known (graph : list (string * list string)) : gset string :=
  list_to_set (Js.map_keys graph).

(** A closed walk of the adjacency list: it returns to its first node,
    each node is a key and lists the next among its targets. *)
Definition closedWalk (graph : list (string * list string)) (c : list string) : Prop :=
  (exists node mid, c = node :: mid ++ [node])
  /\ follows (linkedTo graph) c
  /\ forall x, In x c -> x ∈ known graph.

(** How many keys the search has not visited yet. *)
Definition unseen (graph : list (string * list string))
  (st : GraphAnalysis.DfsState) : nat :=
  size (known graph ∖ GraphAnalysis.visited st).

(** The state between two steps of the search: its path is a walk over
    keys, and every cycle recorded so far is a closed walk. *)
Definition steady (graph : list (string * list string))
  (st : GraphAnalysis.DfsState) : Prop :=
  follows (linkedTo graph) (GraphAnalysis.path st)
  /\ (forall x, In x (GraphAnalysis.path st) -> x ∈ known graph)
  /\ List.Forall (closedWalk graph) (GraphAnalysis.cycles st).

(** What a call of [dfs] of graphAnalysis.ts achieves on a key not yet
    visited that the end of the path links to, when the fuel covers the
    keys not yet visited: it returns, with the path restored. *)
Definition explores (graph : list (string * list string)) (fuel : nat) : Prop :=
  forall node st,
    node ∈ known graph -> node ∉ GraphAnalysis.visited st ->
    (unseen graph st <= fuel)%nat ->
    steady graph st ->
    (GraphAnalysis.path st = []
     \/ exists p cur, GraphAnalysis.path st = p ++ [cur] /\ linkedTo graph cur node) ->
    exists st',
      GraphAnalysis.dfs fuel graph node st = Some st'
      /\ GraphAnalysis.visited st ⊆ GraphAnalysis.visited st'
      /\ GraphAnalysis.path st' = GraphAnalysis.path st
      /\ steady graph st'.

(** The affected count of a recommendation is the number of the ids it
    lists. *)
Definition counted (rec : GapRecommendation) : Prop :=
  affectedCount rec = length (affectedIds rec).

(** The number that [generateNextId] formats. *)
Definition nextNumber
  (parseIdNumber : IdGenerator.IdConfig -> string -> option Z)
  (idConfig : IdGenerator.IdConfig) (requirements : list RequirementObject) : Z :=
  if (length requirements =? 0)%nat then IdGenerator.start idConfig
  else Z.max (IdGenerator.maxNumOf parseIdNumber idConfig requirements + 1)
         (IdGenerator.start idConfig).


(** The value of the polynomial in 31 with the code units as
    coefficients, before any wrap-around. *)
Definition polynomial31 (units : list Z) : Z :=
  fold_left (fun h c => (h * 31 + c)%Z) units 0%Z.


(** One step of a dependency chain: [y] is pushed when [x] is
    traversed. *)
Definition chainStep (direction : DependencyChain.Direction)
  (requirements : list RequirementObject) (x y : string) : Prop :=
  In y (DependencyChain.nextOf direction requirements
          (GraphQueries.reqMapOf requirements) x).

(** The ids reached from [i] by one step or more. *)
Inductive reaches (direction : DependencyChain.Direction)
  (requirements : list RequirementObject) (i : string) : string -> Prop :=
  | reach_first n : chainStep direction requirements i n ->
      reaches direction requirements i n
  | reach_next x n : reaches direction requirements i x ->
      chainStep direction requirements x n ->
      reaches direction requirements i n.

(** The ids the traversal can meet. *)
Definition chainUniverse (i : string) (requirements : list RequirementObject)
  : gset string :=
  list_to_set (DependencyChain.chainNodes i requirements).

(** The state of a traversal from [i] while the ids of [stack] are being
    traversed: what is on the chain is reached from [i], what is visited
    is [i] or reached from it, and every visited id off the stack has
    had all its steps pushed and visited. *)
Definition traversed (direction : DependencyChain.Direction)
  (requirements : list RequirementObject) (i : string) (stack : gset string)
  (st : DependencyChain.ChainState) : Prop :=
  (forall x, In x (DependencyChain.chain st) -> reaches direction requirements i x)
  /\ (forall x, x ∈ DependencyChain.visited st ->
        x = i \/ reaches direction requirements i x)
  /\ (forall x, x ∈ DependencyChain.visited st -> x ∉ stack ->
        forall n, chainStep direction requirements x n ->
          In n (DependencyChain.chain st) /\ n ∈ DependencyChain.visited st).

(** [st'] comes after [st]: nothing visited is lost and the chain has
    only grown at its end. *)
Definition grown (st st' : DependencyChain.ChainState) : Prop :=
  DependencyChain.visited st ⊆ DependencyChain.visited st'
  /\ exists more, DependencyChain.chain st' = DependencyChain.chain st ++ more.

(** What a call of [traverse] with [fuel] achieves on an id that is [i]
    or reached from it, when the fuel covers the ids not yet visited. *)
Definition traverses (direction : DependencyChain.Direction)
  (requirements : list RequirementObject) (i : string) (fuel : nat) : Prop :=
  forall currentId stack st,
    currentId ∈ chainUniverse i requirements ->
    (currentId = i \/ reaches direction requirements i currentId) ->
    (size (chainUniverse i requirements ∖ DependencyChain.visited st) < fuel)%nat ->
    stack ⊆ DependencyChain.visited st ->
    traversed direction requirements i stack st ->
    exists st',
      DependencyChain.traverse fuel direction requirements
        (GraphQueries.reqMapOf requirements) currentId st = Some st'
      /\ grown st st'
      /\ currentId ∈ DependencyChain.visited st'
      /\ traversed direction requirements i stack st'.

End Statements.

(** * Properties *)

(** ** Completeness tracer *)

Section CompletenessFacts.
Import DeepValidation CompletenessAnalyzer.

Variable getTypePrefix : string -> string.
Variable getRequirementById : list RequirementObject -> string -> option RequirementObject.
Variable getAllOutgoingLinks : RequirementObject -> list string.

(** The loop of [traceChain] adds at most one entry to [missingLinks]:
    it breaks as soon as it has pushed one. *)
Lemma traceFrom_missing_le requirements remaining :
  forall prevType currentReqs actualPath missingLinks,
    (length (snd (traceFrom getTypePrefix getRequirementById getAllOutgoingLinks
                    requirements prevType remaining currentReqs actualPath
                    missingLinks))
     <= S (length missingLinks))%nat.
Proof.
  induction remaining as [|targetType remaining IH];
    intros prevType currentReqs actualPath missingLinks; simpl.
  - lia.
  - destruct (0 <? length _)%nat.
    + apply IH.
    + simpl. rewrite length_app. simpl. lia.
Qed.

Lemma traceChain_missing_le requirements startId expectedChain :
  (length (snd (traceChain getTypePrefix getRequirementById getAllOutgoingLinks
                  requirements startId expectedChain)) <= 1)%nat.
Proof.
  unfold traceChain. destruct expectedChain as [|first remaining]; simpl.
  - lia.
  - apply (traceFrom_missing_le requirements remaining first [startId]
             [getTypePrefix startId] []).
Qed.

Lemma determineCompletenessSeverity_one priority :
  determineCompletenessSeverity priority 1
  = if String.eqb priority "critical" then BLOCKER else MEDIUM.
Proof.
  unfold determineCompletenessSeverity.
  destruct (String.eqb priority "critical"); [reflexivity|].
  destruct (String.eqb priority "high"); reflexivity.
Qed.

Lemma startRequirements_incl requirements expectedChain r :
  In r (startRequirements getTypePrefix requirements expectedChain) ->
  In r requirements.
Proof.
  unfold startRequirements. destruct expectedChain as [|first rest].
  - intros [].
  - intros H. apply filter_In in H. tauto.
Qed.

End CompletenessFacts.

(** C10. Whatever the helpers of deepValidation.ts compute, every
    incomplete chain emitted by [verifyHierarchicalCompleteness] has
    exactly one entry in [missingLinks]; it was traced from a record of
    the input, and its severity is BLOCKER when the priority of that
    record is [critical] and MEDIUM otherwise. *)
Theorem incomplete_chain_one_missing_link
  (getTypePrefix : string -> string)
  (getRequirementById : list RequirementObject -> string -> option RequirementObject)
  (getAllOutgoingLinks : RequirementObject -> list string)
  (requirements : list RequirementObject)
  (config : DeepValidation.DeepValidationConfig)
  (expectedChain : list string)
  (chain : CompletenessAnalyzer.IncompleteChain) :
  In chain
    (CompletenessAnalyzer.verifyHierarchicalCompleteness getTypePrefix
       getRequirementById getAllOutgoingLinks requirements config expectedChain) ->
  length (CompletenessAnalyzer.ic_missingLinks chain) = 1%nat
  /\ exists startReq,
       In startReq requirements
       /\ CompletenessAnalyzer.ic_startId chain = req_id startReq
       /\ CompletenessAnalyzer.ic_severity chain
          = if String.eqb (priorityOf startReq) "critical" then BLOCKER else MEDIUM.
Proof.
  unfold CompletenessAnalyzer.verifyHierarchicalCompleteness.
  intros H. apply in_flat_map in H. destruct H as [startReq [Hstart Hin]].
  pose proof (traceChain_missing_le getTypePrefix getRequirementById
                getAllOutgoingLinks requirements (req_id startReq) expectedChain)
    as Hle.
  destruct (0 <? length _)%nat eqn:Hpos; [|destruct Hin].
  apply Nat.ltb_lt in Hpos.
  destruct Hin as [<-|[]]. simpl.
  assert (Hone : length (snd (CompletenessAnalyzer.traceChain getTypePrefix
                   getRequirementById getAllOutgoingLinks requirements
                   (req_id startReq) expectedChain)) = 1%nat) by lia.
  split; [exact Hone|].
  exists startReq. split; [|split].
  - eapply startRequirements_incl; eassumption.
  - reflexivity.
  - rewrite Hone. apply determineCompletenessSeverity_one.
Qed.

(** A chain is really emitted: a critical stakeholder record without
    links breaks at the first segment. *)
Lemma incomplete_chain_one_missing_link_witness :
  let stk := Fixtures.mkReqIn "a.rst" "STK001" "critical" [] in
  let chain :=
    {| CompletenessAnalyzer.ic_startId := "STK001";
       CompletenessAnalyzer.ic_expectedPath := CompletenessAnalyzer.defaultExpectedChain;
       CompletenessAnalyzer.ic_actualPath := ["STK"];
       CompletenessAnalyzer.ic_missingLinks := ["STK→SYS"];
       CompletenessAnalyzer.ic_severity := BLOCKER |} in
  length (CompletenessAnalyzer.ic_missingLinks chain) = 1%nat
  /\ exists startReq,
       In startReq [stk]
       /\ CompletenessAnalyzer.ic_startId chain = req_id startReq
       /\ CompletenessAnalyzer.ic_severity chain
          = if String.eqb (priorityOf startReq) "critical" then BLOCKER else MEDIUM.
Proof.
  intros stk chain.
  apply (incomplete_chain_one_missing_link DeepValidation.getTypePrefix
           DeepValidation.getRequirementById DeepValidation.getAllOutgoingLinks
           [stk]
           Fixtures.sampleConfig
           CompletenessAnalyzer.defaultExpectedChain chain).
  vm_compute. left. reflexivity.
Defined.

(** ** Orphan classifier *)

Section OrphanFacts.
Import DeepValidation OrphanDetector.





End OrphanFacts.



(** ** Coverage percentages *)

Lemma percentageOf_spec covered total :
  Statements.percentageFor total covered (JsNumber.percentageOf covered total).
Proof.
  unfold Statements.percentageFor, JsNumber.percentageOf. split.
  - intros ->. reflexivity.
  - intros H. apply Nat.ltb_lt in H. rewrite H. reflexivity.
Qed.






(** ** Status consistency *)

Section StatusFacts.
Import DeepValidation StatusConsistency.

Variable getRequirementById : list RequirementObject -> string -> option RequirementObject.




End StatusFacts.



(** ** Gap recommendations *)

Section GapFacts.
Import GapAnalysis Statements.

Lemma precedes_compare a b :
  precedes a b <-> (compareRecommendations a b <= 0)%Z.
Proof.
  unfold precedes, compareRecommendations.
  destruct (Z.eqb_spec (severityOrder (severity a) - severityOrder (severity b)) 0);
    simpl; lia.
Qed.

Lemma precedes_total a b : precedes a b \/ precedes b a.
Proof. unfold precedes. lia. Qed.

Lemma precedes_trans a b c : precedes a b -> precedes b c -> precedes a c.
Proof. unfold precedes. lia. Qed.

Lemma sortInsert_Forall (P : GapRecommendation -> Prop) x l :
  P x -> List.Forall P l -> List.Forall P (sortInsert compareRecommendations x l).
Proof.
  intros Hx Hl. induction Hl as [|y l Hy Hl IH]; simpl.
  - constructor; [exact Hx|constructor].
  - destruct (compareRecommendations x y <=? 0)%Z.
    + constructor; [exact Hx|]. constructor; assumption.
    + constructor; assumption.
Qed.

Lemma sortInsert_sorted x l :
  StronglySorted precedes l ->
  StronglySorted precedes (sortInsert compareRecommendations x l).
Proof.
  intros Hl. induction Hl as [|y l Hl IH Hy]; simpl.
  - constructor; constructor.
  - destruct (Z.leb_spec (compareRecommendations x y) 0) as [Hle|Hgt].
    + apply precedes_compare in Hle.
      constructor; [constructor; assumption|].
      constructor; [exact Hle|].
      eapply List.Forall_impl; [|exact Hy].
      intros z Hz. exact (precedes_trans x y z Hle Hz).
    + constructor; [exact IH|].
      apply sortInsert_Forall; [|exact Hy].
      destruct (precedes_total x y) as [H|H]; [|exact H].
      apply precedes_compare in H. lia.
Qed.

Lemma sortBy_sorted l :
  StronglySorted precedes (sortBy compareRecommendations l).
Proof.
  induction l as [|x l IH]; simpl.
  - constructor.
  - apply sortInsert_sorted. exact IH.
Qed.

Lemma sortInsert_Permutation x l :
  Permutation (sortInsert compareRecommendations x l) (x :: l).
Proof.
  induction l as [|y l IH]; simpl.
  - reflexivity.
  - destruct (compareRecommendations x y <=? 0)%Z.
    + reflexivity.
    + rewrite IH. apply perm_swap.
Qed.

Lemma sortBy_Permutation l :
  Permutation (sortBy compareRecommendations l) l.
Proof.
  induction l as [|x l IH]; simpl.
  - reflexivity.
  - rewrite sortInsert_Permutation. constructor. exact IH.
Qed.

Lemma assignPriorities_Forall (P Q : GapRecommendation -> Prop) l :
  (forall r p, P r -> Q (setPriority r p)) ->
  forall k, List.Forall P l -> List.Forall Q (assignPriorities k l).
Proof.
  intros HPQ k Hl. revert k.
  induction Hl as [|r l Hr Hl IH]; intros k; simpl; constructor.
  - apply HPQ. exact Hr.
  - apply IH.
Qed.

Lemma assignPriorities_sorted l :
  StronglySorted precedes l ->
  forall k, StronglySorted precedes (assignPriorities k l).
Proof.
  intros Hl. induction Hl as [|r l Hl IH Hr]; intros k; simpl; constructor.
  - apply IH.
  - eapply assignPriorities_Forall; [|exact Hr].
    intros z p Hz. exact Hz.
Qed.

Lemma assignPriorities_nth l :
  forall k i rec,
    nth_error (assignPriorities k l) i = Some rec ->
    priority rec = (k + i + 1)%nat.
Proof.
  induction l as [|r l IH]; intros k i rec H.
  - destruct i; discriminate H.
  - destruct i as [|i]; simpl in H.
    + injection H as <-. simpl. lia.
    + apply IH in H. lia.
Qed.

Lemma assignPriorities_forget l :
  forall k,
    map (fun r => setPriority r 0) (assignPriorities k l)
    = map (fun r => setPriority r 0) l.
Proof.
  induction l as [|r l IH]; intros k; simpl.
  - reflexivity.
  - rewrite IH. reflexivity.
Qed.

End GapFacts.

(** C9. The list returned by [generateGapRecommendations] is ordered by
    severity rank, BLOCKER first, and within one rank by descending
    affected count; the recommendation at position [i], counted from 0,
    has priority [i + 1]; and apart from the priorities it holds exactly
    the recommendations of the seven analyzers. *)
Theorem recommendations_sorted_and_numbered
  (report : GapAnalysis.DeepValidationReport)
  (requirements : list RequirementObject) :
  let result := GapAnalysis.generateGapRecommendations report requirements in
  StronglySorted Statements.precedes result
  /\ (forall i rec, nth_error result i = Some rec ->
        GapAnalysis.priority rec = (i + 1)%nat)
  /\ Permutation
       (map (fun r => GapAnalysis.setPriority r 0) result)
       (map (fun r => GapAnalysis.setPriority r 0)
          (Statements.gathered report requirements)).
Proof.
  intros result. subst result. unfold GapAnalysis.generateGapRecommendations.
  fold (Statements.gathered report requirements).
  split; [|split].
  - apply assignPriorities_sorted, sortBy_sorted.
  - intros i rec H. apply assignPriorities_nth in H. lia.
  - rewrite assignPriorities_forget. apply Permutation_map, sortBy_Permutation.
Qed.

(** A report with one approved-to-draft inconsistency and one baselined
    record that is not approved: the baseline recommendation, HIGH, comes
    first and the status recommendation, MEDIUM, second. *)
Lemma recommendations_sorted_and_numbered_witness :
  let report :=
    {| GapAnalysis.circularDependencies := [];
       GapAnalysis.hierarchicalCoverageResults := [];
       GapAnalysis.orphanedRequirements := [];
       GapAnalysis.statusInconsistencies :=
         [ {| StatusConsistency.si_chain := ["REQ001"; "REQ002"];
              StatusConsistency.si_fromId := "REQ001";
              StatusConsistency.si_toId := "REQ002";
              StatusConsistency.si_fromStatus := "approved";
              StatusConsistency.si_toStatus := "draft";
              StatusConsistency.si_linkType := "satisfies";
              StatusConsistency.si_severity := MEDIUM;
              StatusConsistency.si_violation := StatusConsistency.approved_to_draft |} ];
       GapAnalysis.incompleteChains := [];
       GapAnalysis.priorityWeightedCoverageResults := [];
       GapAnalysis.baselineIssues :=
         [ {| GapAnalysis.bi_id := "REQ003";
              GapAnalysis.bi_baseline := "v1.0.0";
              GapAnalysis.bi_issue := GapAnalysis.not_approved;
              GapAnalysis.bi_severity := HIGH;
              GapAnalysis.bi_affectedIds := ["REQ003"];
              GapAnalysis.bi_details := "" |} ] |} in
  let result := GapAnalysis.generateGapRecommendations report [] in
  map (fun r => (GapAnalysis.severity r, GapAnalysis.category r, GapAnalysis.priority r))
    result
  = [(HIGH, GapAnalysis.BASELINE, 1%nat); (MEDIUM, GapAnalysis.STATUS_CONSISTENCY, 2%nat)]
  /\ forall i rec, nth_error result i = Some rec ->
       GapAnalysis.priority rec = (i + 1)%nat.
Proof.
  intros report result. split.
  - vm_compute. reflexivity.
  - apply (recommendations_sorted_and_numbered report []).
Defined.

(** ** Hierarchical coverage *)

Section CoverageFacts.
Import DeepValidation HierarchicalCoverage Statements.

Lemma includes_true l x : Js.includes l x = true <-> In x l.
Proof.
  unfold Js.includes. rewrite existsb_exists. split.
  - intros [y [Hy Heq]]. apply String.eqb_eq in Heq. subst. exact Hy.
  - intros H. exists x. split; [exact H|apply String.eqb_refl].
Qed.

Lemma includes_false l x : Js.includes l x = false <-> ~ In x l.
Proof.
  rewrite <- includes_true. destruct (Js.includes l x); split; intros H;
    congruence.
Qed.

(** With pairwise distinct ids, [find] by id returns the record itself. *)
Lemma find_by_unique (requirements : list RequirementObject) r :
  List.NoDup (map req_id requirements) -> In r requirements ->
  Js.find_by req_id requirements (req_id r) = Some r.
Proof.
  induction requirements as [|x l IH]; intros Hnd Hin; [destruct Hin|].
  simpl in *. inversion Hnd as [|? ? Hx Hl]; subst.
  destruct (String.eqb_spec (req_id x) (req_id r)) as [Heq|Hne].
  - destruct Hin as [->|Hin]; [reflexivity|].
    exfalso. apply Hx. rewrite Heq. apply in_map. exact Hin.
  - destruct Hin as [->|Hin]; [congruence|]. apply IH; assumption.
Qed.

Lemma filter_Permutation {A : Type} (p : A -> bool) (l l' : list A) :
  Permutation l l' -> Permutation (List.filter p l) (List.filter p l').
Proof.
  intros H. induction H as [|x l l' H IH|x y l|l l' l'' H1 IH1 H2 IH2]; simpl.
  - constructor.
  - destruct (p x); [constructor|]; exact IH.
  - destruct (p x), (p y); try reflexivity. apply perm_swap.
  - etransitivity; eassumption.
Qed.

Lemma validTargets_In requirements toTypes links targetId :
  In targetId (validTargets requirements toTypes links)
  <-> In targetId links
      /\ exists target,
           Js.find_by req_id requirements targetId = Some target
           /\ Js.includes toTypes (req_type target) = true.
Proof.
  unfold validTargets. rewrite filter_In. split.
  - intros [Hin H]. split; [exact Hin|].
    destruct (Js.find_by req_id requirements targetId) as [target|];
      [|discriminate]. exists target. split; [reflexivity|exact H].
  - intros [Hin [target [Hfind H]]]. split; [exact Hin|].
    rewrite Hfind. exact H.
Qed.

(** The test of the source is the coverage condition: a link to a
    record that is absent, or whose type is not a target type, does not
    count. *)
Lemma hasValidLink_coveredBy requirements linkType toTypes req :
  hasValidLink requirements linkType toTypes req = true
  <-> coveredBy requirements linkType toTypes req.
Proof.
  unfold hasValidLink, coveredBy. split.
  - destruct (Js.map_get (req_links req) linkType) as [links|]; [|discriminate].
    intros H. apply andb_true_iff in H. destruct H as [_ H].
    apply Nat.ltb_lt in H.
    destruct (validTargets requirements toTypes links) as [|t rest] eqn:Hv;
      [simpl in H; lia|].
    assert (Hin : In t (validTargets requirements toTypes links))
      by (rewrite Hv; left; reflexivity).
    apply validTargets_In in Hin. destruct Hin as [Hin [target [Hf Ht]]].
    exists links, t, target. auto.
  - intros [links [t [target [Hget [Hin [Hf Ht]]]]]]. rewrite Hget.
    assert (Hv : In t (validTargets requirements toTypes links)).
    { apply validTargets_In. split; [exact Hin|]. exists target. auto. }
    apply andb_true_iff. split; apply Nat.ltb_lt.
    + destruct links; [destruct Hin|simpl; lia].
    + destruct (validTargets requirements toTypes links); [destruct Hv|simpl; lia].
Qed.

(** The scenario on the three records themselves. *)
Lemma scenario_sources (a b c : RequirementObject) :
  req_type c <> req_type a -> req_type c <> req_type b ->
  List.filter (fun req => Js.includes [req_type a; req_type b] (req_type req))
    [a; b; c] = [a; b].
Proof.
  intros Ha Hb. unfold Js.includes. simpl.
  rewrite !String.eqb_refl. simpl. rewrite orb_true_r.
  apply String.eqb_neq in Ha, Hb. rewrite Ha, Hb. reflexivity.
Qed.

End CoverageFacts.

(** C5, as amended. For three records A, B, C with pairwise distinct
    ids, in any order, where A has a link of type [implements] to B, B
    has one to C, and the type of C is not a source type, the rule
    [{implements, [typeOf A, typeOf B], [typeOf B, typeOf C], 80}]
    reports total 2, covered 2, percentage 100 and a met threshold.
    For every input, the covered records are the source records with a
    link of the rule's type to an existing record of a target type. *)
Theorem hierarchical_coverage_scenario
  (a b c : RequirementObject) (requirements : list RequirementObject)
  (linksA linksB : list string) :
  Permutation [a; b; c] requirements ->
  List.NoDup [req_id a; req_id b; req_id c] ->
  Js.map_get (req_links a) "implements" = Some linksA ->
  In (req_id b) linksA ->
  Js.map_get (req_links b) "implements" = Some linksB ->
  In (req_id c) linksB ->
  req_type c <> req_type a ->
  req_type c <> req_type b ->
  let result :=
    HierarchicalCoverage.calculateCoverageForLinkType requirements "implements"
      [req_type a; req_type b] [req_type b; req_type c] 80%Z in
  (HierarchicalCoverage.hc_total result = 2%nat
   /\ HierarchicalCoverage.hc_withLinks result = 2%nat
   /\ HierarchicalCoverage.hc_percentage result = JsNumber.JsInt 100
   /\ HierarchicalCoverage.hc_meets_threshold result = true)
  /\ forall reqs linkType fromTypes toTypes threshold,
       HierarchicalCoverage.hc_withLinks
         (HierarchicalCoverage.calculateCoverageForLinkType reqs linkType
            fromTypes toTypes threshold)
       = length
           (List.filter (HierarchicalCoverage.hasValidLink reqs linkType toTypes)
              (List.filter (fun req => Js.includes fromTypes (req_type req)) reqs))
       /\ forall req,
            HierarchicalCoverage.hasValidLink reqs linkType toTypes req = true
            <-> Statements.coveredBy reqs linkType toTypes req.
Proof.
  intros Hperm Hnd HgetA HinA HgetB HinB Hca Hcb result.
  split.
  2:{ intros reqs linkType fromTypes toTypes threshold.
      split; [reflexivity|]. intros req. apply hasValidLink_coveredBy. }
  assert (Hids : List.NoDup (map req_id requirements)).
  { eapply Permutation_NoDup; [apply Permutation_map; exact Hperm|exact Hnd]. }
  assert (Hb : In b requirements)
    by (eapply Permutation_in; [exact Hperm|right; left; reflexivity]).
  assert (Hc : In c requirements)
    by (eapply Permutation_in; [exact Hperm|right; right; left; reflexivity]).
  set (toT := [req_type b; req_type c]).
  assert (Hva : HierarchicalCoverage.hasValidLink requirements "implements" toT a = true).
  { apply hasValidLink_coveredBy. exists linksA, (req_id b), b.
    repeat split; try assumption.
    - apply find_by_unique; assumption.
    - apply includes_true. left. reflexivity. }
  assert (Hvb : HierarchicalCoverage.hasValidLink requirements "implements" toT b = true).
  { apply hasValidLink_coveredBy. exists linksB, (req_id c), c.
    repeat split; try assumption.
    - apply find_by_unique; assumption.
    - apply includes_true. right. left. reflexivity. }
  pose proof (filter_Permutation
                (fun req => Js.includes [req_type a; req_type b] (req_type req))
                _ _ Hperm) as Hsrc.
  rewrite (scenario_sources a b c Hca Hcb) in Hsrc.
  pose proof (filter_Permutation
                (HierarchicalCoverage.hasValidLink requirements "implements" toT)
                _ _ Hsrc) as Hcov.
  simpl in Hcov. rewrite Hva, Hvb in Hcov.
  apply Permutation_length in Hsrc, Hcov. simpl in Hsrc, Hcov.
  subst result. unfold HierarchicalCoverage.calculateCoverageForLinkType. simpl.
  fold toT. rewrite <- Hsrc, <- Hcov.
  repeat split; vm_compute; reflexivity.
Qed.

(** The scenario of the specification with types STK, SYS and DSG. *)
Lemma hierarchical_coverage_scenario_witness :
  let a := Fixtures.mkReq "A" "STK" None [("implements", ["B"])] in
  let b := Fixtures.mkReq "B" "SYS" None [("implements", ["C"])] in
  let c := Fixtures.mkReq "C" "DSG" None [] in
  let result :=
    HierarchicalCoverage.calculateCoverageForLinkType [a; b; c] "implements"
      ["STK"; "SYS"] ["SYS"; "DSG"] 80%Z in
  HierarchicalCoverage.hc_total result = 2%nat
  /\ HierarchicalCoverage.hc_withLinks result = 2%nat
  /\ HierarchicalCoverage.hc_percentage result = JsNumber.JsInt 100
  /\ HierarchicalCoverage.hc_meets_threshold result = true.
Proof.
  intros a b c result.
  apply (hierarchical_coverage_scenario a b c [a; b; c] ["B"] ["C"]).
  - reflexivity.
  - repeat constructor; simpl; intros H;
      repeat (destruct H as [H|H]; [discriminate H|]); exact H.
  - reflexivity.
  - left. reflexivity.
  - reflexivity.
  - left. reflexivity.
  - discriminate.
  - discriminate.
Defined.

(** C5 as stated fails when C has the type of a source: with three
    records of one type, C is a source without a link and the rule
    reports 2 of 3. *)
Lemma hierarchical_coverage_same_type_counterexample :
  let a := Fixtures.mkReq "A" "requirement" None [("implements", ["B"])] in
  let b := Fixtures.mkReq "B" "requirement" None [("implements", ["C"])] in
  let c := Fixtures.mkReq "C" "requirement" None [] in
  let result :=
    HierarchicalCoverage.calculateCoverageForLinkType [a; b; c] "implements"
      [req_type a; req_type b] [req_type b; req_type c] 80%Z in
  HierarchicalCoverage.hc_total result = 3%nat
  /\ HierarchicalCoverage.hc_withLinks result = 2%nat
  /\ HierarchicalCoverage.hc_percentage result = JsNumber.JsInt 67
  /\ HierarchicalCoverage.hc_meets_threshold result = false
  /\ ~ (HierarchicalCoverage.hc_total result = 2%nat
        /\ HierarchicalCoverage.hc_withLinks result = 2%nat
        /\ HierarchicalCoverage.hc_percentage result = JsNumber.JsInt 100
        /\ HierarchicalCoverage.hc_meets_threshold result = true).
Proof.
  vm_compute. repeat split; try reflexivity.
  intros [H _]. discriminate H.
Qed.

(** ** Cycle detection: severity and record order *)

Section CycleSeverityFacts.
Import DeepValidation CircularDependencyDetector.

(** In the branch for components of more than one node, the severity is
    looked up with the length of the closed path, one more than the
    length that is reported. *)
Lemma multi_node_severity graph config scc cs c :
  (1 < length scc)%nat ->
  cyclesOfScc graph config scc = Some cs ->
  In c cs ->
  cd_length c = (length (cd_cycle c) - 1)%nat
  /\ cd_severity c = determineCycleSeverity (length (cd_cycle c)) config.
Proof.
  intros Hlen Hcs Hin. unfold cyclesOfScc in Hcs.
  apply Nat.ltb_lt in Hlen. rewrite Hlen in Hcs.
  destruct (findCyclePath scc graph) as [cycle|]; [|discriminate].
  injection Hcs as <-. destruct Hin as [<-|[]]. simpl. split; reflexivity.
Qed.

End CycleSeverityFacts.

(** C1 at the two-record cycle. With the default severities, the records
    A and B that link to each other are reported as one cycle of length
    2, found as the closed path B, A, B, and its severity is MEDIUM: the
    severity is chosen with the length of the closed path, which is 3. *)
Theorem two_node_cycle_reported_medium :
  CircularDependencyDetector.detectCircularDependencies
    [ Fixtures.mkReq "A" "requirement" None [("links", ["B"])];
      Fixtures.mkReq "B" "requirement" None [("links", ["A"])] ]
    Fixtures.sampleConfig
  = Some [ {| CircularDependencyDetector.cd_cycle := ["B"; "A"; "B"];
              CircularDependencyDetector.cd_length := 2;
              CircularDependencyDetector.cd_severity := MEDIUM;
              CircularDependencyDetector.cd_linkTypes := ["links"] |} ].
Proof. vm_compute. reflexivity. Qed.


(** ** Canonical form of a cycle *)

Section NormalizeFacts.
Import GraphAnalysis Statements.












End NormalizeFacts.



(** ** The link graph of the index *)

Section IndexFacts.
Import GraphAnalysis IndexBuilder Statements.

Lemma linked_insert (lg : gmap string (gset string)) k s a :
  linked (<[k := s]> lg) a = if decide (k = a) then s else linked lg a.
Proof. unfold linked. rewrite lookup_insert. case_decide; reflexivity. Qed.

Lemma linked_ensureNode lg k a : linked (ensureNode k lg) a = linked lg a.
Proof.
  unfold ensureNode. destruct (lg !! k) eqn:E; [reflexivity|].
  rewrite linked_insert. case_decide; [|reflexivity].
  subst. unfold linked. rewrite E. reflexivity.
Qed.


Lemma elem_of_mockAddLink lg x y a b :
  b ∈ linked (mockAddLink x y lg) a
  <-> b ∈ linked lg a \/ (a = x /\ b = y) \/ (a = y /\ b = x).
Proof.
  unfold mockAddLink. rewrite !linked_insert, !linked_ensureNode, !linked_insert.
  destruct (decide (y = a)), (decide (x = a)), (decide (x = y)); subst;
    rewrite ?elem_of_difference, ?elem_of_union, ?elem_of_singleton;
    intuition congruence.
Qed.



Lemma mockAddLinks_elem x ts : forall lg a b,
  b ∈ linked (fold_left (fun lg t => mockAddLink x t lg) ts lg) a
  <-> b ∈ linked lg a \/ (a = x /\ In b ts) \/ (In a ts /\ b = x).
Proof.
  induction ts as [|t ts IH]; intros lg a b; simpl.
  - tauto.
  - rewrite IH, elem_of_mockAddLink. intuition (subst; auto).
Qed.











End IndexFacts.





(** ** Cycle detection: termination and self-loops *)

Lemma size_list_to_set_le (l : list string) :
  (size (list_to_set l : gset string) <= length l)%nat.
Proof.
  induction l as [|x l IH].
  - rewrite list_to_set_nil, size_empty. simpl. lia.
  - rewrite list_to_set_cons, size_union_alt, size_singleton. simpl.
    assert (size (list_to_set l ∖ {[x]} : gset string) <= size (list_to_set l : gset string))%nat.
    { apply subseteq_size. intros y. rewrite elem_of_difference. tauto. }
    lia.
Qed.

Section TarjanFacts.
Import DeepValidation CircularDependencyDetector Statements.

Variable graph : Graph.

Lemma hasIndex_true st x : hasIndex st x = true <-> is_Some (indices st !! x).
Proof. unfold hasIndex. apply bool_decide_eq_true. Qed.

Lemma hasIndex_false st x : hasIndex st x = false <-> indices st !! x = None.
Proof.
  unfold hasIndex. rewrite bool_decide_eq_false, eq_None_not_Some. reflexivity.
Qed.

Lemma extends_refl st : extends st st.
Proof. split; [reflexivity|]. exists []. reflexivity. Qed.

Lemma extends_trans st1 st2 st3 :
  extends st1 st2 -> extends st2 st3 -> extends st1 st3.
Proof.
  intros [H1 [a1 E1]] [H2 [a2 E2]]. split; [etransitivity; eassumption|].
  exists (a2 ++ a1). rewrite E2, E1, app_assoc. reflexivity.
Qed.

Lemma unindexed_extends st st' :
  extends st st' -> (unindexed graph st' <= unindexed graph st)%nat.
Proof.
  intros [H _]. unfold unindexed. apply subseteq_size.
  intros x. rewrite !elem_of_difference. intros [Hx Hd]. split; [exact Hx|].
  intros Hd'. apply Hd, H, Hd'.
Qed.

Lemma unindexed_enter node st :
  node ∈ universe graph -> indices st !! node = None ->
  (unindexed graph (enter node st) < unindexed graph st)%nat.
Proof.
  intros HU Hnone. unfold unindexed. simpl. rewrite dom_insert_L.
  apply not_elem_of_dom in Hnone. apply subset_size. split.
  - intros x. rewrite !elem_of_difference, elem_of_union. tauto.
  - intros H. specialize (H node).
    rewrite !elem_of_difference, elem_of_union, elem_of_singleton in H.
    tauto.
Qed.

Lemma setLowLink_extends node v st : extends st (setLowLink node v st).
Proof. split; [reflexivity|]. exists []. reflexivity. Qed.

Lemma setLowLink_unindexed node v st :
  unindexed graph (setLowLink node v st) = unindexed graph st.
Proof. reflexivity. Qed.

Lemma setLowLink_apart r node v st : apart r st -> apart r (setLowLink node v st).
Proof. intros H. exact H. Qed.


(** The pop loop stops at the first occurrence of [node]: it moves the
    part of the stack above it, and [node], into the component. *)
Lemma popScc_spec node : forall stk onStk scc,
  In node stk ->
  exists front stk' onStk',
    popScc node stk onStk scc = Some (stk', onStk', scc ++ front ++ [node])
    /\ stk = front ++ node :: stk'
    /\ ~ In node front.
Proof.
  induction stk as [|w stk IH]; intros onStk scc Hin; [destruct Hin|].
  simpl. destruct (String.eqb_spec w node) as [->|Hne].
  - exists [], stk, (onStk ∖ {[node]}). simpl. auto.
  - destruct Hin as [Hin|Hin]; [contradiction|].
    destruct (IH (onStk ∖ {[w]}) (scc ++ [w]) Hin)
      as [front [stk' [onStk' [Hpop [Hstk Hfront]]]]].
    exists (w :: front), stk', onStk'. rewrite Hpop, Hstk. simpl.
    rewrite <- app_assoc. simpl. split; [reflexivity|]. split; [reflexivity|].
    intros [H|H]; [contradiction|apply Hfront, H].
Qed.

(** What is left under the first occurrence of [node] still has the old
    stack at its bottom. *)
Lemma below_first_occurrence (node : string) above old front rest :
  above ++ node :: old = front ++ node :: rest ->
  ~ In node front ->
  exists above', rest = above' ++ old.
Proof.
  intros Heq Hfront. apply app_eq_app in Heq.
  destruct Heq as [w [[Habove Hrest]|[Hfr Hold]]].
  - destruct w as [|x w].
    + simpl in Hrest. injection Hrest as ->. exists []. reflexivity.
    + injection Hrest as _ ->. exists (w ++ [node]).
      rewrite <- app_assoc. reflexivity.
  - destruct w as [|x w].
    + simpl in Hold. injection Hold as ->. exists []. reflexivity.
    + injection Hold as <- _. exfalso. apply Hfront. rewrite Hfr.
      apply in_elt.
Qed.

Lemma includes_not_In l x : ~ In x l -> Js.includes l x = false.
Proof.
  intros H. destruct (Js.includes l x) eqn:E; [|reflexivity].
  apply includes_true in E. contradiction.
Qed.

(** Closing a component at a node other than [r], with the node on the
    stack above the old stack. *)
Lemma closeScc_ok r node st0 st :
  node <> r ->
  (exists above, stack st = above ++ node :: stack st0) ->
  dom (indices st0) ⊆ dom (indices st) ->
  is_Some (indices st !! node) ->
  apart r st ->
  exists st',
    closeScc node st = Some st'
    /\ extends st0 st'
    /\ is_Some (indices st' !! node)
    /\ apart r st'.
Proof.
  intros Hne [above Hstack] Hdom Hidx [Hr Hsccs]. unfold closeScc.
  destruct (Nat.eqb _ _).
  - assert (Hin : In node (stack st)) by (rewrite Hstack; apply in_elt).
    destruct (popScc_spec node (stack st) (onStack st) [] Hin)
      as [front [stk' [onStk' [Hpop [Hstk Hfront]]]]].
    rewrite Hpop. eexists. split; [reflexivity|].
    split; [|split; [exact Hidx|]].
    + split; [exact Hdom|]. simpl.
      rewrite Hstack in Hstk.
      apply (below_first_occurrence node above (stack st0) front stk' Hstk Hfront).
    + split; simpl.
      * intros H. apply Hr. rewrite Hstk. apply in_or_app. right. right. exact H.
      * rewrite List.filter_app. simpl.
        rewrite includes_not_In.
        -- rewrite app_nil_r. exact Hsccs.
        -- intros H. apply Hr. rewrite Hstk.
           apply in_app_or in H. destruct H as [H|[<-|[]]].
           ++ apply in_or_app. left. exact H.
           ++ contradiction.
  - exists st. split; [reflexivity|].
    split; [|split; [exact Hidx|split; assumption]].
    split; [exact Hdom|]. rewrite Hstack. exists (above ++ [node]).
    rewrite <- app_assoc. reflexivity.
Qed.


Lemma set_add_In s x y : In y (Js.set_add s x) <-> In y s \/ y = x.
Proof.
  unfold Js.set_add. destruct (Js.includes s x) eqn:E.
  - apply includes_true in E. split; [auto|]. intros [H| ->]; assumption.
  - rewrite in_app_iff. simpl. intuition.
Qed.

Lemma set_add_all_In xs : forall s y,
  In y (Js.set_add_all s xs) <-> In y s \/ In y xs.
Proof.
  unfold Js.set_add_all.
  induction xs as [|x xs IH]; intros s y; simpl.
  - tauto.
  - rewrite IH, set_add_In. intuition.
Qed.

Lemma map_get_In {V : Type} (m : list (string * V)) k v :
  Js.map_get m k = Some v -> In (k, v) m.
Proof.
  induction m as [|[k' v'] m IH]; simpl; [discriminate|].
  destruct (String.eqb_spec k' k) as [->|Hne].
  - intros [= ->]. left. reflexivity.
  - intros H. right. apply IH, H.
Qed.

Lemma key_universe node edges :
  In (node, edges) graph -> node ∈ universe graph.
Proof.
  intros H. unfold universe, graphNodes. apply elem_of_list_to_set.
  apply list_elem_of_In, in_or_app. left.
  unfold Js.map_keys. apply (in_map fst) in H. exact H.
Qed.

Lemma neighbors_universe node edges x :
  Js.map_get graph node = Some edges ->
  In x (neighborsOf edges) -> x ∈ universe graph.
Proof.
  intros Hget Hx. apply map_get_In in Hget.
  unfold neighborsOf in Hx. apply set_add_all_In in Hx.
  destruct Hx as [[]|Hx].
  unfold universe, graphNodes. apply elem_of_list_to_set.
  apply list_elem_of_In, in_or_app. right.
  apply in_concat. exists (concat (Js.map_values edges)). split; [|exact Hx].
  apply (in_map (fun kv => concat (Js.map_values (snd kv)))) in Hget. exact Hget.
Qed.

Lemma unindexed_pos node st :
  node ∈ universe graph -> indices st !! node = None ->
  (0 < unindexed graph st)%nat.
Proof.
  intros HU Hnone. pose proof (unindexed_enter node st HU Hnone). lia.
Qed.

Section SelfLoop.

Variables r linkType : string.

(** Either [r] is the self-linked node under study, or it is an id that
    the graph does not mention, for the facts that hold of every graph. *)
Hypothesis Hself :
  r ∉ universe graph \/ Js.map_get graph r = Some [(linkType, [r])].

Lemma visitNeighbors_ok fuel node :
  connects graph r fuel ->
  forall ns st,
    (forall x, In x ns -> x ∈ universe graph) ->
    (unindexed graph st <= fuel)%nat -> apart r st ->
    exists st',
      visitNeighbors (strongConnect fuel graph) node ns st = Some st'
      /\ extends st st'
      /\ apart r st'.
Proof.
  intros Hfuel. induction ns as [|neighbor ns IH]; intros st HU Hle Hapart; simpl.
  - exists st. split; [reflexivity|]. split; [apply extends_refl|exact Hapart].
  - assert (HU' : forall x, In x ns -> x ∈ universe graph)
      by (intros x Hx; apply HU; right; exact Hx).
    destruct (hasIndex st neighbor) eqn:Hidx; simpl.
    + destruct (isOnStack st neighbor).
      * destruct (IH (setLowLink node
                        (Nat.min (getNum (lowLinks st) node)
                                 (getNum (indices st) neighbor)) st)
                    HU' Hle Hapart) as [st' [Hv [Hext Hap]]].
        exists st'. split; [exact Hv|]. split; [|exact Hap].
        eapply extends_trans; [apply setLowLink_extends|exact Hext].
      * apply IH; assumption.
    + apply hasIndex_false in Hidx.
      destruct (Hfuel neighbor st (HU neighbor (or_introl eq_refl)) Hidx Hle Hapart)
        as [st1 [Hsc [Hext1 [_ Hap1]]]].
      rewrite Hsc.
      pose proof (unindexed_extends st st1 Hext1) as Hle1.
      destruct (IH (setLowLink node
                      (Nat.min (getNum (lowLinks st1) node)
                               (getNum (lowLinks st1) neighbor)) st1)
                  HU' ltac:(rewrite setLowLink_unindexed; lia) Hap1)
        as [st' [Hv [Hext Hap]]].
      exists st'. split; [exact Hv|]. split; [|exact Hap].
      eapply extends_trans; [exact Hext1|].
      eapply extends_trans; [apply setLowLink_extends|exact Hext].
Qed.


Lemma getNum_insert (m : gmap string nat) k v : getNum (<[k := v]> m) k = v.
Proof. unfold getNum. rewrite lookup_insert_eq. reflexivity. Qed.

(** [strongConnect] on the self-linked node [r]: it is pushed, sees
    itself on the stack, and is popped at once as the component [[r]]. *)
Lemma strongConnect_self fuel st :
  Js.map_get graph r = Some [(linkType, [r])] ->
  indices st !! r = None -> apart r st ->
  exists st',
    strongConnect (S fuel) graph r st = Some st'
    /\ extends st st'
    /\ is_Some (indices st' !! r)
    /\ apart r st'.
Proof.
  intros Hget Hnone [Hr Hsccs]. simpl. rewrite Hget.
  unfold neighborsOf. simpl.
  assert (Hidx : hasIndex (enter r st) r = true).
  { apply hasIndex_true. simpl. rewrite lookup_insert_eq. eauto. }
  assert (Hon : isOnStack (enter r st) r = true).
  { unfold isOnStack. apply bool_decide_eq_true. simpl.
    apply elem_of_union_l, elem_of_singleton. reflexivity. }
  rewrite Hidx, Hon. simpl.
  unfold closeScc. simpl. rewrite !getNum_insert, Nat.min_id, Nat.eqb_refl.
  rewrite String.eqb_refl. eexists. split; [reflexivity|].
  split; [|split; [|split]]; simpl.
  - split; simpl.
    + rewrite dom_insert_L. apply union_subseteq_r.
    + exists []. reflexivity.
  - rewrite lookup_insert_eq. eauto.
  - exact Hr.
  - rewrite List.filter_app, Hsccs. simpl. rewrite String.eqb_refl. simpl.
    apply hasIndex_false in Hnone. rewrite Hnone.
    assert (Hidx' : forall x, hasIndex x r = bool_decide (is_Some (indices x !! r)))
      by reflexivity.
    rewrite Hidx'. simpl. rewrite lookup_insert_eq.
    rewrite bool_decide_eq_true_2 by eauto. reflexivity.
Qed.

Lemma enter_apart node st :
  node <> r -> apart r st ->
  ~ In r (stack (enter node st))
  /\ List.filter (fun scc => Js.includes scc r) (sccs (enter node st))
     = if hasIndex (enter node st) r then [[r]] else [].
Proof.
  intros Hne [Hr Hsccs]. split.
  - simpl. intros [H|H]; [contradiction|apply Hr, H].
  - simpl. rewrite Hsccs. unfold hasIndex. simpl.
    rewrite lookup_insert_ne by exact Hne. reflexivity.
Qed.

Lemma strongConnect_ok : forall fuel, connects graph r fuel.
Proof.
  induction fuel as [|fuel IH]; intros node st HU Hnone Hle Hapart.
  - pose proof (unindexed_pos node st HU Hnone). lia.
  - destruct (String.eqb_spec node r) as [->|Hne].
    { destruct Hself as [Hout|Hget]; [contradiction|].
      apply strongConnect_self; assumption. }
    pose proof (unindexed_enter node st HU Hnone) as Hlt.
    pose proof (enter_apart node st Hne Hapart) as Hap1.
    assert (Hext1 : extends st (enter node st) /\ stack (enter node st) = node :: stack st).
    { split; [|reflexivity]. split; simpl.
      - rewrite dom_insert_L. apply union_subseteq_r.
      - exists [node]. reflexivity. }
    destruct Hext1 as [Hext1 Hstack1].
    assert (Hvisited : exists st2,
               match Js.map_get graph node with
               | Some edges =>
                   visitNeighbors (strongConnect fuel graph) node
                     (neighborsOf edges) (enter node st)
               | None => Some (enter node st)
               end = Some st2
               /\ extends (enter node st) st2 /\ apart r st2).
    { destruct (Js.map_get graph node) as [edges|] eqn:Hget.
      - apply (visitNeighbors_ok fuel node IH); [|lia|exact Hap1].
        intros x Hx. eapply neighbors_universe; eassumption.
      - exists (enter node st). split; [reflexivity|].
        split; [apply extends_refl|exact Hap1]. }
    destruct Hvisited as [st2 [Hv [[Hdom2 [above Habove]] Hap2]]].
    simpl. rewrite Hv.
    assert (Hidx2 : is_Some (indices st2 !! node)).
    { apply elem_of_dom, Hdom2. simpl. rewrite dom_insert_L.
      apply elem_of_union_l, elem_of_singleton. reflexivity. }
    apply (closeScc_ok r node st st2 Hne); try assumption.
    + exists above. rewrite Habove, Hstack1. reflexivity.
    + etransitivity; [|exact Hdom2]. apply Hext1.
Qed.

(** The loop over the keys of the graph. *)
Lemma connectAll_ok fuel : forall nodes st,
  (forall x, In x nodes -> x ∈ universe graph) ->
  (unindexed graph st <= fuel)%nat -> apart r st ->
  exists st',
    connectAll fuel graph nodes st = Some st'
    /\ extends st st'
    /\ (forall x, In x nodes -> is_Some (indices st' !! x))
    /\ apart r st'.
Proof.
  induction nodes as [|node nodes IH]; intros st HU Hle Hapart; simpl.
  - exists st. split; [reflexivity|]. split; [apply extends_refl|].
    split; [intros x []|exact Hapart].
  - assert (HU' : forall x, In x nodes -> x ∈ universe graph)
      by (intros x Hx; apply HU; right; exact Hx).
    destruct (hasIndex st node) eqn:Hidx; simpl.
    + destruct (IH st HU' Hle Hapart) as [st' [Hc [Hext [Hall Hap]]]].
      exists st'. split; [exact Hc|]. split; [exact Hext|]. split; [|exact Hap].
      intros x [<-|Hx]; [|apply Hall, Hx].
      apply hasIndex_true in Hidx. apply elem_of_dom.
      apply (proj1 Hext). apply elem_of_dom. exact Hidx.
    + apply hasIndex_false in Hidx.
      destruct (strongConnect_ok fuel node st (HU node (or_introl eq_refl))
                  Hidx Hle Hapart) as [st1 [Hsc [Hext1 [Hidx1 Hap1]]]].
      rewrite Hsc.
      pose proof (unindexed_extends st st1 Hext1) as Hle1.
      destruct (IH st1 HU' ltac:(lia) Hap1) as [st' [Hc [Hext [Hall Hap]]]].
      exists st'. split; [exact Hc|].
      split; [eapply extends_trans; eassumption|]. split; [|exact Hap].
      intros x [<-|Hx]; [|apply Hall, Hx].
      apply elem_of_dom. apply (proj1 Hext). apply elem_of_dom. exact Hidx1.
Qed.


Lemma initial_unindexed :
  (unindexed graph initialState <= tarjanFuel graph)%nat.
Proof.
  unfold unindexed, tarjanFuel, universe.
  pose proof (size_list_to_set_le (graphNodes graph)) as Hle.
  assert (size (list_to_set (graphNodes graph) ∖ dom (indices initialState) : gset string)
          <= size (list_to_set (graphNodes graph) : gset string))%nat.
  { apply subseteq_size. intros y. rewrite elem_of_difference. tauto. }
  lia.
Qed.

(** Tarjan's search ends on every graph; every key has an index then,
    and the components that contain [r] are [[r]] alone when [r] is a
    key. *)
Lemma components_ok :
  exists components,
    findStronglyConnectedComponents graph = Some components
    /\ (In r (Js.map_keys graph) ->
        List.filter (fun scc => Js.includes scc r) components = [[r]]).
Proof.
  unfold findStronglyConnectedComponents, findStronglyConnectedComponentsFuel.
  assert (HU : forall x, In x (Js.map_keys graph) -> x ∈ universe graph).
  { intros x Hx. unfold Js.map_keys in Hx. apply in_map_iff in Hx.
    destruct Hx as [[k e] [<- Hin]]. eapply key_universe. exact Hin. }
  assert (Hap0 : apart r initialState).
  { split; [intros []|reflexivity]. }
  destruct (connectAll_ok (tarjanFuel graph) (Js.map_keys graph) initialState
              HU initial_unindexed Hap0) as [st [Hc [_ [Hall [_ Hsccs]]]]].
  rewrite Hc. exists (sccs st). split; [reflexivity|].
  intros Hkey. rewrite Hsccs.
  rewrite (proj2 (hasIndex_true st r) (Hall r Hkey)). reflexivity.
Qed.

End SelfLoop.

End TarjanFacts.

Section CyclePathFacts.
Import DeepValidation CircularDependencyDetector Statements.

Variable graph : Graph.
Variable sccSet : gset string.
Variable target : string.

Lemma unvisited_mono st st' :
  visited st ⊆ visited st' -> (unvisited sccSet st' <= unvisited sccSet st)%nat.
Proof.
  intros H. unfold unvisited. apply subseteq_size.
  intros x. rewrite !elem_of_difference. intros [Hx Hv]. split; [exact Hx|].
  intros Hv'. apply Hv, H, Hv'.
Qed.

Lemma dfsNeighbors_ok fuel :
  searches graph sccSet target fuel ->
  forall ns st,
    (unvisited sccSet st <= fuel)%nat -> pathWithin sccSet st ->
    exists found st',
      dfsNeighbors (dfs fuel graph sccSet target) sccSet target ns st
      = Some (found, st')
      /\ visited st ⊆ visited st'
      /\ pathWithin sccSet st'.
Proof.
  intros Hfuel. induction ns as [|neighbor ns IH]; intros st Hle Hpath; simpl.
  - exists false, st. split; [reflexivity|]. split; [reflexivity|exact Hpath].
  - destruct (bool_decide (neighbor ∈ sccSet)) eqn:Hin; simpl;
      [|apply IH; assumption].
    apply bool_decide_eq_true in Hin.
    destruct (String.eqb neighbor target && (1 <? length (path st))%nat).
    + eexists true, _. split; [reflexivity|]. split; [reflexivity|].
      intros x Hx. simpl in Hx. apply in_app_or in Hx.
      destruct Hx as [Hx|[<-|[]]]; [apply Hpath, Hx|exact Hin].
    + destruct (bool_decide (neighbor ∈ visited st)) eqn:Hvis; simpl;
        [apply IH; assumption|].
      apply bool_decide_eq_false in Hvis.
      destruct (Hfuel neighbor st Hin Hvis Hle Hpath)
        as [found [st1 [Hdfs [Hsub1 Hpath1]]]].
      rewrite Hdfs. destruct found.
      * exists true, st1. auto.
      * pose proof (unvisited_mono st st1 Hsub1) as Hle1.
        destruct (IH st1 ltac:(lia) Hpath1) as [found [st' [Hn [Hsub Hpath']]]].
        exists found, st'. split; [exact Hn|]. split; [|exact Hpath'].
        etransitivity; eassumption.
Qed.

Lemma In_removelast {A : Type} (l : list A) x : In x (removelast l) -> In x l.
Proof.
  induction l as [|y l IH]; simpl; [tauto|].
  destruct l as [|z l]; [intros []|].
  intros [H|H]; [left; exact H|right; apply IH, H].
Qed.

Lemma dfs_ok : forall fuel, searches graph sccSet target fuel.
Proof.
  induction fuel as [|fuel IH]; intros node st Hin Hvis Hle Hpath.
  - exfalso. unfold unvisited in Hle.
    assert (Hpos : (0 < size (sccSet ∖ visited st))%nat).
    { apply (Nat.le_lt_trans _ (size (sccSet ∖ ({[node]} ∪ visited st)))); [lia|].
      apply subset_size. split.
      - intros x. rewrite !elem_of_difference, elem_of_union. tauto.
      - intros H. specialize (H node).
        rewrite !elem_of_difference, elem_of_union, elem_of_singleton in H.
        tauto. }
    lia.
  - simpl.
    set (st1 := {| visited := {[node]} ∪ visited st; path := path st ++ [node] |}).
    assert (Hle1 : (unvisited sccSet st1 <= fuel)%nat).
    { unfold unvisited in *. simpl.
      assert (size (sccSet ∖ ({[node]} ∪ visited st)) < size (sccSet ∖ visited st))%nat;
        [|lia].
      apply subset_size. split.
      - intros x. rewrite !elem_of_difference, elem_of_union. tauto.
      - intros H. specialize (H node).
        rewrite !elem_of_difference, elem_of_union, elem_of_singleton in H.
        tauto. }
    assert (Hpath1 : pathWithin sccSet st1).
    { intros x Hx. simpl in Hx. apply in_app_or in Hx.
      destruct Hx as [Hx|[<-|[]]]; [apply Hpath, Hx|exact Hin]. }
    assert (Hsub1 : visited st ⊆ visited st1) by apply union_subseteq_r.
    assert (Hloop : exists found st2,
               match Js.map_get graph node with
               | Some edges =>
                   dfsNeighbors (dfs fuel graph sccSet target) sccSet target
                     (neighborsOf edges) st1
               | None => Some (false, st1)
               end = Some (found, st2)
               /\ visited st1 ⊆ visited st2 /\ pathWithin sccSet st2).
    { destruct (Js.map_get graph node) as [edges|].
      - apply (dfsNeighbors_ok fuel IH); assumption.
      - exists false, st1. split; [reflexivity|]. split; [reflexivity|exact Hpath1]. }
    destruct Hloop as [found [st2 [Hl [Hsub2 Hpath2]]]]. rewrite Hl.
    destruct found.
    + exists true, st2. split; [reflexivity|].
      split; [etransitivity; eassumption|exact Hpath2].
    + eexists false, _. split; [reflexivity|]. simpl.
      split; [etransitivity; eassumption|].
      intros x Hx. simpl in Hx. apply Hpath2, In_removelast, Hx.
Qed.

End CyclePathFacts.

Section CyclesOfComponents.
Import DeepValidation CircularDependencyDetector Statements.

Variable graph : Graph.
Variable config : DeepValidationConfig.

(** The search for a cycle path ends, and the path stays inside the
    component. *)
Lemma findCyclePath_ok scc :
  exists cycle,
    findCyclePath scc graph = Some cycle
    /\ forall x, In x cycle -> In x scc.
Proof.
  unfold findCyclePath. destruct scc as [|startNode rest] eqn:Hscc.
  - exists []. auto.
  - rewrite <- Hscc.
    assert (Hstart : startNode ∈ (list_to_set scc : gset string)).
    { apply elem_of_list_to_set, list_elem_of_In. rewrite Hscc. left. reflexivity. }
    destruct (dfs_ok graph (list_to_set scc) startNode (S (S (length scc)))
                startNode {| visited := ∅; path := [] |} Hstart)
      as [found [st [Hdfs [_ Hpath]]]].
    + apply not_elem_of_empty.
    + unfold unvisited. simpl.
      pose proof (size_list_to_set_le scc).
      assert (size ((list_to_set scc : gset string) ∖ ∅) <= size (list_to_set scc : gset string))%nat.
      { apply subseteq_size. intros y. rewrite elem_of_difference. tauto. }
      lia.
    + intros x [].
    + rewrite Hdfs. eexists. split; [reflexivity|].
      intros x Hx. destruct (0 <? length (path st))%nat; [|exact Hx].
      apply list_elem_of_In.
      apply (proj1 (elem_of_list_to_set (C:=gset string) x scc)).
      apply Hpath, Hx.
Qed.

(** The cycles pushed for one component mention only its nodes. *)
Lemma cyclesOfScc_ok scc :
  exists cs,
    cyclesOfScc graph config scc = Some cs
    /\ forall c x, In c cs -> In x (cd_cycle c) -> In x scc.
Proof.
  unfold cyclesOfScc. destruct (1 <? length scc)%nat.
  - destruct (findCyclePath_ok scc) as [cycle [Hf Hin]]. rewrite Hf.
    eexists. split; [reflexivity|].
    intros c x [<-|[]] Hx. apply Hin, Hx.
  - destruct scc as [|node [|? ?]]; try (exists []; split; [reflexivity|intros ? ? []]).
    destruct (Js.map_get graph node) as [edges|];
      [|exists []; split; [reflexivity|intros ? ? []]].
    destruct (existsb _ _); [|exists []; split; [reflexivity|intros ? ? []]].
    eexists. split; [reflexivity|].
    intros c x [<-|[]] Hx. simpl in Hx. destruct Hx as [<-|[<-|[]]]; left; reflexivity.
Qed.


Lemma cyclesOfSccs_ok r c0 :
  cyclesOfScc graph config [r] = Some [c0] ->
  Js.includes (cd_cycle c0) r = true ->
  forall components,
    (forall scc, In scc components -> Js.includes scc r = true -> scc = [r]) ->
    exists cs,
      cyclesOfSccs graph config components = Some cs
      /\ List.filter (fun c => Js.includes (cd_cycle c) r) cs
         = map (fun _ => c0)
             (List.filter (fun scc => Js.includes scc r) components).
Proof.
  intros Hself Hc0. induction components as [|scc rest IH]; intros Honly; simpl.
  - exists []. auto.
  - destruct IH as [cs' [Hrest Hfilter]].
    { intros s Hs. apply Honly. right. exact Hs. }
    rewrite Hrest.
    destruct (Js.includes scc r) eqn:Hin.
    + rewrite (Honly scc (or_introl eq_refl) Hin), Hself.
      eexists. split; [reflexivity|]. simpl. rewrite Hc0, Hfilter. reflexivity.
    + destruct (cyclesOfScc_ok scc) as [cs1 [Hscc Hwithin]]. rewrite Hscc.
      eexists. split; [reflexivity|].
      rewrite List.filter_app, Hfilter.
      assert (Hnone : List.filter (fun c => Js.includes (cd_cycle c) r) cs1 = []).
      { clear Hscc. induction cs1 as [|c cs1 IHc]; [reflexivity|]. simpl.
        rewrite includes_not_In.
        - apply IHc. intros c' x Hc' Hx. apply (Hwithin c' x); [right|]; assumption.
        - intros Hx.
          assert (Hr : In r scc)
            by (apply (Hwithin c r); [left; reflexivity|exact Hx]).
          apply includes_true in Hr. congruence. }
      rewrite Hnone. reflexivity.
Qed.

Lemma filter_singleton_only {A : Type} (p : A -> bool) (l : list A) (a : A) :
  List.filter p l = [a] -> forall x, In x l -> p x = true -> x = a.
Proof.
  intros H x Hx Hp.
  assert (Hin : In x (List.filter p l)) by (apply filter_In; auto).
  rewrite H in Hin. destruct Hin as [<-|[]]. reflexivity.
Qed.

End CyclesOfComponents.

Section BuildGraphFacts.
Import DeepValidation.

Lemma map_get_set {V : Type} (m : list (string * V)) k v k' :
  Js.map_get (Js.map_set k v m) k'
  = if String.eqb k k' then Some v else Js.map_get m k'.
Proof.
  induction m as [|[k0 v0] m IH]; simpl.
  - reflexivity.
  - destruct (String.eqb_spec k0 k) as [->|Hne]; simpl.
    + destruct (String.eqb k k'); reflexivity.
    + rewrite IH. destruct (String.eqb_spec k0 k') as [->|Hne'].
      * apply String.eqb_neq in Hne. rewrite String.eqb_sym, Hne. reflexivity.
      * reflexivity.
Qed.

Lemma buildGraph_other requirements k : forall g,
  ~ In k (map req_id requirements) ->
  Js.map_get
    (fold_left (fun g r => Js.map_set (req_id r) (edgesOf r) g) requirements g) k
  = Js.map_get g k.
Proof.
  induction requirements as [|x l IH]; intros g Hk; simpl.
  - reflexivity.
  - rewrite IH by (intros H; apply Hk; right; exact H).
    rewrite map_get_set.
    destruct (String.eqb_spec (req_id x) k) as [Heq|_]; [|reflexivity].
    exfalso. apply Hk. left. exact Heq.
Qed.

(** With pairwise distinct ids, the node of a record carries its links. *)
Lemma buildGraph_get requirements r :
  List.NoDup (map req_id requirements) -> In r requirements ->
  Js.map_get (buildGraph requirements) (req_id r) = Some (req_links r).
Proof.
  unfold buildGraph. generalize (@nil (string * list (string * list string))).
  induction requirements as [|x l IH]; intros g Hnd Hin; [destruct Hin|].
  simpl in *. inversion Hnd as [|? ? Hx Hl]; subst.
  destruct Hin as [->|Hin].
  - rewrite buildGraph_other by exact Hx.
    rewrite map_get_set, String.eqb_refl. reflexivity.
  - apply IH; assumption.
Qed.

End BuildGraphFacts.

(** Cycle detection ends on every input. *)
Lemma detectCircularDependencies_total requirements config :
  exists cycles,
    CircularDependencyDetector.detectCircularDependencies requirements config
    = Some cycles.
Proof.
  unfold CircularDependencyDetector.detectCircularDependencies,
    CircularDependencyDetector.detectCyclesInGraph.
  set (graph := DeepValidation.buildGraph requirements).
  destruct (exist_fresh (Statements.universe graph)) as [r Hr].
  destruct (components_ok graph r "" (or_introl Hr)) as [components [Hc _]].
  rewrite Hc. clear Hc.
  induction components as [|scc rest IH]; simpl.
  - exists []. reflexivity.
  - destruct (cyclesOfScc_ok graph config scc) as [cs [Hcs _]].
    destruct IH as [cs' Hcs']. rewrite Hcs, Hcs'. eexists. reflexivity.
Qed.

(** C4. In a set of records with pairwise distinct ids, a record whose
    only link, of a single link type, points to itself is reported
    exactly once: cycle detection ends, and among the cycles it returns
    those that mention the id of the record are the single cycle
    [[id; id]], of length 1 and severity HIGH, with that link type. *)
Theorem self_loop_reported_once
  (requirements : list RequirementObject)
  (config : DeepValidation.DeepValidationConfig)
  (r : RequirementObject) (linkType : string) :
  List.NoDup (map req_id requirements) ->
  In r requirements ->
  req_links r = [(linkType, [req_id r])] ->
  exists cycles,
    CircularDependencyDetector.detectCircularDependencies requirements config
    = Some cycles
    /\ List.filter
         (fun c => Js.includes (CircularDependencyDetector.cd_cycle c) (req_id r))
         cycles
       = [ {| CircularDependencyDetector.cd_cycle := [req_id r; req_id r];
              CircularDependencyDetector.cd_length := 1;
              CircularDependencyDetector.cd_severity := HIGH;
              CircularDependencyDetector.cd_linkTypes := [linkType] |} ].
Proof.
  intros Hnd Hin Hlinks.
  unfold CircularDependencyDetector.detectCircularDependencies,
    CircularDependencyDetector.detectCyclesInGraph.
  set (graph := DeepValidation.buildGraph requirements).
  assert (Hget : Js.map_get graph (req_id r) = Some [(linkType, [req_id r])]).
  { subst graph. rewrite <- Hlinks. apply buildGraph_get; assumption. }
  assert (Hkey : In (req_id r) (Js.map_keys graph)).
  { apply map_get_In in Hget. apply (in_map fst) in Hget. exact Hget. }
  destruct (components_ok graph (req_id r) linkType (or_intror Hget))
    as [components [Hc Hfilter]].
  rewrite Hc. specialize (Hfilter Hkey).
  set (c0 := {| CircularDependencyDetector.cd_cycle := [req_id r; req_id r];
                CircularDependencyDetector.cd_length := 1;
                CircularDependencyDetector.cd_severity := HIGH;
                CircularDependencyDetector.cd_linkTypes := [linkType] |}).
  assert (Hself : CircularDependencyDetector.cyclesOfScc graph config [req_id r]
                  = Some [c0]).
  { unfold CircularDependencyDetector.cyclesOfScc. simpl. rewrite Hget. simpl.
    rewrite String.eqb_refl. reflexivity. }
  assert (Hc0 : Js.includes (CircularDependencyDetector.cd_cycle c0) (req_id r) = true).
  { simpl. rewrite String.eqb_refl. reflexivity. }
  destruct (cyclesOfSccs_ok graph config (req_id r) c0 Hself Hc0 components)
    as [cs [Hcs Hres]].
  { apply (filter_singleton_only _ _ _ Hfilter). }
  exists cs. split; [exact Hcs|]. rewrite Hres, Hfilter. reflexivity.
Qed.

(** The self-referencing record of the unit tests, alone and next to a
    two-node cycle. *)
Lemma self_loop_reported_once_witness :
  let r := Fixtures.mkReq "REQ001" "requirement" None [("links", ["REQ001"])] in
  let a := Fixtures.mkReq "A" "requirement" None [("links", ["B"; "REQ001"])] in
  let b := Fixtures.mkReq "B" "requirement" None [("links", ["A"])] in
  CircularDependencyDetector.detectCircularDependencies [r] Fixtures.sampleConfig
  = Some [ {| CircularDependencyDetector.cd_cycle := ["REQ001"; "REQ001"];
              CircularDependencyDetector.cd_length := 1;
              CircularDependencyDetector.cd_severity := HIGH;
              CircularDependencyDetector.cd_linkTypes := ["links"] |} ]
  /\ exists cycles,
       CircularDependencyDetector.detectCircularDependencies [a; r; b]
         Fixtures.sampleConfig = Some cycles
       /\ List.filter
            (fun c => Js.includes (CircularDependencyDetector.cd_cycle c) (req_id r))
            cycles
          = [ {| CircularDependencyDetector.cd_cycle := [req_id r; req_id r];
                 CircularDependencyDetector.cd_length := 1;
                 CircularDependencyDetector.cd_severity := HIGH;
                 CircularDependencyDetector.cd_linkTypes := ["links"] |} ].
Proof.
  intros r a b. split; [vm_compute; reflexivity|].
  apply (self_loop_reported_once [a; r; b] Fixtures.sampleConfig r "links").
  - repeat constructor; simpl; intros H;
      repeat (destruct H as [H|H]; [discriminate H|]); exact H.
  - right. left. reflexivity.
  - reflexivity.
Defined.

(** ** Coverage queries *)

Section CoverageQueryFacts.
Import DeepValidation HierarchicalCoverage CoverageQueries CompletenessAnalyzer.

Lemma filter_split_length {A : Type} (p : A -> bool) (l : list A) :
  length l
  = (length (List.filter p l) + length (List.filter (fun x => negb (p x)) l))%nat.
Proof.
  induction l as [|x l IH]; simpl; [reflexivity|].
  destruct (p x); simpl; lia.
Qed.

Lemma filter_length_le {A : Type} (p : A -> bool) (l : list A) :
  (length (List.filter p l) <= length l)%nat.
Proof. rewrite (filter_split_length p l). lia. Qed.

(** Reading a map built by setting, for each key of a list in turn, a
    value that depends on the key only. *)
Lemma map_get_fold_set {V : Type} (f : string -> V) (keys : list string) :
  forall (m : list (string * V)) k,
    Js.map_get (fold_left (fun m k => Js.map_set k (f k) m) keys m) k
    = if Js.includes keys k then Some (f k) else Js.map_get m k.
Proof.
  induction keys as [|k0 keys IH]; intros m k; simpl.
  - reflexivity.
  - rewrite IH, map_get_set. unfold Js.includes. simpl.
    destruct (existsb (String.eqb k) keys); [rewrite orb_true_r; reflexivity|].
    rewrite orb_false_r, (String.eqb_sym k k0).
    destruct (String.eqb_spec k0 k) as [->|]; reflexivity.
Qed.

Lemma coveredCount_le getTypePrefix requirements linkTypes toType fromReqs :
  (coveredCount getTypePrefix requirements linkTypes toType fromReqs
   <= length fromReqs)%nat.
Proof.
  unfold coveredCount.
  assert (H : forall n,
             (fold_left
                (fun covered req =>
                   if existsb (hasLinkToType getTypePrefix requirements toType req)
                        linkTypes
                   then S covered else covered) fromReqs n
              <= n + length fromReqs)%nat).
  { induction fromReqs as [|r rs IH]; intros n; simpl; [lia|].
    destruct (existsb _ linkTypes); [specialize (IH (S n))|specialize (IH n)]; lia. }
  apply (H 0%nat).
Qed.

Lemma totalWeightOf_zero coverage :
  List.Forall (fun c => hc_total c = 0%nat) coverage -> totalWeightOf coverage = 0%nat.
Proof.
  unfold totalWeightOf. intros H.
  assert (G : forall n, fold_left (fun t c => (t + hc_total c)%nat) coverage n = n).
  { induction H as [|c cs Hc _ IH]; intros n; simpl; [reflexivity|].
    rewrite Hc, Nat.add_0_r. apply IH. }
  apply G.
Qed.

End CoverageQueryFacts.




Section PriorityBucketFacts.
Import DeepValidation CompletenessAnalyzer Statements.

Variable getAllOutgoingLinks : RequirementObject -> list string.

Lemma bucketSize_cons p r rs :
  bucketSize p (r :: rs)
  = ((if String.eqb (Js.toLowerCase (priorityOf r)) p then 1 else 0)
     + bucketSize p rs)%nat.
Proof.
  unfold bucketSize. cbn [List.filter].
  destruct (String.eqb (Js.toLowerCase (priorityOf r)) p); reflexivity.
Qed.

Lemma bucket_totals requirements config :
  list_sum
    (map pw_total
       (calculatePriorityWeightedCoverage getAllOutgoingLinks requirements config))
  = length (List.filter bucketed requirements).
Proof.
  change (bucketSize "critical" requirements
          + (bucketSize "high" requirements
             + (bucketSize "medium" requirements
                + (bucketSize "low" requirements + 0)))
          = length (List.filter bucketed requirements))%nat.
  induction requirements as [|r rs IH]; [reflexivity|].
  rewrite !bucketSize_cons. cbn [List.filter].
  assert (Hb : bucketed r
               = (String.eqb (Js.toLowerCase (priorityOf r)) "critical"
                  || (String.eqb (Js.toLowerCase (priorityOf r)) "high"
                      || (String.eqb (Js.toLowerCase (priorityOf r)) "medium"
                          || (String.eqb (Js.toLowerCase (priorityOf r)) "low"
                              || false))))) by reflexivity.
  rewrite Hb. clear Hb.
  destruct (String.eqb_spec (Js.toLowerCase (priorityOf r)) "critical") as [->|];
    [cbn; lia|].
  destruct (String.eqb_spec (Js.toLowerCase (priorityOf r)) "high") as [->|];
    [cbn; lia|].
  destruct (String.eqb_spec (Js.toLowerCase (priorityOf r)) "medium") as [->|];
    [cbn; lia|].
  destruct (String.eqb (Js.toLowerCase (priorityOf r)) "low"); cbn; lia.
Qed.

End PriorityBucketFacts.

(** X3. [calculatePriorityWeightedCoverage] always returns the four
    buckets critical, high, medium, low in this order; each bucket
    splits into covered and missing records; and the totals add up to
    the number of records whose priority reads, in any letter case, as
    one of the four names, an absent priority reading as medium. A
    record with any other priority is counted in no bucket. *)
Theorem priority_buckets_partition
  (getAllOutgoingLinks : RequirementObject -> list string)
  (requirements : list RequirementObject)
  (config : DeepValidation.DeepValidationConfig) :
  let buckets :=
    CompletenessAnalyzer.calculatePriorityWeightedCoverage getAllOutgoingLinks
      requirements config in
  map CompletenessAnalyzer.pw_priority buckets = ["critical"; "high"; "medium"; "low"]
  /\ List.Forall
       (fun b =>
          CompletenessAnalyzer.pw_total b
          = (CompletenessAnalyzer.pw_covered b
             + length (CompletenessAnalyzer.pw_missing b))%nat)
       buckets
  /\ list_sum (map CompletenessAnalyzer.pw_total buckets)
     = length
         (List.filter
            (fun req =>
               Js.includes ["critical"; "high"; "medium"; "low"]
                 (Js.toLowerCase (priorityOf req)))
            requirements)
  /\ (list_sum (map CompletenessAnalyzer.pw_total buckets) <= length requirements)%nat.
Proof.
  intros buckets. split; [reflexivity|]. split; [|split].
  - subst buckets. unfold CompletenessAnalyzer.calculatePriorityWeightedCoverage.
    apply List.Forall_forall. intros b Hb. apply in_map_iff in Hb.
    destruct Hb as [p [<- _]]. unfold CompletenessAnalyzer.coverageForPriority.
    cbn [CompletenessAnalyzer.pw_total CompletenessAnalyzer.pw_covered
         CompletenessAnalyzer.pw_missing].
    rewrite length_map.
    rewrite (filter_split_length
               (fun req => (0 <? length (getAllOutgoingLinks req))%nat)) at 1.
    f_equal. f_equal. apply filter_ext. intros req.
    destruct (length (getAllOutgoingLinks req)); reflexivity.
  - apply (bucket_totals getAllOutgoingLinks requirements config).
  - subst buckets. rewrite (bucket_totals getAllOutgoingLinks requirements config).
    apply filter_length_le.
Qed.

(** X4. The coverage of a type prefix splits the records with that
    prefix into covered and missing ones, and its percentage is 0 for an
    empty population; this holds for any prefix and link helpers. *)
Theorem prefix_coverage_partition
  (getTypePrefix : string -> string)
  (hasLinksOfType : RequirementObject -> list string -> bool)
  (requirements : list RequirementObject) (typePrefix : string)
  (linkTypes : list string) :
  let result :=
    CoverageQueries.getCoverageByTypePrefix getTypePrefix hasLinksOfType
      requirements typePrefix linkTypes in
  CoverageQueries.pc_total result
  = (CoverageQueries.pc_covered result + length (CoverageQueries.pc_missing result))%nat
  /\ Statements.percentageFor (CoverageQueries.pc_total result)
       (CoverageQueries.pc_covered result) (CoverageQueries.pc_percentage result)
  /\ forall i,
       In i (CoverageQueries.pc_missing result)
       <-> exists req,
             In req requirements /\ req_id req = i
             /\ getTypePrefix (req_id req) = typePrefix
             /\ hasLinksOfType req linkTypes = false.
Proof.
  intros result. subst result. unfold CoverageQueries.getCoverageByTypePrefix.
  cbn [CoverageQueries.pc_total CoverageQueries.pc_covered
       CoverageQueries.pc_missing CoverageQueries.pc_percentage].
  split; [|split].
  - rewrite length_map. apply filter_split_length.
  - apply percentageOf_spec.
  - intros i. rewrite in_map_iff. split.
    + intros [req [Hid Hin]]. apply filter_In in Hin. destruct Hin as [Hin Hv].
      apply filter_In in Hin. destruct Hin as [Hin Hty].
      exists req. split; [exact Hin|]. split; [exact Hid|].
      split; [apply String.eqb_eq, Hty|].
      destruct (hasLinksOfType req linkTypes); [discriminate|reflexivity].
    + intros [req [Hin [Hid [Hty Hc]]]]. exists req. split; [exact Hid|].
      apply filter_In. split.
      * apply filter_In. split; [exact Hin|apply String.eqb_eq, Hty].
      * rewrite Hc. reflexivity.
Qed.

(** X5. In the matrix of [buildTraceabilityMatrix] every cell counts no
    more covered records than its total, and the total of a cell is the
    number of records whose id has the prefix of its row. *)
Theorem matrix_cell_bounds
  (getTypePrefix : string -> string)
  (requirements : list RequirementObject) (linkTypes : list string)
  (fromType toType : string)
  (row : list (string * CoverageQueries.MatrixCell))
  (cell : CoverageQueries.MatrixCell) :
  Js.map_get
    (CoverageQueries.buildTraceabilityMatrix getTypePrefix requirements linkTypes)
    fromType = Some row ->
  Js.map_get row toType = Some cell ->
  (CoverageQueries.cell_covered cell <= CoverageQueries.cell_total cell)%nat
  /\ CoverageQueries.cell_total cell
     = length
         (List.filter
            (fun req => String.eqb (getTypePrefix (req_id req)) fromType)
            requirements).
Proof.
  unfold CoverageQueries.buildTraceabilityMatrix. intros Hrow Hcell.
  rewrite (map_get_fold_set
             (fun fromType =>
                fold_left
                  (fun row toType =>
                     Js.map_set toType
                       {| CoverageQueries.cell_covered :=
                            CoverageQueries.coveredCount getTypePrefix requirements
                              linkTypes toType
                              (List.filter
                                 (fun req => String.eqb (getTypePrefix (req_id req)) fromType)
                                 requirements);
                          CoverageQueries.cell_total :=
                            length
                              (List.filter
                                 (fun req => String.eqb (getTypePrefix (req_id req)) fromType)
                                 requirements) |}
                       row)
                  (CoverageQueries.typePrefixesOf getTypePrefix requirements) []))
    in Hrow.
  destruct (Js.includes _ fromType); [|discriminate].
  injection Hrow as <-.
  rewrite (map_get_fold_set
             (fun toType =>
                {| CoverageQueries.cell_covered :=
                     CoverageQueries.coveredCount getTypePrefix requirements
                       linkTypes toType
                       (List.filter
                          (fun req => String.eqb (getTypePrefix (req_id req)) fromType)
                          requirements);
                   CoverageQueries.cell_total :=
                     length
                       (List.filter
                          (fun req => String.eqb (getTypePrefix (req_id req)) fromType)
                          requirements) |}))
    in Hcell.
  destruct (Js.includes _ toType); [|discriminate].
  injection Hcell as <-. simpl. split; [apply coveredCount_le|reflexivity].
Qed.

Lemma matrix_cell_bounds_witness :
  let a := Fixtures.mkReq "STK1" "requirement" None [("satisfies", ["SYS1"])] in
  let b := Fixtures.mkReq "STK2" "requirement" None [] in
  let c := Fixtures.mkReq "SYS1" "requirement" None [] in
  let cell := {| CoverageQueries.cell_covered := 1; CoverageQueries.cell_total := 2 |} in
  (CoverageQueries.cell_covered cell <= CoverageQueries.cell_total cell)%nat
  /\ CoverageQueries.cell_total cell
     = length
         (List.filter
            (fun req => String.eqb (DeepValidation.getTypePrefix (req_id req)) "STK")
            [a; b; c]).
Proof.
  intros a b c cell.
  apply (matrix_cell_bounds DeepValidation.getTypePrefix [a; b; c] ["satisfies"]
           "STK" "SYS"
           [("STK", {| CoverageQueries.cell_covered := 0; CoverageQueries.cell_total := 2 |});
            ("SYS", cell)]);
    reflexivity.
Defined.

(** X6. The overall coverage score is the integer 0, not the result of
    a division by zero, when there is no rule or when no rule has a
    source record. *)
Theorem overall_score_without_weight
  (coverage : list HierarchicalCoverage.HierarchicalCoverage) :
  List.Forall (fun c => HierarchicalCoverage.hc_total c = 0%nat) coverage ->
  CoverageQueries.getOverallCoverageScore coverage = JsNumber.JsInt 0.
Proof.
  intros H. unfold CoverageQueries.getOverallCoverageScore.
  destruct (length coverage =? 0)%nat; [reflexivity|].
  rewrite (totalWeightOf_zero coverage H). reflexivity.
Qed.

Lemma overall_score_without_weight_witness :
  CoverageQueries.getOverallCoverageScore
    [ HierarchicalCoverage.calculateCoverageForLinkType [] "tests" ["design"] ["test"] 80%Z ]
  = JsNumber.JsInt 0
  /\ CoverageQueries.getOverallCoverageScore
       [ HierarchicalCoverage.calculateCoverageForLinkType
           [ Fixtures.mkReq "A" "STK" None [("satisfies", ["B"])];
             Fixtures.mkReq "B" "SYS" None [];
             Fixtures.mkReq "C" "STK" None [] ]
           "satisfies" ["STK"] ["SYS"] 80%Z;
         HierarchicalCoverage.calculateCoverageForLinkType
           [ Fixtures.mkReq "A" "STK" None [("satisfies", ["B"])];
             Fixtures.mkReq "B" "SYS" None [];
             Fixtures.mkReq "C" "STK" None [] ]
           "implements" ["SYS"] ["DSG"] 80%Z ]
     = JsNumber.JsInt 33.
Proof.
  split.
  - apply overall_score_without_weight. repeat constructor.
  - vm_compute. reflexivity.
Defined.

(** ** Baseline stability *)

Lemma strictNe_ne a b : BaselineStability.strictNe a b = true <-> a <> b.
Proof.
  destruct a as [x|], b as [y|]; simpl; split; try congruence; try tauto.
  - intros H Heq. injection Heq as ->. rewrite String.eqb_refl in H. discriminate.
  - intros H. destruct (String.eqb_spec x y); [subst; congruence|reflexivity].
Qed.

Lemma set_add_NoDup s x : List.NoDup s -> List.NoDup (Js.set_add s x).
Proof.
  intros H. unfold Js.set_add. destruct (Js.includes s x) eqn:E; [exact H|].
  apply includes_false in E.
  apply List.NoDup_app; [exact H|repeat constructor; simpl; tauto|].
  intros y Hy [<-|[]]. contradiction.
Qed.

Lemma set_add_all_NoDup xs : forall s,
  List.NoDup s -> List.NoDup (Js.set_add_all s xs).
Proof.
  unfold Js.set_add_all. induction xs as [|x xs IH]; intros s H; simpl.
  - exact H.
  - apply IH, set_add_NoDup, H.
Qed.

Section DownstreamFacts.
Import DeepValidation GapAnalysis StatusConsistency BaselineStability.

Variable getRequirementById : list RequirementObject -> string -> option RequirementObject.

(** The targets collected in [notBaselined] are the outgoing links that
    resolve to a record without a baseline, in order. *)
Lemma checkDownstream_notBaselined requirements req outgoing :
  snd (checkDownstream getRequirementById requirements req outgoing)
  = List.filter (Statements.resolvesUnbaselined getRequirementById requirements) outgoing.
Proof.
  induction outgoing as [|t rest IH]; [reflexivity|].
  simpl. unfold Statements.resolvesUnbaselined at 1.
  destruct (getRequirementById requirements t) as [target|]; [|exact IH].
  destruct (Js.truthy (req_baseline target)); simpl.
  - destruct (strictNe _ _); simpl; exact IH.
  - f_equal. exact IH.
Qed.

Lemma checkDownstream_conflicts requirements req outgoing issue :
  In issue (fst (checkDownstream getRequirementById requirements req outgoing)) ->
  bi_id issue = req_id req /\ bi_issue issue = version_conflict
  /\ bi_severity issue = MEDIUM
  /\ exists targetId target,
       In targetId outgoing
       /\ bi_affectedIds issue = [req_id req; targetId]
       /\ getRequirementById requirements targetId = Some target
       /\ Js.truthy (req_baseline target) = true
       /\ req_baseline target <> req_baseline req.
Proof.
  induction outgoing as [|t rest IH]; simpl; [tauto|].
  assert (Hrest : In issue (fst (checkDownstream getRequirementById requirements req rest)) ->
    bi_id issue = req_id req /\ bi_issue issue = version_conflict
    /\ bi_severity issue = MEDIUM
    /\ exists targetId target,
         (t = targetId \/ In targetId rest)
         /\ bi_affectedIds issue = [req_id req; targetId]
         /\ getRequirementById requirements targetId = Some target
         /\ Js.truthy (req_baseline target) = true
         /\ req_baseline target <> req_baseline req).
  { intros H. destruct (IH H) as (H1 & H2 & H3 & tid & tg & H4 & H5).
    repeat split; try assumption. exists tid, tg. tauto. }
  destruct (getRequirementById requirements t) as [target|] eqn:Hget; [|exact Hrest].
  destruct (Js.truthy (req_baseline target)) eqn:Htr; simpl; [|exact Hrest].
  destruct (strictNe _ _) eqn:Hne; simpl; [|exact Hrest].
  intros [<-|H]; [|exact (Hrest H)]. simpl.
  repeat split. exists t, target. apply strictNe_ne in Hne. tauto.
Qed.

End DownstreamFacts.

Section BaselineFacts.
Import DeepValidation GapAnalysis StatusConsistency BaselineStability.

Variable getRequirementById : list RequirementObject -> string -> option RequirementObject.
Variable getAllOutgoingLinks : RequirementObject -> list string.

Lemma issuesFor_sound requirements config req issue :
  In issue (issuesFor getRequirementById getAllOutgoingLinks requirements config req) ->
  Statements.justifiedBy getRequirementById getAllOutgoingLinks
    requirements config req issue.
Proof.
  unfold issuesFor, Statements.justifiedBy.
  rewrite in_app_iff. intros [H|H].
  - destruct (requireApproved (baselineStability config)) eqn:Hra; simpl in H;
      [|destruct H].
    destruct (notStable req) eqn:Hns; [|destruct H].
    destruct H as [<-|[]]. simpl. tauto.
  - destruct (requireDownstreamBaselined (baselineStability config)) eqn:Hrd;
      [|destruct H].
    apply in_app_iff in H. destruct H as [H|H].
    + apply checkDownstream_conflicts in H.
      destruct H as (H1 & H2 & H3 & tid & tg & H4 & H5 & H6 & H7 & H8).
      rewrite H2. repeat split; try assumption.
      exists tid, tg. tauto.
    + rewrite checkDownstream_notBaselined in H.
      destruct (List.filter _ _) as [|t ts] eqn:Hf; simpl in H; [destruct H|].
      destruct H as [<-|[]]. simpl. repeat split. discriminate.
Qed.

End BaselineFacts.

Lemma filter_none {A : Type} (p : A -> bool) (l : list A) :
  (forall x, In x l -> p x = false) -> List.filter p l = [].
Proof.
  induction l as [|x l IH]; intros H; [reflexivity|]. simpl.
  rewrite (H x (or_introl eq_refl)). apply IH. intros y Hy. apply H. right. exact Hy.
Qed.

Lemma filter_flat_map {A B : Type} (p : B -> bool) (f : A -> list B) (l : list A) :
  List.filter p (flat_map f l) = flat_map (fun x => List.filter p (f x)) l.
Proof.
  induction l as [|x l IH]; [reflexivity|]. simpl.
  rewrite List.filter_app, IH. reflexivity.
Qed.

Section BaselineTheorems.
Import DeepValidation GapAnalysis StatusConsistency BaselineStability.

Variable getRequirementById : list RequirementObject -> string -> option RequirementObject.
Variable getAllOutgoingLinks : RequirementObject -> list string.

(** X7. Every issue of [analyzeBaselineStability] is raised for a record
    of the input that carries a baseline, and is justified by it: a
    not_approved issue (HIGH) by a status other than approved, implemented
    or baselined, with the check switched on; a version_conflict issue
    (MEDIUM) by an outgoing link that resolves to a record with another
    baseline; a downstream_not_baselined issue (MEDIUM) by the non-empty
    list of the outgoing links that resolve to records without a
    baseline, which it lists after the record's own id. A link that does
    not resolve raises nothing. *)
Theorem baseline_issue_justified requirements config issue :
  In issue (analyzeBaselineStability getRequirementById getAllOutgoingLinks
              requirements config) ->
  exists req,
    In req requirements /\ Js.truthy (req_baseline req) = true
    /\ Statements.justifiedBy getRequirementById getAllOutgoingLinks
         requirements config req issue.
Proof.
  unfold analyzeBaselineStability. rewrite in_flat_map.
  intros (req & Hreq & Hissue). apply filter_In in Hreq.
  exists req. split; [tauto|]. split; [tauto|].
  apply issuesFor_sound, Hissue.
Qed.

(** X8. The not_approved issues are exactly one per baselined record
    whose status is not approved, implemented or baselined, in input
    order, when the check is switched on, and none otherwise. *)
Theorem not_approved_issues_exact requirements config :
  map bi_id
    (List.filter (isIssue not_approved)
       (analyzeBaselineStability getRequirementById getAllOutgoingLinks
          requirements config))
  = if requireApproved (baselineStability config)
    then map req_id
           (List.filter
              (fun req => Js.truthy (req_baseline req) && notStable req)
              requirements)
    else [].
Proof.
  unfold analyzeBaselineStability. rewrite filter_flat_map.
  assert (Hone : forall req,
    map bi_id (List.filter (isIssue not_approved)
                 (issuesFor getRequirementById getAllOutgoingLinks
                    requirements config req))
    = if requireApproved (baselineStability config) && notStable req
      then [req_id req] else []).
  { intros req. unfold issuesFor. rewrite List.filter_app.
    rewrite (filter_none (isIssue not_approved)
               (if requireDownstreamBaselined _ then _ else _)).
    - rewrite app_nil_r.
      destruct (requireApproved (baselineStability config) && notStable req);
        reflexivity.
    - intros x Hx.
      destruct (requireDownstreamBaselined (baselineStability config));
        [|destruct Hx].
      apply in_app_iff in Hx. destruct Hx as [Hx|Hx].
      + apply checkDownstream_conflicts in Hx.
        destruct Hx as (_ & Hk & _). unfold isIssue. rewrite Hk. reflexivity.
      + destruct (0 <? _)%nat; [|destruct Hx].
        destruct Hx as [<-|[]]. reflexivity. }
  assert (Hall : forall l,
    map bi_id
      (flat_map
         (fun x => List.filter (isIssue not_approved)
                     (issuesFor getRequirementById getAllOutgoingLinks
                        requirements config x))
         (List.filter (fun req => Js.truthy (req_baseline req)) l))
    = if requireApproved (baselineStability config)
      then map req_id
             (List.filter
                (fun req => Js.truthy (req_baseline req) && notStable req) l)
      else []); [|apply Hall].
  induction l as [|r l IH]; simpl.
  - destruct (requireApproved _); reflexivity.
  - destruct (Js.truthy (req_baseline r)) eqn:Htr; simpl; [|exact IH].
    rewrite map_app, Hone, IH.
    destruct (requireApproved (baselineStability config)); simpl; [|reflexivity].
    destruct (notStable r); reflexivity.
Qed.

End BaselineTheorems.

Lemma baseline_issue_justified_witness :
  let a := Samples.mkBaselined "A" (Some "draft") "v1" [("satisfies", ["B"; "C"; "GONE"])] in
  let b := Samples.mkBaselined "B" (Some "approved") "v2" [] in
  let c := Fixtures.mkReq "C" "requirement" (Some "approved") [] in
  let issue :=
    {| GapAnalysis.bi_id := "A"; GapAnalysis.bi_baseline := "v1";
       GapAnalysis.bi_issue := GapAnalysis.downstream_not_baselined;
       GapAnalysis.bi_severity := MEDIUM;
       GapAnalysis.bi_affectedIds := ["A"; "C"];
       GapAnalysis.bi_details := "Baselined A links to non-baselined: C" |} in
  exists req,
    In req [a; b; c] /\ Js.truthy (req_baseline req) = true
    /\ Statements.justifiedBy DeepValidation.getRequirementById
         DeepValidation.getAllOutgoingLinks [a; b; c] Fixtures.sampleConfig req issue.
Proof.
  intros a b c issue.
  apply (baseline_issue_justified DeepValidation.getRequirementById
           DeepValidation.getAllOutgoingLinks [a; b; c] Fixtures.sampleConfig issue).
  vm_compute. tauto.
Defined.

(** ** Status consistency, continued *)

Section StatusSoundness.
Import DeepValidation GapAnalysis StatusConsistency BaselineStability.

Variable getRequirementById : list RequirementObject -> string -> option RequirementObject.

Lemma detectStatusViolation_sound fromStatus toStatus config v :
  detectStatusViolation fromStatus toStatus config = Some v ->
  Statements.violates config (Js.toLowerCase fromStatus) (Js.toLowerCase toStatus) v.
Proof.
  unfold detectStatusViolation, Statements.violates.
  destruct (enforceApprovedChain (statusConsistency config)); simpl;
  destruct (enforceImplementedChain (statusConsistency config)); simpl;
  repeat match goal with
  | |- context [String.eqb ?a ?b] => destruct (String.eqb_spec a b); simpl
  end; intros [= <-]; tauto.
Qed.

(** X9. Every reported status inconsistency comes from a link of a
    record of the input whose target resolves: the statuses it quotes
    are those of the two records (draft for an absent or empty one), and
    read in lower case they are what its violation names, under the
    switch of the configuration for approved and implemented sources. A
    baselined source is reported for a draft or a review target; no
    other target status is ever reported. The severity is HIGH or
    MEDIUM, and MEDIUM only for a violation other than baselined_to_draft
    on a source whose priority is neither critical nor high. *)
Theorem status_inconsistency_justified requirements config i :
  In i (detectStatusInconsistencies getRequirementById requirements config) ->
  exists req target targets,
    In req requirements
    /\ In (si_linkType i, targets) (req_links req) /\ In (si_toId i) targets
    /\ getRequirementById requirements (si_toId i) = Some target
    /\ si_fromId i = req_id req
    /\ si_chain i = [req_id req; si_toId i]
    /\ si_fromStatus i = Js.or_default (req_status req) "draft"
    /\ si_toStatus i = Js.or_default (req_status target) "draft"
    /\ Statements.violates config (Js.toLowerCase (si_fromStatus i))
         (Js.toLowerCase (si_toStatus i)) (si_violation i)
    /\ (si_severity i = HIGH
        \/ (si_severity i = MEDIUM /\ si_violation i <> baselined_to_draft
            /\ priorityOf req <> "critical" /\ priorityOf req <> "high")).
Proof.
  unfold detectStatusInconsistencies. rewrite in_flat_map.
  intros (req & Hreq & H). apply in_flat_map in H.
  destruct H as ([linkType targets] & Hentry & H). simpl in H.
  apply in_flat_map in H. destruct H as (targetId & Htarget & H).
  unfold checkLink in H.
  destruct (getRequirementById requirements targetId) as [target|] eqn:Hget;
    [|destruct H].
  destruct (detectStatusViolation _ _ config) as [v|] eqn:Hv; [|destruct H].
  destruct H as [<-|[]]. simpl.
  exists req, target, targets. repeat split; try assumption.
  - apply detectStatusViolation_sound, Hv.
  - unfold determineStatusInconsistencySeverity.
    destruct v; try (left; reflexivity);
      destruct (String.eqb_spec (priorityOf req) "critical"); simpl;
      try (left; reflexivity);
      destruct (String.eqb_spec (priorityOf req) "high"); simpl;
      try (left; reflexivity); right; repeat split; try assumption; discriminate.
Qed.

End StatusSoundness.

Lemma status_inconsistency_justified_witness :
  let a := Fixtures.mkReq "REQ001" "requirement" (Some "Baselined")
             [("satisfies", ["REQ002"; "GONE"])] in
  let b := Fixtures.mkReq "REQ002" "requirement" (Some "review") [] in
  let i :=
    {| StatusConsistency.si_chain := ["REQ001"; "REQ002"];
       StatusConsistency.si_fromId := "REQ001";
       StatusConsistency.si_toId := "REQ002";
       StatusConsistency.si_fromStatus := "Baselined";
       StatusConsistency.si_toStatus := "review";
       StatusConsistency.si_linkType := "satisfies";
       StatusConsistency.si_severity := HIGH;
       StatusConsistency.si_violation := StatusConsistency.baselined_to_draft |} in
  exists req target targets,
    In req [a; b]
    /\ In ("satisfies", targets) (req_links req) /\ In "REQ002" targets
    /\ DeepValidation.getRequirementById [a; b] "REQ002" = Some target
    /\ "REQ001" = req_id req
    /\ ["REQ001"; "REQ002"] = [req_id req; "REQ002"]
    /\ "Baselined" = Js.or_default (req_status req) "draft"
    /\ "review" = Js.or_default (req_status target) "draft"
    /\ Statements.violates Fixtures.sampleConfig "baselined" "review"
         StatusConsistency.baselined_to_draft
    /\ (HIGH = HIGH
        \/ (HIGH = MEDIUM
            /\ StatusConsistency.baselined_to_draft <> StatusConsistency.baselined_to_draft
            /\ priorityOf req <> "critical" /\ priorityOf req <> "high")).
Proof.
  intros a b i.
  apply (status_inconsistency_justified DeepValidation.getRequirementById
           [a; b] Fixtures.sampleConfig i).
  vm_compute. tauto.
Defined.

(** X10. [getBulkUpdateSuggestions] makes at most one suggestion, and
    makes it exactly when some inconsistency is approved_to_draft: its
    affected ids are the targets of those inconsistencies, each once, in
    order of first appearance; the list of records it is handed plays no
    part. *)
Theorem bulk_suggestion_targets inconsistencies requirements :
  let result := BaselineStability.getBulkUpdateSuggestions inconsistencies requirements in
  (length result <= 1)%nat
  /\ (result = [] <->
      forall i, In i inconsistencies ->
        StatusConsistency.si_violation i <> StatusConsistency.approved_to_draft)
  /\ (forall s, In s result ->
        List.NoDup (BaselineStability.bs_affectedIds s)
        /\ BaselineStability.bs_affectedIds s <> []
        /\ forall x, In x (BaselineStability.bs_affectedIds s) <->
             exists i, In i inconsistencies
               /\ StatusConsistency.si_violation i = StatusConsistency.approved_to_draft
               /\ StatusConsistency.si_toId i = x)
  /\ result = BaselineStability.getBulkUpdateSuggestions inconsistencies [].
Proof.
  unfold BaselineStability.getBulkUpdateSuggestions.
  assert (Hv : forall i, GapAnalysis.isViolation StatusConsistency.approved_to_draft i = true
                 <-> StatusConsistency.si_violation i = StatusConsistency.approved_to_draft).
  { intros i. unfold GapAnalysis.isViolation.
    destruct (StatusConsistency.si_violation i); split; congruence. }
  assert (Hin : forall i,
    In i (List.filter (GapAnalysis.isViolation StatusConsistency.approved_to_draft)
            inconsistencies)
    <-> In i inconsistencies
        /\ StatusConsistency.si_violation i = StatusConsistency.approved_to_draft).
  { intros i. rewrite filter_In, Hv. reflexivity. }
  remember (List.filter (GapAnalysis.isViolation StatusConsistency.approved_to_draft)
              inconsistencies) as l eqn:Hl.
  clear Hl. destruct l as [|i0 rest];
    [simpl|change (0 <? length (i0 :: rest))%nat with true; cbv iota].
  - split; [lia|]. split; [|split; [intros s []|reflexivity]].
    split; [|reflexivity]. intros _ i Hi Hvi.
    apply (proj2 (Hin i)). tauto.
  - destruct (proj1 (Hin i0) (or_introl eq_refl)) as [Hi0 Hv0].
    split; [simpl; lia|]. split; [|split; [|reflexivity]].
    + split; [discriminate|]. intros H. destruct (H i0 Hi0 Hv0).
    + intros s [<-|[]]. cbn [BaselineStability.bs_affectedIds].
      split; [apply set_add_all_NoDup; constructor|]. split.
      * intros Hnil.
        assert (Hhd : In (StatusConsistency.si_toId i0)
                        (Js.set_add_all []
                           (map StatusConsistency.si_toId (i0 :: rest)))).
        { apply set_add_all_In. right. left. reflexivity. }
        rewrite Hnil in Hhd. destruct Hhd.
      * intros x. rewrite set_add_all_In, in_map_iff. split.
        -- intros [[]|(i & <- & Hi)]. exists i. apply Hin in Hi. tauto.
        -- intros (i & Hi & Hvi & <-). right. exists i. split; [reflexivity|].
           apply Hin. tauto.
Qed.

(** ** Status ranks (utils/graphAnalysis.ts) *)

Lemma reqMapOf_get requirements : forall m k r,
  Js.map_get (fold_left (fun m r => Js.map_set (req_id r) r m) requirements m) k = Some r ->
  (In r requirements /\ req_id r = k) \/ Js.map_get m k = Some r.
Proof.
  induction requirements as [|x l IH]; intros m k r H; simpl in *.
  - right. exact H.
  - apply IH in H. destruct H as [[H1 H2]|H]; [left; tauto|].
    rewrite map_get_set in H.
    destruct (String.eqb_spec (req_id x) k) as [Heq|Hne].
    + injection H as <-. left. tauto.
    + right. exact H.
Qed.

Lemma statusRankFrom_get statusOrder : forall i m s r,
  Js.map_get (GraphQueries.statusRankFrom i statusOrder m) s = Some r ->
  ((i <= r)%nat /\ nth_error statusOrder (r - i) = Some s) \/ Js.map_get m s = Some r.
Proof.
  induction statusOrder as [|x l IH]; intros i m s r H; simpl in *.
  - right. exact H.
  - apply IH in H. destruct H as [[H1 H2]|H].
    + left. split; [lia|]. replace (r - i)%nat with (S (r - S i)) by lia. exact H2.
    + rewrite map_get_set in H.
      destruct (String.eqb_spec x s) as [Heq|Hne].
      * injection H as <-. left. split; [lia|]. rewrite Nat.sub_diag. simpl.
        congruence.
      * right. exact H.
Qed.

Lemma rankOf_position statusOrder status r :
  GraphQueries.rankOf (GraphQueries.statusRankOf statusOrder) status = Some r ->
  exists s, status = Some s /\ nth_error statusOrder r = Some s.
Proof.
  unfold GraphQueries.rankOf, GraphQueries.statusRankOf.
  destruct status as [s|]; [|discriminate]. intros H.
  apply statusRankFrom_get in H. destruct H as [[_ H]|H]; [|discriminate].
  rewrite Nat.sub_0_r in H. exists s. tauto.
Qed.

(** X11. Every issue of [checkStatusConsistency] is a warning of type
    StatusInconsistent located at a record of the input, about one of
    its link targets: both records carry a status that is listed in
    [statusOrder], the target's at an earlier position than the
    source's, and the source's position is not before [approved] (a
    guard that is void when approved is not listed, its index being -1).
    Statuses are compared as written, and a target that is missing, or
    either status missing or unlisted, raises nothing. *)
Theorem status_issue_justified requirements statusOrder issue :
  In issue (GraphQueries.checkStatusConsistency requirements statusOrder) ->
  exists req linkedReq reqStatus linkedStatus reqRank linkedRank,
    In req requirements /\ In linkedReq requirements
    /\ GraphQueries.vi_type issue = GraphQueries.StatusInconsistent
    /\ GraphQueries.vi_severity issue = "warning"
    /\ GraphQueries.vi_location issue = req_location req
    /\ GraphQueries.vi_relatedIds issue = Some [req_id linkedReq]
    /\ In (req_id linkedReq) (concat (Js.map_values (req_links req)))
    /\ req_status req = Some reqStatus /\ req_status linkedReq = Some linkedStatus
    /\ nth_error statusOrder reqRank = Some reqStatus
    /\ nth_error statusOrder linkedRank = Some linkedStatus
    /\ (linkedRank < reqRank)%nat
    /\ (GraphQueries.indexOf statusOrder "approved" <= Z.of_nat reqRank)%Z.
Proof.
  unfold GraphQueries.checkStatusConsistency. rewrite in_flat_map.
  intros (req & Hreq & H).
  destruct (Js.truthy (req_status req)); simpl in H; [|destruct H].
  destruct (GraphQueries.rankOf _ (req_status req)) as [reqRank|] eqn:Hrank;
    [|destruct H].
  apply in_flat_map in H. destruct H as (linkedIds & Hids & H).
  apply in_flat_map in H. destruct H as (linkedId & Hid & H).
  unfold GraphQueries.checkLinked in H.
  destruct (Js.map_get _ linkedId) as [linkedReq|] eqn:Hget; [|destruct H].
  destruct (Js.truthy (req_status linkedReq)); simpl in H; [|destruct H].
  destruct (GraphQueries.rankOf _ (req_status linkedReq)) as [linkedRank|] eqn:Hlrank;
    [|destruct H].
  destruct (linkedRank <? reqRank)%nat eqn:Hlt; simpl in H; [|destruct H].
  destruct (GraphQueries.indexOf statusOrder "approved" <=? Z.of_nat reqRank)%Z eqn:Hge;
    [|destruct H].
  destruct H as [<-|[]]. simpl.
  apply reqMapOf_get in Hget. destruct Hget as [[Hin Hidl]|Hget]; [|discriminate].
  apply rankOf_position in Hrank. destruct Hrank as (reqStatus & Hs & Hn).
  apply rankOf_position in Hlrank. destruct Hlrank as (linkedStatus & Hls & Hln).
  exists req, linkedReq, reqStatus, linkedStatus, reqRank, linkedRank.
  subst linkedId. repeat split; try assumption.
  - apply in_concat. exists linkedIds. tauto.
  - apply Nat.ltb_lt, Hlt.
  - apply Z.leb_le, Hge.
Qed.

Lemma status_issue_justified_witness :
  let a := Fixtures.mkReq "A" "requirement" (Some "approved") [("satisfies", ["B"; "GONE"])] in
  let b := Fixtures.mkReq "B" "requirement" (Some "draft") [("links", ["A"])] in
  let issue :=
    {| GraphQueries.vi_type := GraphQueries.StatusInconsistent;
       GraphQueries.vi_message := "'A' (approved) links to 'B' (draft)";
       GraphQueries.vi_location := req_location a;
       GraphQueries.vi_relatedIds := Some ["B"];
       GraphQueries.vi_severity := "warning" |} in
  GraphQueries.checkStatusConsistency [a; b] ["draft"; "review"; "approved"] = [issue]
  /\ exists req linkedReq reqStatus linkedStatus reqRank linkedRank,
    In req [a; b] /\ In linkedReq [a; b]
    /\ GraphQueries.vi_type issue = GraphQueries.StatusInconsistent
    /\ GraphQueries.vi_severity issue = "warning"
    /\ GraphQueries.vi_location issue = req_location req
    /\ GraphQueries.vi_relatedIds issue = Some [req_id linkedReq]
    /\ In (req_id linkedReq) (concat (Js.map_values (req_links req)))
    /\ req_status req = Some reqStatus /\ req_status linkedReq = Some linkedStatus
    /\ nth_error ["draft"; "review"; "approved"] reqRank = Some reqStatus
    /\ nth_error ["draft"; "review"; "approved"] linkedRank = Some linkedStatus
    /\ (linkedRank < reqRank)%nat
    /\ (GraphQueries.indexOf ["draft"; "review"; "approved"] "approved" <= Z.of_nat reqRank)%Z.
Proof.
  intros a b issue. split; [reflexivity|].
  apply (status_issue_justified [a; b] ["draft"; "review"; "approved"] issue).
  left. reflexivity.
Defined.

(** ** Orphans and reverse dependencies over the mock index *)

Section MockIndexFacts.
Import GraphAnalysis IndexBuilder GraphQueries.

Lemma createMockIndex_linked_from requirements : forall idx a b,
  b ∈ linked
        (linkGraph
           (fold_left
              (fun idx req =>
                 {| objects := <[req_id req := req]> (objects idx);
                    linkGraph :=
                      fold_left (fun lg linkedId => mockAddLink (req_id req) linkedId lg)
                        (targetsOf req) (ensureNode (req_id req) (linkGraph idx)) |})
              requirements idx)) a
  <-> b ∈ linked (linkGraph idx) a
      \/ exists r, In r requirements
           /\ ((req_id r = a /\ In b (targetsOf r))
               \/ (req_id r = b /\ In a (targetsOf r))).
Proof.
  induction requirements as [|x l IH]; intros idx a b; simpl.
  - split; [tauto|]. intros [H|(r & [] & _)]. exact H.
  - rewrite IH. simpl. rewrite mockAddLinks_elem, linked_ensureNode. split.
    + intros [[H|[[-> H]|[H ->]]]|(r & Hr & H)].
      * left. exact H.
      * right. exists x. tauto.
      * right. exists x. tauto.
      * right. exists r. tauto.
    + intros [H|(r & [<-|Hr] & H)].
      * tauto.
      * left. destruct H as [[<- H]|[<- H]]; tauto.
      * right. exists r. tauto.
Qed.

Lemma hasOutgoing_targets req :
  hasOutgoing req = false <-> targetsOf req = [].
Proof.
  unfold hasOutgoing, targetsOf.
  induction (Js.map_values (req_links req)) as [|ids l IH]; simpl; [tauto|].
  destruct ids as [|i ids]; simpl; [exact IH|]. split; discriminate.
Qed.

Lemma includes_concat (lists : list (list string)) x :
  existsb (fun ids => Js.includes ids x) lists = Js.includes (concat lists) x.
Proof.
  unfold Js.includes. induction lists as [|ids l IH]; simpl; [reflexivity|].
  rewrite existsb_app, IH. reflexivity.
Qed.

Lemma getReverseDependencies_from i requirements : forall dependents,
  fold_left
    (fun dependents req =>
       if existsb (fun linkedIds => Js.includes linkedIds i)
            (Js.map_values (req_links req))
       then dependents ++ [req_id req] else dependents)
    requirements dependents
  = dependents
    ++ map req_id (List.filter (fun req => Js.includes (targetsOf req) i) requirements).
Proof.
  induction requirements as [|x l IH]; intros dependents; simpl.
  - rewrite app_nil_r. reflexivity.
  - rewrite IH, includes_concat. unfold targetsOf at 2.
    destruct (Js.includes (concat (Js.map_values (req_links x))) i); simpl.
    + rewrite <- app_assoc. reflexivity.
    + reflexivity.
Qed.

Lemma getReverseDependencies_filter i requirements :
  getReverseDependencies i requirements
  = map req_id
      (List.filter (fun req => Js.includes (targetsOf req) i) requirements).
Proof.
  unfold getReverseDependencies. rewrite getReverseDependencies_from. reflexivity.
Qed.

Lemma createMockIndex_linked requirements a b :
  inLinkGraph (createMockIndex requirements) a b
  <-> exists r, In r requirements
        /\ ((req_id r = a /\ In b (targetsOf r))
            \/ (req_id r = b /\ In a (targetsOf r))).
Proof.
  unfold inLinkGraph, createMockIndex.
  rewrite createMockIndex_linked_from. simpl.
  unfold linked. rewrite lookup_empty. simpl.
  rewrite elem_of_empty. tauto.
Qed.

End MockIndexFacts.

(** X12. In the index that [createMockIndex] builds, [linkGraph] is
    exactly the symmetric closure of the declared links: [b] is a member
    of the entry of [a] if and only if some record of the input has id
    [a] and names [b] in one of its link lists, or has id [b] and names
    [a]. Link types play no part, and a target that is no record of the
    input has an entry like any other. *)
Theorem mock_index_link_graph_exact requirements a b :
  IndexBuilder.inLinkGraph (IndexBuilder.createMockIndex requirements) a b
  <-> exists r, In r requirements
        /\ ((req_id r = a /\ In b (IndexBuilder.targetsOf r))
            \/ (req_id r = b /\ In a (IndexBuilder.targetsOf r))).
Proof.
  apply createMockIndex_linked.
Qed.

(** X13. [getReverseDependencies] returns the ids of the records that
    name the id in some link list, in input order, one entry per record
    however many of its link lists name it. *)
Theorem reverse_dependencies_exact i requirements :
  GraphQueries.getReverseDependencies i requirements
  = map req_id
      (List.filter (fun req => Js.includes (IndexBuilder.targetsOf req) i) requirements).
Proof.
  apply getReverseDependencies_filter.
Qed.

(** X14. Over the index built from the same records by
    [createMockIndex], [findOrphanedRequirements] lists an id exactly
    when a record carries it, no record carrying it names any target,
    and the id has no reverse dependencies. *)
Theorem orphans_of_mock_index requirements x :
  In x (GraphAnalysis.findOrphanedRequirements requirements
          (IndexBuilder.createMockIndex requirements))
  <-> (exists r, In r requirements /\ req_id r = x)
      /\ (forall r, In r requirements -> req_id r = x -> IndexBuilder.targetsOf r = [])
      /\ GraphQueries.getReverseDependencies x requirements = [].
Proof.
  unfold GraphAnalysis.findOrphanedRequirements.
  rewrite in_map_iff.
  assert (Hinc : forall req,
    match GraphAnalysis.linkGraph (IndexBuilder.createMockIndex requirements) !! req_id req with
    | Some linkedIds => (0 <? size linkedIds)%nat
    | None => false
    end = false
    <-> forall b, ~ IndexBuilder.inLinkGraph
                      (IndexBuilder.createMockIndex requirements) (req_id req) b).
  { intros req. unfold IndexBuilder.inLinkGraph, IndexBuilder.linked.
    destruct (_ !! req_id req) as [s|]; simpl.
    - rewrite Nat.ltb_ge. split.
      + intros Hs b Hb. assert (size s = 0%nat) as Hz by lia.
        apply size_empty_iff in Hz. rewrite Hz in Hb.
        apply (proj1 (elem_of_empty b) Hb).
      + intros Hno. assert (s ≡ ∅) as Hz.
        { apply elem_of_equiv_empty. exact Hno. }
        apply size_empty_iff in Hz. lia.
    - split; [|reflexivity]. intros _ b Hb. apply (proj1 (elem_of_empty b) Hb). }
  assert (Hrev : GraphQueries.getReverseDependencies x requirements = []
                 <-> forall r, In r requirements -> ~ In x (IndexBuilder.targetsOf r)).
  { rewrite getReverseDependencies_filter. split.
    - intros Hnil r Hr Hx.
      assert (Hin : In (req_id r)
                      (map req_id
                         (List.filter
                            (fun req => Js.includes (IndexBuilder.targetsOf req) x)
                            requirements))).
      { apply in_map, filter_In. split; [exact Hr|]. apply includes_true, Hx. }
      rewrite Hnil in Hin. destruct Hin.
    - intros Hno. rewrite filter_none; [reflexivity|].
      intros r Hr. apply includes_false, Hno, Hr. }
  rewrite Hrev. split.
  - intros (req & <- & Hreq). apply filter_In in Hreq. destruct Hreq as [Hreq Hf].
    apply andb_true_iff in Hf. destruct Hf as [Hout Hin].
    apply negb_true_iff in Hout, Hin. rewrite Hinc in Hin.
    split; [exists req; tauto|]. split.
    + intros r Hr Hid. destruct (IndexBuilder.targetsOf r) as [|t ts] eqn:Ht;
        [reflexivity|].
      exfalso. apply (Hin t). apply createMockIndex_linked.
      exists r. split; [exact Hr|]. left. rewrite Ht. split; [exact Hid|left; reflexivity].
    + intros r Hr Hx. apply (Hin (req_id r)). apply createMockIndex_linked.
      exists r. split; [exact Hr|]. right. tauto.
  - intros ((req & Hreq & <-) & Hnone & Hrevs). exists req. split; [reflexivity|].
    apply filter_In. split; [exact Hreq|]. apply andb_true_iff. split.
    + apply negb_true_iff, hasOutgoing_targets, Hnone; [exact Hreq|reflexivity].
    + apply negb_true_iff, Hinc. intros b Hb.
      apply createMockIndex_linked in Hb.
      destruct Hb as (r & Hr & [[Hid Hb]|[Hid Hb]]).
      * rewrite (Hnone r Hr Hid) in Hb. destruct Hb.
      * apply (Hrevs r Hr Hb).
Qed.

(** ** Chains *)

Section FollowsFacts.

Variable R : string -> string -> Prop.

Lemma follows_snoc l x y :
  Statements.follows R (l ++ [x]) -> R x y -> Statements.follows R (l ++ [x] ++ [y]).
Proof.
  induction l as [|a l IH]; simpl; intros Hc He.
  - tauto.
  - destruct l as [|b l]; simpl in *.
    + tauto.
    + split; [tauto|]. apply IH; tauto.
Qed.

Lemma follows_suffix l l' :
  Statements.follows R (l ++ l') -> Statements.follows R l'.
Proof.
  induction l as [|a l IH]; simpl; [tauto|].
  destruct (l ++ l') as [|b rest] eqn:E.
  - destruct l; [|discriminate]. simpl in E. subst l'. intros _. exact I.
  - intros [_ H]. apply IH. exact H.
Qed.

Lemma follows_prefix l l' :
  Statements.follows R (l ++ l') -> Statements.follows R l.
Proof.
  induction l as [|a l IH]; simpl; [tauto|].
  destruct l as [|b l]; simpl in *; [tauto|].
  intros [H1 H2]. split; [exact H1|]. apply IH, H2.
Qed.

End FollowsFacts.

(** ** The cycle path is a simple cycle of the graph *)

Section ChainFacts.
Import DeepValidation CircularDependencyDetector.

Variable graph : Graph.

Lemma edge_neighbor x y edges :
  Js.map_get graph x = Some edges -> In y (neighborsOf edges) ->
  Statements.edge graph x y.
Proof.
  intros Hget Hin. exists edges. split; [exact Hget|].
  unfold neighborsOf in Hin. apply set_add_all_In in Hin.
  destruct Hin as [[]|Hin]. exact Hin.
Qed.

Lemma chain_snoc l x y :
  Statements.chain graph (l ++ [x]) -> Statements.edge graph x y ->
  Statements.chain graph (l ++ [x] ++ [y]).
Proof. apply follows_snoc. Qed.

Lemma chain_app_inv l l' :
  Statements.chain graph (l ++ l') -> Statements.chain graph l.
Proof. apply follows_prefix. Qed.

End ChainFacts.

Section CyclePathSoundness.
Import DeepValidation CircularDependencyDetector.

Variable graph : Graph.
Variable sccSet : gset string.
Variable target : string.

Lemma dfsNeighbors_sound fuel :
  Statements.sound graph sccSet target fuel ->
  forall ns p cur st found st',
    Statements.onTrack graph st ->
    path st = p ++ [cur] ->
    (forall n, In n ns -> Statements.edge graph cur n) ->
    dfsNeighbors (dfs fuel graph sccSet target) sccSet target ns st = Some (found, st') ->
    if found
    then exists mid, Statements.closedOn graph target st st' mid
    else path st' = path st /\ visited st ⊆ visited st'
         /\ Statements.onTrack graph st'.
Proof.
  intros Hrec. induction ns as [|n ns IH]; intros p cur st found st' Hst Hp Hedges; simpl.
  - intros [= <- <-]. split; [reflexivity|]. split; [reflexivity|exact Hst].
  - assert (Hns : forall n', In n' ns -> Statements.edge graph cur n').
    { intros n' Hn'. apply Hedges. right. exact Hn'. }
    destruct (bool_decide (n ∈ sccSet)); simpl; [|apply (IH p cur); assumption].
    destruct (String.eqb_spec n target) as [->|Hne]; simpl.
    + destruct (1 <? length (path st))%nat eqn:Hlen; simpl.
      * intros [= <- <-]. exists []. unfold Statements.closedOn. simpl.
        rewrite app_nil_r. destruct Hst as (Hc & Hnd & Hv).
        split; [reflexivity|]. split.
        -- rewrite Hp, <- app_assoc. apply chain_snoc; [rewrite <- Hp; exact Hc|].
           apply Hedges. left. reflexivity.
        -- split; [exact Hnd|]. apply Nat.ltb_lt, Hlen.
      * destruct (bool_decide (target ∈ visited st)) eqn:Hvis; simpl;
          [apply (IH p cur); assumption|].
        apply bool_decide_eq_false in Hvis.
        destruct (dfs fuel graph sccSet target target st) as [[f1 st1]|] eqn:Hdfs;
          [|discriminate].
        pose proof (Hrec target st f1 st1 Hst Hvis) as Hpost.
        rewrite Hdfs in Hpost. specialize (Hpost
          (or_intror (ex_intro _ p (ex_intro _ cur
             (conj Hp (Hedges target (or_introl eq_refl)))))) eq_refl).
        destruct f1.
        -- intros [= <- <-]. destruct Hpost as [mid Hmid]. exists (target :: mid).
           exact Hmid.
        -- destruct Hpost as (Hp1 & Hsub1 & Hst1). intros Hrest.
           pose proof (IH p cur st1 found st' Hst1 ltac:(congruence) Hns Hrest) as Hfin.
           destruct found.
           ++ destruct Hfin as [mid Hmid]. exists mid.
              unfold Statements.closedOn in *. rewrite <- Hp1. exact Hmid.
           ++ destruct Hfin as (Hp2 & Hsub2 & Hst2).
              split; [congruence|]. split; [etransitivity; eassumption|exact Hst2].
    + destruct (bool_decide (n ∈ visited st)) eqn:Hvis; simpl;
        [apply (IH p cur); assumption|].
      apply bool_decide_eq_false in Hvis.
      destruct (dfs fuel graph sccSet target n st) as [[f1 st1]|] eqn:Hdfs;
        [|discriminate].
      pose proof (Hrec n st f1 st1 Hst Hvis) as Hpost.
      rewrite Hdfs in Hpost. specialize (Hpost
        (or_intror (ex_intro _ p (ex_intro _ cur
           (conj Hp (Hedges n (or_introl eq_refl)))))) eq_refl).
      destruct f1.
      * intros [= <- <-]. destruct Hpost as [mid Hmid]. exists (n :: mid).
        exact Hmid.
      * destruct Hpost as (Hp1 & Hsub1 & Hst1). intros Hrest.
        pose proof (IH p cur st1 found st' Hst1 ltac:(congruence) Hns Hrest) as Hfin.
        destruct found.
        -- destruct Hfin as [mid Hmid]. exists mid.
           unfold Statements.closedOn in *. rewrite <- Hp1. exact Hmid.
        -- destruct Hfin as (Hp2 & Hsub2 & Hst2).
           split; [congruence|]. split; [etransitivity; eassumption|exact Hst2].
Qed.

Lemma removelast_snoc {A : Type} (l : list A) x : removelast (l ++ [x]) = l.
Proof. rewrite removelast_app; [|discriminate]. simpl. apply app_nil_r. Qed.

Lemma dfs_sound : forall fuel, Statements.sound graph sccSet target fuel.
Proof.
  induction fuel as [|fuel IH]; intros node st found st' Hst Hvis Hlast; simpl;
    [discriminate|].
  set (st1 := {| visited := {[node]} ∪ visited st; path := path st ++ [node] |}).
  assert (Hst1 : Statements.onTrack graph st1).
  { destruct Hst as (Hc & Hnd & Hv). unfold Statements.onTrack. simpl.
    split; [|split].
    - destruct Hlast as [Hnil|(p & cur & Hp & He)].
      + rewrite Hnil. exact I.
      + rewrite Hp, <- app_assoc. apply chain_snoc; [rewrite <- Hp; exact Hc|exact He].
    - apply List.NoDup_app; [exact Hnd|repeat constructor; simpl; tauto|].
      intros x Hx [<-|[]]. apply Hvis, Hv, Hx.
    - intros x Hx. apply in_app_or in Hx. rewrite elem_of_union, elem_of_singleton.
      destruct Hx as [Hx|[<-|[]]]; [right; apply Hv, Hx|left; reflexivity]. }
  assert (Hsub1 : visited st ⊆ visited st1) by apply union_subseteq_r.
  destruct (Js.map_get graph node) as [edges|] eqn:Hget.
  - destruct (dfsNeighbors _ _ _ _ st1) as [[f2 st2]|] eqn:Hloop; [|discriminate].
    pose proof (dfsNeighbors_sound fuel IH (neighborsOf edges) (path st) node st1
                  f2 st2 Hst1 eq_refl
                  (fun n Hn => edge_neighbor graph node n edges Hget Hn) Hloop) as Hpost.
    destruct f2.
    + intros [= <- <-]. destruct Hpost as [mid (H1 & H2 & H3 & H4)].
      exists mid. unfold Statements.closedOn. simpl in *.
      rewrite <- app_assoc in H1, H3, H4. simpl in *. tauto.
    + intros [= <- <-]. destruct Hpost as (Hp2 & Hsub2 & Hc2 & Hnd2 & Hv2). simpl.
      rewrite Hp2. simpl. rewrite removelast_snoc.
      split; [reflexivity|]. split; [etransitivity; eassumption|].
      destruct Hst as (Hc & Hnd & Hv). unfold Statements.onTrack. simpl.
      rewrite ?Hp2. simpl. rewrite ?removelast_snoc.
      split; [exact Hc|]. split; [exact Hnd|].
      intros x Hx. apply Hsub2, Hsub1, Hv, Hx.
  - intros [= <- <-]. simpl. rewrite removelast_snoc.
    split; [reflexivity|]. split; [exact Hsub1|].
    destruct Hst as (Hc & Hnd & Hv). unfold Statements.onTrack. simpl.
    rewrite ?removelast_snoc. split; [exact Hc|]. split; [exact Hnd|].
    intros x Hx. apply Hsub1, Hv, Hx.
Qed.

End CyclePathSoundness.

(** X15. [findCyclePath] returns on every component, with nodes of the
    component only. What it returns is either the component itself, when
    the search from its first node did not come back to it, or a simple
    cycle of the graph through that node: the first node, then at least
    one further node, then the first node again, with no node repeated
    in between and an edge of the graph from each node to the next. *)
Theorem cycle_path_is_simple_cycle
  (graph : DeepValidation.Graph) (scc : list string) :
  exists cycle,
    CircularDependencyDetector.findCyclePath scc graph = Some cycle
    /\ (forall x, In x cycle -> In x scc)
    /\ (cycle = scc
        \/ exists start mid,
             head scc = Some start
             /\ cycle = start :: mid ++ [start]
             /\ mid <> []
             /\ List.NoDup (start :: mid)
             /\ Statements.chain graph cycle).
Proof.
  destruct (findCyclePath_ok graph scc) as [cycle [Hf Hin]].
  exists cycle. split; [exact Hf|]. split; [exact Hin|].
  unfold CircularDependencyDetector.findCyclePath in Hf.
  destruct scc as [|startNode rest] eqn:Hscc; [injection Hf as <-; left; reflexivity|].
  rewrite <- Hscc in Hf.
  destruct (CircularDependencyDetector.dfs _ graph _ startNode startNode _)
    as [[found st]|] eqn:Hdfs; [|discriminate].
  injection Hf as <-.
  pose proof (dfs_sound graph (list_to_set scc) startNode (S (S (length scc))) startNode
                {| CircularDependencyDetector.visited := ∅;
                   CircularDependencyDetector.path := [] |} found st) as Hpost.
  rewrite Hdfs in Hpost. specialize (Hpost
    (conj I (conj (List.NoDup_nil _) (fun x (H : In x []) => match H with end)))
    (not_elem_of_empty _) (or_introl eq_refl) eq_refl).
  destruct found.
  - destruct Hpost as [mid (Hp & Hc & Hnd & Hlen)]. simpl in Hp, Hnd, Hlen.
    rewrite Hp. simpl. right. exists startNode, mid.
    split; [reflexivity|]. split; [reflexivity|].
    split; [destruct mid; [simpl in Hlen; lia|discriminate]|].
    split; [exact Hnd|]. rewrite Hp in Hc. exact Hc.
  - destruct Hpost as (Hp & _). simpl in Hp. rewrite Hp. left. exact Hscc.
Qed.

Section LinkTypeFacts.
Import DeepValidation CircularDependencyDetector.

Variable graph : Graph.

Lemma linkTypesTo_In edges to lt : forall acc,
  In lt (linkTypesTo edges to acc)
  <-> In lt acc \/ exists targets, In (lt, targets) edges /\ In to targets.
Proof.
  unfold linkTypesTo. induction edges as [|[k ts] edges IH]; intros acc; simpl.
  - split; [tauto|]. intros [H|(ts & [] & _)]. exact H.
  - rewrite IH. destruct (Js.includes ts to) eqn:Hinc.
    + apply includes_true in Hinc. rewrite set_add_In. split.
      * intros [[H| ->]|(ts' & H1 & H2)].
        -- tauto.
        -- right. exists ts. tauto.
        -- right. exists ts'. tauto.
      * intros [H|(ts' & [[= <- <-]|H1] & H2)].
        -- tauto.
        -- left. right. reflexivity.
        -- right. exists ts'. tauto.
    + apply includes_false in Hinc. split.
      * intros [H|(ts' & H1 & H2)]; [tauto|]. right. exists ts'. tauto.
      * intros [H|(ts' & [[= <- <-]|H1] & H2)].
        -- tauto.
        -- contradiction.
        -- right. exists ts'. tauto.
Qed.

Lemma linkTypesTo_NoDup edges to : forall acc,
  List.NoDup acc -> List.NoDup (linkTypesTo edges to acc).
Proof.
  unfold linkTypesTo. induction edges as [|[k ts] edges IH]; intros acc H; simpl.
  - exact H.
  - apply IH. destruct (Js.includes ts to); [apply set_add_NoDup|]; exact H.
Qed.

Lemma cycleLinkTypesFrom_NoDup cycle : forall acc,
  List.NoDup acc -> List.NoDup (cycleLinkTypesFrom cycle graph acc).
Proof.
  induction cycle as [|from cycle IH]; intros acc H; simpl; [exact H|].
  destruct cycle as [|to rest]; [exact H|].
  apply IH. destruct (Js.map_get graph from); [apply linkTypesTo_NoDup|]; exact H.
Qed.

Lemma adjacentIn_cons x l a b :
  Statements.adjacentIn (x :: l) a b
  <-> (exists rest, l = b :: rest /\ x = a) \/ Statements.adjacentIn l a b.
Proof.
  unfold Statements.adjacentIn. split.
  - intros (before & after & H). destruct before as [|y before]; simpl in H.
    + injection H as -> ->. left. exists after. tauto.
    + injection H as -> ->. right. exists before, after. reflexivity.
  - intros [(rest & -> & ->)|(before & after & ->)].
    + exists [], rest. reflexivity.
    + exists (x :: before), after. reflexivity.
Qed.

Lemma cycleLinkTypesFrom_In cycle lt : forall acc,
  In lt (cycleLinkTypesFrom cycle graph acc)
  <-> In lt acc
      \/ exists from to edges targets,
           Statements.adjacentIn cycle from to
           /\ Js.map_get graph from = Some edges
           /\ In (lt, targets) edges /\ In to targets.
Proof.
  induction cycle as [|x cycle IH]; intros acc.
  - simpl. split; [tauto|].
    intros [H|(from & to & _ & _ & (before & after & H) & _)]; [exact H|].
    destruct before; discriminate.
  - destruct cycle as [|y rest].
    + simpl. split; [tauto|].
      intros [H|(from & to & _ & _ & (before & after & H) & _)]; [exact H|].
      destruct before as [|? [|? ?]]; discriminate.
    + change (cycleLinkTypesFrom (x :: y :: rest) graph acc)
        with (cycleLinkTypesFrom (y :: rest) graph
                (match Js.map_get graph x with
                 | Some edges => linkTypesTo edges y acc
                 | None => acc
                 end)).
      rewrite IH. split.
      * intros [H|(from & to & edges & targets & Hadj & H)].
        -- destruct (Js.map_get graph x) as [edges|] eqn:Hget; [|tauto].
           apply linkTypesTo_In in H. destruct H as [H|(targets & H1 & H2)]; [tauto|].
           right. exists x, y, edges, targets. split; [|tauto].
           exists [], rest. reflexivity.
        -- right. exists from, to, edges, targets. split; [|exact H].
           apply adjacentIn_cons. right. exact Hadj.
      * intros [H|(from & to & edges & targets & Hadj & Hget & H)].
        -- left. destruct (Js.map_get graph x); [apply linkTypesTo_In|]; tauto.
        -- apply adjacentIn_cons in Hadj.
           destruct Hadj as [(rest' & [= <- <-] & ->)|Hadj].
           ++ left. rewrite Hget. apply linkTypesTo_In. right. exists targets. exact H.
           ++ right. exists from, to, edges, targets. tauto.
Qed.

End LinkTypeFacts.

(** X16. The link types that [getCycleLinkTypes] reports for a path are
    exactly the types under which some node of the path links to the
    node that follows it, each listed once. *)
Theorem cycle_link_types_exact (graph : DeepValidation.Graph) (cycle : list string) :
  List.NoDup (CircularDependencyDetector.getCycleLinkTypes cycle graph)
  /\ forall linkType,
       In linkType (CircularDependencyDetector.getCycleLinkTypes cycle graph)
       <-> exists from to edges targets,
             Statements.adjacentIn cycle from to
             /\ Js.map_get graph from = Some edges
             /\ In (linkType, targets) edges /\ In to targets.
Proof.
  unfold CircularDependencyDetector.getCycleLinkTypes. split.
  - apply cycleLinkTypesFrom_NoDup. constructor.
  - intros linkType. rewrite cycleLinkTypesFrom_In. simpl. tauto.
Qed.

Section ReportedCycles.
Import DeepValidation CircularDependencyDetector.

Variable graph : Graph.
Variable config : DeepValidationConfig.

Lemma cyclesOfSccs_In components : forall cs c,
  cyclesOfSccs graph config components = Some cs -> In c cs ->
  exists scc cs0, In scc components /\ cyclesOfScc graph config scc = Some cs0 /\ In c cs0.
Proof.
  induction components as [|scc rest IH]; intros cs c; simpl.
  - intros [= <-] [].
  - destruct (cyclesOfScc graph config scc) as [cs0|] eqn:H0; [|discriminate].
    destruct (cyclesOfSccs graph config rest) as [cs'|]; [|discriminate].
    intros [= <-] Hin. apply in_app_or in Hin. destruct Hin as [Hin|Hin].
    + exists scc, cs0. split; [left; reflexivity|tauto].
    + destruct (IH cs' c eq_refl Hin) as (scc' & cs1 & H1 & H2).
      exists scc', cs1. split; [right; exact H1|exact H2].
Qed.

Lemma detectCyclesInGraph_total :
  exists cycles, detectCyclesInGraph graph config = Some cycles.
Proof.
  unfold detectCyclesInGraph.
  destruct (exist_fresh (Statements.universe graph)) as [r Hr].
  destruct (components_ok graph r "" (or_introl Hr)) as [components [Hc _]].
  rewrite Hc. clear Hc.
  induction components as [|scc rest IH]; simpl.
  - exists []. reflexivity.
  - destruct (cyclesOfScc_ok graph config scc) as [cs [Hcs _]].
    destruct IH as [cs' Hcs']. rewrite Hcs, Hcs'. eexists. reflexivity.
Qed.

Lemma findCyclePath_length scc cycle :
  (1 < length scc)%nat -> findCyclePath scc graph = Some cycle ->
  (1 < length cycle)%nat.
Proof.
  intros Hlen Hf. unfold findCyclePath in Hf.
  destruct scc as [|startNode rest] eqn:Hscc; [simpl in Hlen; lia|].
  rewrite <- Hscc in Hf.
  destruct (dfs _ graph _ startNode startNode _) as [[found st]|] eqn:Hdfs;
    [|discriminate].
  injection Hf as <-.
  pose proof (dfs_sound graph (list_to_set scc) startNode (S (S (length scc))) startNode
                {| visited := ∅; path := [] |} found st) as Hpost.
  rewrite Hdfs in Hpost. specialize (Hpost
    (conj I (conj (List.NoDup_nil _) (fun x (H : In x []) => match H with end)))
    (not_elem_of_empty _) (or_introl eq_refl) eq_refl).
  destruct found.
  - destruct Hpost as [mid (Hp & _)]. simpl in Hp. rewrite Hp. simpl.
    rewrite length_app. simpl. lia.
  - destruct Hpost as (Hp & _). simpl in Hp. rewrite Hp. simpl. rewrite Hscc. exact Hlen.
Qed.

End ReportedCycles.

(** X17. Cycle detection returns on every graph, and every cycle it
    reports has a path one longer than its reported length, which is at
    least 1. A report is either a self-loop, the path being the node
    twice, with severity HIGH whatever the configuration and with every
    link type of the node listed, those of its other links included; or
    it comes from a component of several nodes, with its severity read
    from the configuration at the reported length plus one and its link
    types those along the path. *)
Theorem reported_cycles_shape
  (graph : DeepValidation.Graph) (config : DeepValidation.DeepValidationConfig) :
  exists cycles,
    CircularDependencyDetector.detectCyclesInGraph graph config = Some cycles
    /\ forall c, In c cycles ->
         length (CircularDependencyDetector.cd_cycle c)
         = S (CircularDependencyDetector.cd_length c)
         /\ (1 <= CircularDependencyDetector.cd_length c)%nat
         /\ ((exists node edges,
                CircularDependencyDetector.cd_cycle c = [node; node]
                /\ Js.map_get graph node = Some edges
                /\ Statements.edge graph node node
                /\ CircularDependencyDetector.cd_severity c = HIGH
                /\ CircularDependencyDetector.cd_linkTypes c = Js.map_keys edges)
             \/ (CircularDependencyDetector.cd_severity c
                 = CircularDependencyDetector.determineCycleSeverity
                     (S (CircularDependencyDetector.cd_length c)) config
                 /\ CircularDependencyDetector.cd_linkTypes c
                    = CircularDependencyDetector.getCycleLinkTypes
                        (CircularDependencyDetector.cd_cycle c) graph)).
Proof.
  destruct (detectCyclesInGraph_total graph config) as [cycles Hc].
  exists cycles. split; [exact Hc|]. intros c Hin.
  unfold CircularDependencyDetector.detectCyclesInGraph in Hc.
  destruct (CircularDependencyDetector.findStronglyConnectedComponents graph)
    as [components|]; [|discriminate].
  destruct (cyclesOfSccs_In graph config components cycles c Hc Hin)
    as (scc & cs0 & _ & Hscc & Hc0).
  unfold CircularDependencyDetector.cyclesOfScc in Hscc.
  destruct (1 <? length scc)%nat eqn:Hlen.
  - apply Nat.ltb_lt in Hlen.
    destruct (CircularDependencyDetector.findCyclePath scc graph) as [cycle|] eqn:Hf;
      [|discriminate].
    pose proof (findCyclePath_length graph scc cycle Hlen Hf) as Hcl.
    injection Hscc as <-. destruct Hc0 as [<-|[]]. simpl.
    split; [lia|]. split; [lia|]. right.
    replace (S (length cycle - 1)) with (length cycle) by lia. split; reflexivity.
  - destruct scc as [|node [|? ?]]; try (injection Hscc as <-; destruct Hc0).
    destruct (Js.map_get graph node) as [edges|] eqn:Hget;
      [|injection Hscc as <-; destruct Hc0].
    destruct (existsb _ _) eqn:Hex; [|injection Hscc as <-; destruct Hc0].
    injection Hscc as <-. destruct Hc0 as [<-|[]]. simpl.
    split; [reflexivity|]. split; [lia|]. left. exists node, edges.
    repeat split; try assumption.
    exists edges. split; [exact Hget|].
    apply existsb_exists in Hex. destruct Hex as (targets & Ht & Hinc).
    apply includes_true in Hinc. apply in_concat. exists targets. tauto.
Qed.

(** ** The search for the shortest cycle through a link *)

Section MinimalCycleFacts.
Import DeepValidation CircularDependencyDetector MinimalCycle.

Variable graph : Graph.
Variables fromId toId : string.

Lemma chain_snoc_path p node y :
  Statements.chain graph (p ++ [node]) -> Statements.edge graph node y ->
  Statements.chain graph ((p ++ [node]) ++ [y]).
Proof.
  intros Hc He. rewrite <- app_assoc. apply chain_snoc; assumption.
Qed.

Lemma head_app_cons {A : Type} (l l' : list A) x :
  head l = Some x -> head (l ++ l') = Some x.
Proof. destruct l; [discriminate|]. simpl. tauto. Qed.

(** One pass over the neighbours of the dequeued node [node], whose
    chain is [path]. *)
Lemma scanNeighbors_ok node path : forall ns visited queue,
  head path = Some toId -> (exists p, path = p ++ [node]) ->
  Statements.chain graph path ->
  (forall n, In n ns -> Statements.edge graph node n /\ n ∈ Statements.universe graph) ->
  Statements.tracked graph toId queue ->
  match scanNeighbors fromId path ns visited queue with
  | inl cycle =>
      cycle = fromId :: path /\ Statements.chain graph (path ++ [fromId])
  | inr (visited', queue') =>
      Statements.tracked graph toId queue'
      /\ visited ⊆ visited'
      /\ (forall n, In n ns -> n ∈ visited' /\ n <> fromId)
      /\ (forall x, x ∈ visited' -> x ∈ visited \/ In x (map fst queue'))
      /\ (forall x, In x (map fst queue) -> In x (map fst queue'))
      /\ (Statements.pending graph visited' queue'
          <= Statements.pending graph visited queue)%nat
      /\ exists added,
           queue' = queue ++ added
           /\ forall y p, In (y, p) added -> p = path ++ [y] /\ y ∉ visited
  end.
Proof.
  induction ns as [|n ns IH]; intros visited queue Hhead Hlast Hchain Hns Htr; simpl.
  - split; [exact Htr|]. split; [reflexivity|]. split; [intros n []|].
    split; [tauto|]. split; [tauto|]. split; [lia|].
    exists []. rewrite app_nil_r. split; [reflexivity|intros y p []].
  - destruct (Hns n (or_introl eq_refl)) as [Hedge Huni].
    assert (Hns' : forall n', In n' ns ->
              Statements.edge graph node n' /\ n' ∈ Statements.universe graph).
    { intros n' Hn'. apply Hns. right. exact Hn'. }
    destruct (String.eqb_spec n fromId) as [->|Hne].
    + split; [reflexivity|]. destruct Hlast as [p ->].
      apply chain_snoc_path; assumption.
    + destruct (bool_decide (n ∈ visited)) eqn:Hvis; simpl.
      * apply bool_decide_eq_true in Hvis.
        specialize (IH visited queue Hhead Hlast Hchain Hns' Htr).
        destruct (scanNeighbors fromId path ns visited queue) as [cycle|[v q]];
          [exact IH|].
        destruct IH as (H1 & H2 & H3 & H4 & H5 & H6 & H7).
        split; [exact H1|]. split; [exact H2|]. split; [|tauto].
        intros n' [<-|Hn']; [split; [apply H2, Hvis|exact Hne]|apply H3, Hn'].
      * apply bool_decide_eq_false in Hvis.
        assert (Htr' : Statements.tracked graph toId (queue ++ [(n, path ++ [n])])).
        { intros nd pth Hin. apply in_app_or in Hin.
          destruct Hin as [Hin|[[= <- <-]|[]]]; [apply Htr, Hin|].
          split; [apply head_app_cons, Hhead|]. split; [exists path; reflexivity|].
          destruct Hlast as [p ->]. apply chain_snoc_path; assumption. }
        specialize (IH ({[n]} ∪ visited) (queue ++ [(n, path ++ [n])])
                      Hhead Hlast Hchain Hns' Htr').
        destruct (scanNeighbors fromId path ns _ _) as [cycle|[v q]]; [exact IH|].
        destruct IH as (H1 & H2 & H3 & H4 & H5 & H6 & (added & Hq & Hadded)).
        assert (Hsub : visited ⊆ v).
        { intros x Hx. apply H2, elem_of_union. right. exact Hx. }
        assert (Hnv : n ∈ v).
        { apply H2, elem_of_union. left. apply elem_of_singleton. reflexivity. }
        split; [exact H1|]. split; [exact Hsub|]. split; [|split; [|split; [|split]]].
        -- intros n' [<-|Hn']; [tauto|apply H3, Hn'].
        -- intros x Hx. destruct (H4 x Hx) as [Hx'|Hx']; [|tauto].
           apply elem_of_union in Hx'. destruct Hx' as [Hx'|Hx']; [|tauto].
           apply elem_of_singleton in Hx'. subst x. right. apply H5.
           rewrite map_app. apply in_or_app. right. left. reflexivity.
        -- intros x Hx. apply H5. rewrite map_app. apply in_or_app. left. exact Hx.
        -- unfold Statements.pending in *. rewrite length_app in H6. simpl in H6.
           assert (Hlt : (size (Statements.universe graph ∖ ({[n]} ∪ visited))
                          < size (Statements.universe graph ∖ visited))%nat).
           { apply subset_size. split.
             - intros x. rewrite !elem_of_difference, elem_of_union. tauto.
             - intros H. specialize (H n).
               rewrite !elem_of_difference, elem_of_union, elem_of_singleton in H.
               tauto. }
           lia.
        -- exists ((n, path ++ [n]) :: added). split.
           ++ rewrite Hq, <- app_assoc. reflexivity.
           ++ intros y p [[= <- <-]|Hin]; [split; [reflexivity|exact Hvis]|].
              destruct (Hadded y p Hin) as [Hp Hy]. split; [exact Hp|].
              intros Hyv. apply Hy, elem_of_union. right. exact Hyv.
Qed.

Lemma neighbors_edge node edges n :
  Js.map_get graph node = Some edges -> In n (neighborsOf edges) ->
  Statements.edge graph node n /\ n ∈ Statements.universe graph.
Proof.
  intros Hget Hn. split.
  - apply (edge_neighbor graph node n edges Hget Hn).
  - apply (neighbors_universe graph node edges n Hget Hn).
Qed.

Lemma edge_inv node edges y :
  Js.map_get graph node = Some edges -> Statements.edge graph node y ->
  In y (neighborsOf edges).
Proof.
  intros Hget (edges' & Hget' & Hy). rewrite Hget in Hget'. injection Hget' as <-.
  unfold neighborsOf. apply set_add_all_In. right. exact Hy.
Qed.

Lemma near_mono k k' x :
  (k <= k')%nat -> Statements.near graph toId k x -> Statements.near graph toId k' x.
Proof. intros Hk (c & Hc & Hlen). exists c. split; [exact Hc|lia]. Qed.

(** A node close to [toId] that no entry of the queue can hold has been
    expanded. *)
Lemma expanded_within visited queue d m :
  (forall x, Statements.near graph toId d x -> x ∈ visited) ->
  (forall x p, In (x, p) queue ->
     (m <= length p)%nat
     /\ forall c, Statements.chainTo graph toId x c -> (length p <= length c)%nat) ->
  Statements.explored graph fromId visited queue ->
  forall k z, (k <= d)%nat -> (k < m)%nat -> Statements.near graph toId k z ->
    forall y, Statements.edge graph z y -> y ∈ visited /\ y <> fromId.
Proof.
  intros Hnear Hqueue Hex k z Hkd Hkm Hz.
  assert (Hzv : z ∈ visited) by (apply Hnear, (near_mono k d z Hkd Hz)).
  destruct (Hex z Hzv) as [Hin|Hdone]; [|exact Hdone].
  exfalso. apply in_map_iff in Hin. destruct Hin as ([z' p] & Hfst & Hin).
  simpl in Hfst. subst z'. destruct (Hqueue z p Hin) as [Hm Hshort].
  destruct Hz as (c & Hc & Hlen). specialize (Hshort c Hc). lia.
Qed.

(** A chain of more than one node ends with an edge from a node one
    step closer. *)
Lemma chainTo_last x c :
  Statements.chainTo graph toId x c -> (1 < length c)%nat ->
  exists z c', c = c' ++ [x] /\ Statements.chainTo graph toId z c'
    /\ Statements.edge graph z x.
Proof.
  intros (Hhead & (p & ->) & Hchain) Hlen.
  rewrite length_app in Hlen. simpl in Hlen.
  destruct (exists_last (l := p)) as (q & z & ->);
    [intros ->; simpl in Hlen; lia|].
  exists z, (q ++ [z]). split; [reflexivity|]. split.
  - split; [|split].
    + destruct q; simpl in *; exact Hhead.
    + exists q. reflexivity.
    + apply (chain_app_inv graph _ [x] Hchain).
  - rewrite <- app_assoc in Hchain.
    apply (follows_suffix _ q) in Hchain. simpl in Hchain. tauto.
Qed.

(** When the first level of the queue is used up, the second one becomes
    the first. *)
Lemma levelled_front visited node path rest d :
  Statements.levelled graph toId visited ((node, path) :: rest) d ->
  Statements.explored graph fromId visited ((node, path) :: rest) ->
  exists d',
    length path = d'
    /\ (forall x, Statements.near graph toId d' x -> x ∈ visited)
    /\ exists lo hi,
         rest = lo ++ hi
         /\ List.Forall (fun e => length (snd e) = d') lo
         /\ List.Forall (fun e => length (snd e) = S d') hi.
Proof.
  intros ((lo & hi & Hq & Hlo & Hhi) & Hto & Hnear & Hshort) Hex.
  destruct lo as [|e lo].
  - simpl in Hq. subst hi.
    pose proof Hhi as Hhi'. apply List.Forall_cons_iff in Hhi'.
    destruct Hhi' as [Hp Hrest]. simpl in Hp.
    exists (S d). split; [exact Hp|]. split.
    + intros x (c & Hc & Hlen).
      destruct (Nat.le_gt_cases (length c) d) as [Hle|Hgt].
      { apply Hnear. exists c. tauto. }
      destruct (Nat.le_gt_cases (length c) 1) as [Hone|Hmore].
      { destruct Hc as (Hhead & (p & ->) & _). rewrite length_app in Hone.
        simpl in Hone. destruct p; [|simpl in Hone; lia].
        simpl in Hhead. injection Hhead as ->. exact Hto. }
      destruct (chainTo_last x c Hc Hmore) as (z & c' & -> & Hc' & Hedge).
      rewrite length_app in Hlen, Hgt. simpl in Hlen, Hgt.
      apply (expanded_within visited ((node, path) :: rest) d (S d) Hnear) with
        (k := length c') (z := z); try lia; try assumption.
      * intros y p Hin. split; [|apply (Hshort y p Hin)].
        pose proof (proj1 (List.Forall_forall _ _) Hhi (y, p) Hin) as Hl.
        simpl in Hl. lia.
      * exists c'. split; [exact Hc'|lia].
    + exists rest, []. rewrite app_nil_r. split; [reflexivity|].
      split; [exact Hrest|constructor].
  - simpl in Hq. injection Hq as <- ->.
    apply List.Forall_cons_iff in Hlo. destruct Hlo as [Hp Hrest].
    simpl in Hp. exists d. split; [exact Hp|]. split; [exact Hnear|].
    exists lo, hi. tauto.
Qed.

(** The loop ends within its fuel, and what it returns is right: a cycle
    is [fromId] followed by a shortest chain from [toId] that reaches
    it, and [null] comes with every visited node expanded. *)
Lemma bfs_ok : forall fuel visited queue d,
  Statements.tracked graph toId queue ->
  Statements.explored graph fromId visited queue ->
  Statements.levelled graph toId visited queue d ->
  (Statements.pending graph visited queue < fuel)%nat ->
  exists result,
    bfs fuel fromId graph visited queue = Some result
    /\ match result with
       | Some cycle =>
           exists path, cycle = fromId :: path /\ head path = Some toId
             /\ Statements.chain graph (path ++ [fromId])
             /\ forall path', head path' = Some toId ->
                  Statements.chain graph (path' ++ [fromId]) ->
                  (length path <= length path')%nat
       | None =>
           exists visited', visited ⊆ visited'
             /\ forall x, x ∈ visited' ->
                  forall y, Statements.edge graph x y -> y ∈ visited' /\ y <> fromId
       end.
Proof.
  induction fuel as [|fuel IH]; intros visited queue d Htr Hex Hlev Hfuel; [lia|].
  simpl. destruct queue as [|[node path] queue'].
  - exists None. split; [reflexivity|]. exists visited. split; [reflexivity|].
    intros x Hx. destruct (Hex x Hx) as [[]|H]. exact H.
  - destruct (Htr node path (or_introl eq_refl)) as (Hhead & Hlast & Hchain).
    assert (Htr' : Statements.tracked graph toId queue').
    { intros nd pth Hin. apply Htr. right. exact Hin. }
    destruct (levelled_front visited node path queue' d Hlev Hex)
      as (d' & Hlen & Hnear & lo & hi & Hq & Hlo & Hhi).
    destruct Hlev as (_ & Hto & _ & Hshort).
    assert (Hlevels : forall x p, In (x, p) ((node, path) :: queue') ->
              (d' <= length p)%nat
              /\ forall c, Statements.chainTo graph toId x c ->
                   (length p <= length c)%nat).
    { intros x p Hin. split; [|apply (Hshort x p Hin)].
      destruct Hin as [[= <- <-]|Hin]; [lia|].
      rewrite Hq in Hin. apply in_app_or in Hin. destruct Hin as [Hin|Hin].
      - pose proof (proj1 (List.Forall_forall _ _) Hlo (x, p) Hin) as Hl.
        simpl in Hl. lia.
      - pose proof (proj1 (List.Forall_forall _ _) Hhi (x, p) Hin) as Hl.
        simpl in Hl. lia. }
    assert (Hrest : forall visited',
              visited ⊆ visited' ->
              Statements.levelled graph toId visited' queue' d').
    { intros v Hsub. split; [exists lo, hi; tauto|]. split; [apply Hsub, Hto|].
      split; [intros x Hx; apply Hsub, Hnear, Hx|].
      intros x p Hin. apply Hshort. right. exact Hin. }
    destruct (Js.map_get graph node) as [edges|] eqn:Hget.
    + pose proof (scanNeighbors_ok node path (neighborsOf edges) visited queue'
                    Hhead Hlast Hchain
                    (fun n Hn => neighbors_edge node edges n Hget Hn) Htr') as Hscan.
      destruct (scanNeighbors fromId path (neighborsOf edges) visited queue')
        as [cycle|[v q]].
      * exists (Some cycle). split; [reflexivity|]. exists path.
        destruct Hscan as [Hcycle Hclosed].
        split; [exact Hcycle|]. split; [exact Hhead|]. split; [exact Hclosed|].
        intros path' Hhead' Hchain'.
        destruct (Nat.le_gt_cases (length path) (length path')) as [Hle|Hgt];
          [exact Hle|exfalso].
        destruct path' as [|a l]; [discriminate|].
        destruct (exists_last (l := a :: l)) as (q & z & Hsplit); [discriminate|].
        rewrite Hsplit in Hchain', Hhead', Hgt.
        assert (Hz : Statements.chainTo graph toId z (q ++ [z])).
        { split; [exact Hhead'|]. split; [exists q; reflexivity|].
          apply (chain_app_inv graph _ [fromId] Hchain'). }
        assert (Hedge : Statements.edge graph z fromId).
        { rewrite <- app_assoc in Hchain'.
          apply (follows_suffix _ q) in Hchain'. simpl in Hchain'. tauto. }
        destruct (expanded_within visited ((node, path) :: queue') d' d' Hnear Hlevels Hex
                    (length (q ++ [z])) z ltac:(lia) ltac:(lia)
                    (ex_intro _ (q ++ [z]) (conj Hz (Nat.le_refl _))) fromId Hedge)
          as [_ Hne].
        congruence.
      * destruct Hscan as (H1 & H2 & H3 & H4 & H5 & H6 & (added & Hadd & Hadded)).
        destruct (IH v q d' H1) as [result [Hres Hpost]].
        -- intros x Hx. destruct (H4 x Hx) as [Hx'|Hx']; [|left; exact Hx'].
           destruct (Hex x Hx') as [[Heq|Hq']|Hdone].
           ++ simpl in Heq. subst x. right. intros y Hy.
              apply H3, (edge_inv node edges y Hget Hy).
           ++ left. apply H5, Hq'.
           ++ right. intros y Hy. destruct (Hdone y Hy). split; [apply H2|]; assumption.
        -- destruct (Hrest v H2) as (_ & Hto' & Hnear' & Hshort').
           split; [|split; [exact Hto'|split; [exact Hnear'|]]].
           ++ exists lo, (hi ++ added). split; [rewrite Hadd, Hq, app_assoc; reflexivity|].
              split; [exact Hlo|]. apply Forall_app. split; [exact Hhi|].
              apply List.Forall_forall. intros [y p] Hin.
              destruct (Hadded y p Hin) as [-> _]. simpl. rewrite length_app. simpl. lia.
           ++ intros x p Hin c Hc. rewrite Hadd in Hin. apply in_app_or in Hin.
              destruct Hin as [Hin|Hin]; [apply (Hshort' x p Hin c Hc)|].
              destruct (Hadded x p Hin) as [-> Hfresh].
              rewrite length_app. simpl.
              destruct (Nat.le_gt_cases (length c) d') as [Hle|Hgt]; [|lia].
              exfalso. apply Hfresh, Hnear. exists c. tauto.
        -- unfold Statements.pending in *. simpl in Hfuel. lia.
        -- exists result. split; [exact Hres|]. destruct result as [cycle|]; [exact Hpost|].
           destruct Hpost as (v' & Hv' & Hclosed). exists v'.
           split; [etransitivity; eassumption|exact Hclosed].
    + destruct (IH visited queue' d' Htr') as [result [Hres Hpost]].
      * intros x Hx. destruct (Hex x Hx) as [[Heq|Hq']|Hdone].
        -- simpl in Heq. subst x. right. intros y (edges & Hget' & _). congruence.
        -- left. exact Hq'.
        -- right. exact Hdone.
      * apply Hrest. reflexivity.
      * unfold Statements.pending in *. simpl in Hfuel. lia.
      * exists result. tauto.
Qed.

Lemma closed_no_chain (visited : gset string) :
  (forall x, x ∈ visited ->
     forall y, Statements.edge graph x y -> y ∈ visited /\ y <> fromId) ->
  forall l x, x ∈ visited -> ~ Statements.chain graph (x :: l ++ [fromId]).
Proof.
  intros Hclosed. induction l as [|y l IH]; intros x Hx; simpl.
  - intros [He _]. destruct (Hclosed x Hx fromId He) as [_ Hne]. congruence.
  - intros [He Hc]. destruct (Hclosed x Hx y He) as [Hy _]. apply (IH y Hy Hc).
Qed.

End MinimalCycleFacts.

(** X18. [findMinimalCycle] returns on every graph. A cycle it returns
    is [fromId] followed by a path that starts at [toId] and follows
    edges of the graph back to [fromId], and no path from [toId] back
    to [fromId] is shorter; it returns [null] only when no path from
    [toId] follows edges of the graph to [fromId]. *)
Theorem minimal_cycle_search_correct
  (graph : DeepValidation.Graph) (fromId toId : string) :
  exists result,
    MinimalCycle.findMinimalCycle fromId toId graph = Some result
    /\ match result with
       | Some cycle =>
           exists path, cycle = fromId :: path /\ head path = Some toId
             /\ Statements.chain graph (path ++ [fromId])
             /\ forall path', head path' = Some toId ->
                  Statements.chain graph (path' ++ [fromId]) ->
                  (length path <= length path')%nat
       | None =>
           forall path, head path = Some toId ->
             ~ Statements.chain graph (path ++ [fromId])
       end.
Proof.
  unfold MinimalCycle.findMinimalCycle.
  destruct (bfs_ok graph fromId toId
              (S (S (length (CircularDependencyDetector.graphNodes graph))))
              {[toId]} [(toId, [toId])] 1) as [result [Hres Hpost]].
  - intros node path [[= <- <-]|[]]. split; [reflexivity|].
    split; [exists []; reflexivity|exact I].
  - intros x Hx. apply elem_of_singleton in Hx. subst x. left. left. reflexivity.
  - split; [|split; [|split]].
    + exists [(toId, [toId])], []. split; [reflexivity|].
      split; [repeat constructor|constructor].
    + apply elem_of_singleton. reflexivity.
    + intros x (c & (Hhead & (p & ->) & _) & Hlen).
      rewrite length_app in Hlen. simpl in Hlen.
      destruct p; [|simpl in Hlen; lia]. simpl in Hhead. injection Hhead as ->.
      apply elem_of_singleton. reflexivity.
    + intros x p [[= <- <-]|[]] c (Hhead & _). destruct c; [discriminate|].
      simpl. lia.
  - unfold Statements.pending. simpl.
    pose proof (size_list_to_set_le (CircularDependencyDetector.graphNodes graph)).
    assert (size (Statements.universe graph ∖ {[toId]})
            <= size (Statements.universe graph))%nat.
    { apply subseteq_size. intros y. rewrite elem_of_difference. tauto. }
    unfold Statements.universe in *. lia.
  - exists result. split; [exact Hres|]. destruct result as [cycle|]; [exact Hpost|].
    destruct Hpost as (visited & Hsub & Hclosed).
    intros path Hhead. destruct path as [|x l]; [discriminate|].
    injection Hhead as ->. simpl.
    apply (closed_no_chain graph fromId visited Hclosed l toId).
    apply Hsub, elem_of_singleton. reflexivity.
Qed.

(** ** The depth-first cycle detector of graphAnalysis.ts *)

Section DepthFirstFacts.
Import GraphAnalysis.

Variable graph : list (string * list string).

Lemma sliceFrom_spec x : forall p c,
  sliceFrom x p = Some c -> exists pre rest, p = pre ++ c /\ c = x :: rest.
Proof.
  induction p as [|y p IH]; intros c; simpl; [discriminate|].
  destruct (String.eqb_spec y x) as [->|Hne].
  - intros [= <-]. exists [], p. split; reflexivity.
  - intros H. destruct (IH c H) as (pre & rest & -> & ->).
    exists (y :: pre), rest. split; reflexivity.
Qed.

Lemma suffix_last {A : Type} (pre c p : list A) (cur : A) :
  p ++ [cur] = pre ++ c -> c <> [] -> exists q, c = q ++ [cur].
Proof.
  intros H Hc. destruct (exists_last Hc) as (q & z & ->).
  rewrite app_assoc in H. apply app_inj_tail in H. destruct H as [_ ->].
  exists q. reflexivity.
Qed.

Lemma map_has_known k : Js.map_has graph k = true -> k ∈ Statements.known graph.
Proof.
  unfold Js.map_has, Statements.known.
  destruct (Js.map_get graph k) as [v|] eqn:Hget; [|discriminate]. intros _.
  apply elem_of_list_to_set, list_elem_of_In.
  apply map_get_In in Hget. unfold Js.map_keys.
  apply (in_map fst) in Hget. exact Hget.
Qed.

Lemma unseen_mono st st' :
  visited st ⊆ visited st' ->
  (Statements.unseen graph st' <= Statements.unseen graph st)%nat.
Proof.
  intros H. unfold Statements.unseen. apply subseteq_size.
  intros x. rewrite !elem_of_difference. intros [Hx Hv]. split; [exact Hx|].
  intros Hv'. apply Hv, H, Hv'.
Qed.

Lemma dfsNeighbors_returns fuel :
  Statements.explores graph fuel ->
  forall ns p cur st,
    path st = p ++ [cur] ->
    (forall n, In n ns -> Statements.linkedTo graph cur n) ->
    (Statements.unseen graph st <= fuel)%nat ->
    Statements.steady graph st ->
    exists st',
      dfsNeighbors (dfs fuel graph) graph ns st = Some st'
      /\ visited st ⊆ visited st'
      /\ path st' = path st
      /\ Statements.steady graph st'.
Proof.
  intros Hrec. induction ns as [|n ns IH]; intros p cur st Hp Hns Hfuel Hst; simpl.
  - exists st. split; [reflexivity|]. split; [reflexivity|]. split; [reflexivity|exact Hst].
  - assert (Hns' : forall n', In n' ns -> Statements.linkedTo graph cur n').
    { intros n' Hn'. apply Hns. right. exact Hn'. }
    destruct (bool_decide (n ∈ visited st)) eqn:Hvis; simpl.
    + destruct (bool_decide (n ∈ recursionStack st)); [|apply (IH p cur); assumption].
      destruct (sliceFrom n (path st)) as [cyc|] eqn:Hslice;
        [|apply (IH p cur); assumption].
      destruct (IH p cur
                  {| visited := visited st; recursionStack := recursionStack st;
                     path := path st; cycles := cycles st ++ [cyc ++ [n]] |}
                  Hp Hns' Hfuel) as (st' & Hloop & Hsub & Hp' & Hst').
      { destruct Hst as (Hwalk & Hkeys & Hcycles).
        split; [exact Hwalk|]. split; [exact Hkeys|]. simpl.
        apply Forall_app. split; [exact Hcycles|]. constructor; [|constructor].
        destruct (sliceFrom_spec n (path st) cyc Hslice) as (pre & rest & Hpre & Hcyc).
        assert (Hcyckeys : forall x, In x cyc -> x ∈ Statements.known graph).
        { intros x Hx. apply Hkeys. rewrite Hpre. apply in_or_app. right. exact Hx. }
        split; [|split].
        - exists n, rest. rewrite Hcyc. reflexivity.
        - rewrite Hp in Hpre.
          destruct (suffix_last pre cyc p cur Hpre) as [q Hq];
            [rewrite Hcyc; discriminate|].
          rewrite Hq, <- app_assoc. apply follows_snoc.
          + rewrite <- Hq. apply (follows_suffix _ pre). rewrite <- Hpre, <- Hp.
            exact Hwalk.
          + apply Hns. left. reflexivity.
        - intros x Hx. apply in_app_or in Hx. destruct Hx as [Hx|[<-|[]]].
          + apply Hcyckeys, Hx.
          + apply Hcyckeys. rewrite Hcyc. left. reflexivity. }
      exists st'. split; [exact Hloop|]. split; [exact Hsub|]. split; [exact Hp'|exact Hst'].
    + apply bool_decide_eq_false in Hvis.
      destruct (Js.map_has graph n) eqn:Hhas; [|apply (IH p cur); assumption].
      destruct (Hrec n st (map_has_known n Hhas) Hvis Hfuel Hst) as (st1 & Hdfs & Hsub1 & Hp1 & Hst1).
      { right. exists p, cur. split; [exact Hp|]. apply Hns. left. reflexivity. }
      rewrite Hdfs.
      destruct (IH p cur st1) as (st' & Hloop & Hsub & Hp' & Hst'); try assumption.
      * congruence.
      * pose proof (unseen_mono st st1 Hsub1). lia.
      * exists st'. split; [exact Hloop|]. split; [etransitivity; eassumption|].
        split; [congruence|exact Hst'].
Qed.

Lemma dfs_returns : forall fuel, Statements.explores graph fuel.
Proof.
  induction fuel as [|fuel IH]; intros node st Hin Hvis Hle Hst Hlast.
  - exfalso. unfold Statements.unseen in Hle.
    assert (Hpos : (0 < size (Statements.known graph ∖ visited st))%nat).
    { apply (Nat.le_lt_trans _ (size (Statements.known graph ∖ ({[node]} ∪ visited st))));
        [lia|].
      apply subset_size. split.
      - intros x. rewrite !elem_of_difference, elem_of_union. tauto.
      - intros H. specialize (H node).
        rewrite !elem_of_difference, elem_of_union, elem_of_singleton in H.
        tauto. }
    lia.
  - simpl.
    set (st1 := {| visited := {[node]} ∪ visited st;
                   recursionStack := {[node]} ∪ recursionStack st;
                   path := path st ++ [node];
                   cycles := cycles st |}).
    assert (Hle1 : (Statements.unseen graph st1 <= fuel)%nat).
    { unfold Statements.unseen in *. simpl.
      assert (size (Statements.known graph ∖ ({[node]} ∪ visited st))
              < size (Statements.known graph ∖ visited st))%nat; [|lia].
      apply subset_size. split.
      - intros x. rewrite !elem_of_difference, elem_of_union. tauto.
      - intros H. specialize (H node).
        rewrite !elem_of_difference, elem_of_union, elem_of_singleton in H.
        tauto. }
    assert (Hst1 : Statements.steady graph st1).
    { destruct Hst as (Hwalk & Hkeys & Hcycles).
      split; [|split; [|exact Hcycles]]; simpl.
      - destruct Hlast as [Hnil|(p & cur & Hp & He)].
        + rewrite Hnil. exact I.
        + rewrite Hp, <- app_assoc.
          apply follows_snoc; [rewrite <- Hp; exact Hwalk|exact He].
      - intros x Hx. apply in_app_or in Hx.
        destruct Hx as [Hx|[<-|[]]]; [apply Hkeys, Hx|exact Hin]. }
    assert (Hsub1 : visited st ⊆ visited st1) by apply union_subseteq_r.
    destruct (dfsNeighbors_returns fuel IH (default [] (Js.map_get graph node))
                (path st) node st1 eq_refl) as (st2 & Hloop & Hsub2 & Hp2 & Hst2).
    + intros n Hn. destruct (Js.map_get graph node) as [targets|] eqn:Hget;
        [|destruct Hn]. exists targets. split; [exact Hget|exact Hn].
    + exact Hle1.
    + exact Hst1.
    + rewrite Hloop. eexists. split; [reflexivity|]. simpl.
      split; [etransitivity; eassumption|].
      rewrite Hp2. simpl. rewrite removelast_snoc. split; [reflexivity|].
      destruct Hst as (Hwalk & Hkeys & _). destruct Hst2 as (_ & _ & Hcycles2).
      split; [exact Hwalk|]. split; [exact Hkeys|exact Hcycles2].
Qed.

Lemma dfsAll_returns fuel : forall requirements st,
  (forall r, In r requirements -> req_id r ∈ Statements.known graph) ->
  (Statements.unseen graph st <= fuel)%nat ->
  Statements.steady graph st -> path st = [] ->
  exists st',
    dfsAll fuel graph requirements st = Some st'
    /\ List.Forall (Statements.closedWalk graph) (cycles st').
Proof.
  induction requirements as [|req rest IH]; intros st Hkeys Hfuel Hst Hp; simpl.
  - exists st. split; [reflexivity|]. apply Hst.
  - assert (Hkeys' : forall r, In r rest -> req_id r ∈ Statements.known graph).
    { intros r Hr. apply Hkeys. right. exact Hr. }
    destruct (bool_decide (req_id req ∈ visited st)) eqn:Hvis; simpl;
      [apply IH; assumption|].
    apply bool_decide_eq_false in Hvis.
    destruct (dfs_returns fuel (req_id req) st (Hkeys req (or_introl eq_refl))
                Hvis Hfuel Hst (or_introl Hp)) as (st1 & Hdfs & Hsub1 & Hp1 & Hst1).
    rewrite Hdfs. apply IH; try assumption.
    + pose proof (unseen_mono st st1 Hsub1). lia.
    + congruence.
Qed.

Lemma adjacency_keys requirements : forall g r,
  In r requirements ->
  Js.map_has
    (fold_left
       (fun g req => Js.map_set (req_id req) (concat (Js.map_values (req_links req))) g)
       requirements g) (req_id r) = true.
Proof.
  unfold Js.map_has.
  assert (Hkeep : forall l g k,
    Js.map_get g k <> None ->
    Js.map_get
      (fold_left
         (fun g req => Js.map_set (req_id req) (concat (Js.map_values (req_links req))) g)
         l g) k <> None).
  { induction l as [|x l IH]; intros g k Hk; simpl; [exact Hk|].
    apply IH. rewrite map_get_set. destruct (String.eqb (req_id x) k); [discriminate|exact Hk]. }
  induction requirements as [|x l IH]; intros g r Hin; [destruct Hin|]. simpl.
  destruct Hin as [->|Hin].
  - assert (Hset : Js.map_get
                     (Js.map_set (req_id r) (concat (Js.map_values (req_links r))) g)
                     (req_id r) <> None).
    { rewrite map_get_set, String.eqb_refl. discriminate. }
    pose proof (Hkeep l _ _ Hset) as Hk. clear Hset.
    match goal with
    | |- match ?t with _ => _ end = _ => destruct t; [reflexivity|congruence]
    end.
  - apply IH, Hin.
Qed.

(** The deduplication keeps one cycle per key, in normal form. *)
Lemma dedupe_spec cs : forall seenCycles uniqueCycles,
  seenCycles = map cycleKey uniqueCycles ->
  List.NoDup seenCycles ->
  List.NoDup (map cycleKey (dedupe cs seenCycles uniqueCycles))
  /\ forall c, In c (dedupe cs seenCycles uniqueCycles) ->
       In c uniqueCycles \/ exists raw, In raw cs /\ c = normalizeCycle raw.
Proof.
  induction cs as [|cycle cs IH]; intros seen unique Hseen Hnd; simpl.
  - rewrite <- Hseen. split; [exact Hnd|tauto].
  - destruct (Js.includes seen (cycleKey (normalizeCycle cycle))) eqn:Hinc.
    + destruct (IH seen unique Hseen Hnd) as [H1 H2]. split; [exact H1|].
      intros c Hc. destruct (H2 c Hc) as [H|(raw & Hraw & ->)]; [tauto|].
      right. exists raw. tauto.
    + apply includes_false in Hinc.
      destruct (IH (seen ++ [cycleKey (normalizeCycle cycle)])
                  (unique ++ [normalizeCycle cycle])) as [H1 H2].
      * rewrite map_app, Hseen. reflexivity.
      * apply List.NoDup_app; [exact Hnd|repeat constructor; simpl; tauto|].
        intros y Hy [<-|[]]. contradiction.
      * split; [exact H1|]. intros c Hc.
        destruct (H2 c Hc) as [H|(raw & Hraw & ->)].
        -- apply in_app_or in H. destruct H as [H|[<-|[]]]; [tauto|].
           right. exists cycle. tauto.
        -- right. exists raw. tauto.
Qed.

End DepthFirstFacts.

Lemma depth_first_cycles_total (requirements : list RequirementObject) :
  exists cycles,
    GraphAnalysis.detectCircularDependencies requirements = Some cycles
    /\ forall c, In c cycles ->
         exists raw,
           c = GraphAnalysis.normalizeCycle raw
           /\ Statements.closedWalk (GraphAnalysis.adjacency requirements) raw.
Proof.
  unfold GraphAnalysis.detectCircularDependencies.
  set (graph := GraphAnalysis.adjacency requirements).
  destruct (dfsAll_returns graph (S (S (length graph))) requirements
              {| GraphAnalysis.visited := ∅; GraphAnalysis.recursionStack := ∅;
                 GraphAnalysis.path := []; GraphAnalysis.cycles := [] |})
    as (st & Hall & Hcycles).
  - intros r Hr. apply map_has_known. apply adjacency_keys, Hr.
  - unfold Statements.unseen, Statements.known. simpl.
    pose proof (size_list_to_set_le (Js.map_keys graph)).
    assert (size ((list_to_set (Js.map_keys graph) : gset string) ∖ ∅)
            <= size (list_to_set (Js.map_keys graph) : gset string))%nat.
    { apply subseteq_size. intros y. rewrite elem_of_difference. tauto. }
    unfold Js.map_keys in *. rewrite length_map in *. lia.
  - split; [exact I|]. split; [intros x []|constructor].
  - reflexivity.
  - rewrite Hall. eexists. split; [reflexivity|].
    destruct (dedupe_spec (GraphAnalysis.cycles st) [] [] eq_refl (List.NoDup_nil _))
      as [_ Hin].
    intros c Hc.
    destruct (Hin c Hc) as [[]|(raw & Hraw & ->)].
    exists raw. split; [reflexivity|].
    apply (proj1 (List.Forall_forall _ _) Hcycles raw Hraw).
Qed.

(** X19. [detectCircularDependencies] of graphAnalysis.ts returns on
    every list of records. The cycles it returns have pairwise distinct
    keys, and each is the normal form of a closed walk that the search
    found: a path that returns to its first node, every node being the
    id of a record and listing the next one among the targets of its
    record. *)
Theorem depth_first_cycles_reported (requirements : list RequirementObject) :
  exists cycles,
    GraphAnalysis.detectCircularDependencies requirements = Some cycles
    /\ List.NoDup (map GraphAnalysis.cycleKey cycles)
    /\ forall c, In c cycles ->
         exists raw,
           c = GraphAnalysis.normalizeCycle raw
           /\ Statements.closedWalk (GraphAnalysis.adjacency requirements) raw.
Proof.
  destruct (depth_first_cycles_total requirements) as (cycles & Hdet & Hshape).
  exists cycles. split; [exact Hdet|]. split; [|exact Hshape].
  unfold GraphAnalysis.detectCircularDependencies in Hdet.
  destruct (GraphAnalysis.dfsAll _ _ requirements _) as [st|]; [|discriminate].
  injection Hdet as <-.
  apply (dedupe_spec (GraphAnalysis.cycles st) [] [] eq_refl (List.NoDup_nil _)).
Qed.

(** ** Incomplete chains *)

Section ChainShapeFacts.
Import DeepValidation CompletenessAnalyzer GapAnalysis.

Variable getTypePrefix : string -> string.
Variable getRequirementById : list RequirementObject -> string -> option RequirementObject.
Variable getAllOutgoingLinks : RequirementObject -> list string.

(** The loop of [traceChain] extends the path by the segments it finds,
    in order, and names the first one it does not find. *)
Lemma traceFrom_shape requirements remaining :
  forall prevType currentReqs actualPath,
    exists k,
      fst (traceFrom getTypePrefix getRequirementById getAllOutgoingLinks
             requirements prevType remaining currentReqs actualPath [])
      = actualPath ++ firstn k remaining
      /\ ((k = length remaining
           /\ snd (traceFrom getTypePrefix getRequirementById getAllOutgoingLinks
                     requirements prevType remaining currentReqs actualPath [])
              = [])
          \/ ((k < length remaining)%nat
              /\ snd (traceFrom getTypePrefix getRequirementById getAllOutgoingLinks
                        requirements prevType remaining currentReqs actualPath [])
                 = [(nth k (prevType :: remaining) "" ++ "→" ++ nth k remaining "")%string])).
Proof.
  induction remaining as [|targetType remaining IH];
    intros prevType currentReqs actualPath; simpl.
  - exists 0%nat. rewrite app_nil_r. split; [reflexivity|]. left. split; reflexivity.
  - destruct (0 <? length _)%nat.
    + destruct (IH targetType
                  (findTargets getTypePrefix getRequirementById getAllOutgoingLinks
                     requirements currentReqs targetType)
                  (actualPath ++ [targetType])) as (k & Hfst & Hsnd).
      exists (S k). simpl. rewrite Hfst, <- app_assoc. split; [reflexivity|].
      destruct Hsnd as [[-> Hs]|[Hlt Hs]].
      * left. split; [reflexivity|exact Hs].
      * right. split; [lia|]. rewrite Hs. reflexivity.
    + exists 0%nat. simpl. rewrite app_nil_r. split; [reflexivity|].
      right. split; [lia|reflexivity].
Qed.

Lemma incomplete_chain_from requirements config expectedChain chain :
  In chain
    (verifyHierarchicalCompleteness getTypePrefix getRequirementById
       getAllOutgoingLinks requirements config expectedChain) ->
  exists startReq k,
    In startReq requirements
    /\ head expectedChain = Some (getTypePrefix (req_id startReq))
    /\ ic_startId chain = req_id startReq
    /\ ic_expectedPath chain = expectedChain
    /\ (S k < length expectedChain)%nat
    /\ ic_actualPath chain = firstn (S k) expectedChain
    /\ ic_missingLinks chain
       = [(nth k expectedChain "" ++ "→" ++ nth (S k) expectedChain "")%string]
    /\ ic_severity chain
       = if String.eqb (priorityOf startReq) "critical" then BLOCKER else MEDIUM.
Proof.
  unfold verifyHierarchicalCompleteness. intros H. apply in_flat_map in H.
  destruct H as (startReq & Hstart & Hin).
  destruct expectedChain as [|first remaining]; [destruct Hstart|].
  simpl in Hstart. apply filter_In in Hstart. destruct Hstart as [Hreq Hprefix].
  apply String.eqb_eq in Hprefix.
  unfold traceChain in Hin.
  destruct (traceFrom_shape requirements remaining first [req_id startReq]
              [getTypePrefix (req_id startReq)]) as (k & Hfst & Hsnd).
  destruct Hsnd as [[_ Hs]|[Hlt Hs]].
  - rewrite Hs in Hin. destruct Hin.
  - rewrite Hs, Hfst in Hin. simpl in Hin. destruct Hin as [<-|[]]. simpl.
    exists startReq, k. rewrite Hprefix.
    split; [exact Hreq|]. split; [reflexivity|]. split; [reflexivity|].
    split; [reflexivity|]. split; [lia|]. split; [reflexivity|].
    split; [reflexivity|]. apply determineCompletenessSeverity_one.
Qed.

End ChainShapeFacts.

(** X20. Whatever the helpers of deepValidation.ts compute, an
    incomplete chain emitted by [verifyHierarchicalCompleteness] starts
    at a record of the input whose type prefix is the first entry of the
    expected chain; its actual path is a proper, non-empty prefix of the
    expected chain, and its one missing link names the last segment of
    that prefix and the segment that follows it. *)
Theorem incomplete_chain_shape
  (getTypePrefix : string -> string)
  (getRequirementById : list RequirementObject -> string -> option RequirementObject)
  (getAllOutgoingLinks : RequirementObject -> list string)
  (requirements : list RequirementObject)
  (config : DeepValidation.DeepValidationConfig)
  (expectedChain : list string)
  (chain : CompletenessAnalyzer.IncompleteChain) :
  In chain
    (CompletenessAnalyzer.verifyHierarchicalCompleteness getTypePrefix
       getRequirementById getAllOutgoingLinks requirements config expectedChain) ->
  exists startReq k,
    In startReq requirements
    /\ head expectedChain = Some (getTypePrefix (req_id startReq))
    /\ CompletenessAnalyzer.ic_startId chain = req_id startReq
    /\ CompletenessAnalyzer.ic_expectedPath chain = expectedChain
    /\ (S k < length expectedChain)%nat
    /\ CompletenessAnalyzer.ic_actualPath chain = firstn (S k) expectedChain
    /\ CompletenessAnalyzer.ic_missingLinks chain
       = [(nth k expectedChain "" ++ "→" ++ nth (S k) expectedChain "")%string].
Proof.
  intros H.
  destruct (incomplete_chain_from getTypePrefix getRequirementById
              getAllOutgoingLinks requirements config expectedChain chain H)
    as (startReq & k & H1 & H2 & H3 & H4 & H5 & H6 & H7 & _).
  exists startReq, k. tauto.
Qed.

Lemma incomplete_chain_shape_witness :
  let stk := Fixtures.mkReqIn "a.rst" "STK001" "high" [("satisfies", ["SYS001"; "GONE"])] in
  let sys := Fixtures.mkReqIn "a.rst" "SYS001" "low" [("links", ["STK001"])] in
  let chain :=
    {| CompletenessAnalyzer.ic_startId := "STK001";
       CompletenessAnalyzer.ic_expectedPath := CompletenessAnalyzer.defaultExpectedChain;
       CompletenessAnalyzer.ic_actualPath := ["STK"; "SYS"];
       CompletenessAnalyzer.ic_missingLinks := ["SYS→DSG"];
       CompletenessAnalyzer.ic_severity := MEDIUM |} in
  exists startReq k,
    In startReq [stk; sys]
    /\ head CompletenessAnalyzer.defaultExpectedChain
       = Some (DeepValidation.getTypePrefix (req_id startReq))
    /\ CompletenessAnalyzer.ic_startId chain = req_id startReq
    /\ CompletenessAnalyzer.ic_expectedPath chain = CompletenessAnalyzer.defaultExpectedChain
    /\ (S k < length CompletenessAnalyzer.defaultExpectedChain)%nat
    /\ CompletenessAnalyzer.ic_actualPath chain
       = firstn (S k) CompletenessAnalyzer.defaultExpectedChain
    /\ CompletenessAnalyzer.ic_missingLinks chain
       = [(nth k CompletenessAnalyzer.defaultExpectedChain ""
           ++ "→" ++ nth (S k) CompletenessAnalyzer.defaultExpectedChain "")%string].
Proof.
  intros stk sys chain.
  apply (incomplete_chain_shape DeepValidation.getTypePrefix
           DeepValidation.getRequirementById DeepValidation.getAllOutgoingLinks
           [stk; sys] Fixtures.sampleConfig
           CompletenessAnalyzer.defaultExpectedChain chain).
  vm_compute. left. reflexivity.
Defined.

(** X21. Fed with the chains of [verifyHierarchicalCompleteness],
    [analyzeIncompleteChains] makes at most one recommendation, and
    every id it lists is that of a start record whose priority is
    exactly [critical]: an incomplete chain is BLOCKER for such a record
    and MEDIUM for every other one, never HIGH, so the chains of
    high-priority records are not counted. *)
Theorem incomplete_chain_recommendation
  (getTypePrefix : string -> string)
  (getRequirementById : list RequirementObject -> string -> option RequirementObject)
  (getAllOutgoingLinks : RequirementObject -> list string)
  (requirements : list RequirementObject)
  (config : DeepValidation.DeepValidationConfig)
  (expectedChain : list string) :
  let recs :=
    GapAnalysis.analyzeIncompleteChains
      (CompletenessAnalyzer.verifyHierarchicalCompleteness getTypePrefix
         getRequirementById getAllOutgoingLinks requirements config expectedChain) in
  (length recs <= 1)%nat
  /\ forall rec i, In rec recs -> In i (GapAnalysis.affectedIds rec) ->
       exists startReq,
         In startReq requirements /\ req_id startReq = i
         /\ priorityOf startReq = "critical".
Proof.
  unfold GapAnalysis.analyzeIncompleteChains.
  destruct (length _ =? 0)%nat; simpl; [split; [lia|intros rec i []]|].
  split; [lia|]. intros rec i [<-|[]] Hi. simpl in Hi.
  apply in_map_iff in Hi. destruct Hi as (chain & <- & Hchain).
  apply filter_In in Hchain. destruct Hchain as [Hchain Hsev].
  destruct (incomplete_chain_from getTypePrefix getRequirementById
              getAllOutgoingLinks requirements config expectedChain chain Hchain)
    as (startReq & k & H1 & _ & H3 & _ & _ & _ & _ & H8).
  exists startReq. split; [exact H1|]. split; [congruence|].
  rewrite H8 in Hsev.
  destruct (String.eqb_spec (priorityOf startReq) "critical") as [Heq|Hne];
    [exact Heq|discriminate].
Qed.

(** ** Orphan reports by category *)

Section OrphanQueryFacts.
Import DeepValidation OrphanDetector OrphanQueries.

Variable getAllOutgoingLinks : RequirementObject -> list string.
Variable getAllIncomingLinks : list RequirementObject -> string -> list string.

Lemma reportFor_category requirements config req report :
  reportFor getAllOutgoingLinks getAllIncomingLinks requirements config req = Some report ->
  or_id report = req_id req
  /\ categoryOf (length (getAllOutgoingLinks req))
       (length (getAllIncomingLinks requirements (req_id req)))
     = Some (or_category report)
  /\ or_severity report = determineOrphanSeverity req (or_category report) config.
Proof.
  unfold reportFor. destruct (categoryOf _ _) as [c|]; [|discriminate].
  intros [= <-]. simpl. repeat split.
Qed.

Lemma demoted_not_blocker req category config :
  category <> true_orphan ->
  determineOrphanSeverity req category config <> BLOCKER.
Proof.
  unfold determineOrphanSeverity. intros Hc.
  destruct category; [congruence| |];
    repeat match goal with
    | |- context [String.eqb ?a ?b] => destruct (String.eqb a b)
    end; discriminate.
Qed.

Lemma partition_by_category (orphaned : list OrphanedRequirement) :
  (length (getOrphansByCategory orphaned true_orphan)
   + length (getOrphansByCategory orphaned dead_end)
   + length (getOrphansByCategory orphaned source_only))%nat
  = length orphaned.
Proof.
  unfold getOrphansByCategory. induction orphaned as [|o l IH]; [reflexivity|].
  simpl. destruct (or_category o); simpl; lia.
Qed.

Lemma reports_by_category requirements config category : forall l,
  map or_id
    (List.filter (fun o => category_eqb (or_category o) category)
       (flat_map
          (fun req =>
             match reportFor getAllOutgoingLinks getAllIncomingLinks requirements
                     config req with
             | Some report => [report]
             | None => []
             end) l))
  = map req_id
      (List.filter
         (fun req =>
            match categoryOf (length (getAllOutgoingLinks req))
                    (length (getAllIncomingLinks requirements (req_id req))) with
            | Some c => category_eqb c category
            | None => false
            end) l).
Proof.
  induction l as [|req l IH]; [reflexivity|]. simpl.
  rewrite List.filter_app, map_app, IH. unfold reportFor.
  destruct (categoryOf _ _) as [c|]; simpl; [|reflexivity].
  destruct (category_eqb c category); reflexivity.
Qed.

Lemma reports_bounded requirements config : forall l,
  (length
     (flat_map
        (fun req =>
           match reportFor getAllOutgoingLinks getAllIncomingLinks requirements
                   config req with
           | Some report => [report]
           | None => []
           end) l)
   <= length l)%nat.
Proof.
  induction l as [|req l IH]; [simpl; lia|]. simpl. rewrite length_app.
  destruct (reportFor _ _ _ _ req); simpl; lia.
Qed.

End OrphanQueryFacts.

(** X22. Whatever the link helpers compute, [detectOrphanedRequirements]
    reports, in input order, one entry for each record whose outgoing or
    incoming links are empty and none for the others; the three
    categories of [getOrphansByCategory] partition the reports, each
    category holding the records whose two counts select it; and every
    report that [getOrphansBySeverity] returns for BLOCKER is a true
    orphan, the other two categories never reaching that severity
    whatever the configuration. *)
Theorem orphan_reports_by_category
  (getAllOutgoingLinks : RequirementObject -> list string)
  (getAllIncomingLinks : list RequirementObject -> string -> list string)
  (requirements : list RequirementObject)
  (config : DeepValidation.DeepValidationConfig) :
  let orphaned :=
    OrphanDetector.detectOrphanedRequirements getAllOutgoingLinks getAllIncomingLinks
      requirements config in
  (forall category,
     map OrphanDetector.or_id (OrphanQueries.getOrphansByCategory orphaned category)
     = map req_id
         (List.filter
            (fun req =>
               match OrphanDetector.categoryOf (length (getAllOutgoingLinks req))
                       (length (getAllIncomingLinks requirements (req_id req))) with
               | Some c => OrphanQueries.category_eqb c category
               | None => false
               end)
            requirements))
  /\ (length (OrphanQueries.getOrphansByCategory orphaned OrphanDetector.true_orphan)
      + length (OrphanQueries.getOrphansByCategory orphaned OrphanDetector.dead_end)
      + length (OrphanQueries.getOrphansByCategory orphaned OrphanDetector.source_only))%nat
     = length orphaned
  /\ (length orphaned <= length requirements)%nat
  /\ forall o, In o (OrphanQueries.getOrphansBySeverity orphaned BLOCKER) ->
       In o (OrphanQueries.getOrphansByCategory orphaned OrphanDetector.true_orphan).
Proof.
  intros orphaned. split; [|split; [|split]].
  - intros category. unfold orphaned, OrphanDetector.detectOrphanedRequirements,
      OrphanQueries.getOrphansByCategory.
    apply (reports_by_category getAllOutgoingLinks getAllIncomingLinks requirements
             config category requirements).
  - apply partition_by_category.
  - unfold orphaned, OrphanDetector.detectOrphanedRequirements.
    apply (reports_bounded getAllOutgoingLinks getAllIncomingLinks requirements
             config requirements).
  - intros o Ho. unfold OrphanQueries.getOrphansBySeverity in Ho.
    apply filter_In in Ho. destruct Ho as [Hin Hsev].
    unfold OrphanQueries.getOrphansByCategory. apply filter_In. split; [exact Hin|].
    unfold orphaned, OrphanDetector.detectOrphanedRequirements in Hin.
    apply in_flat_map in Hin. destruct Hin as (req & _ & Hrep).
    destruct (OrphanDetector.reportFor _ _ _ _ req) as [report|] eqn:Hreport;
      [|destruct Hrep].
    destruct Hrep as [<-|[]].
    apply reportFor_category in Hreport. destruct Hreport as (_ & _ & Hs).
    rewrite Hs in Hsev.
    destruct (OrphanDetector.or_category report) eqn:Hc; [reflexivity| |];
      exfalso;
      [apply (demoted_not_blocker req OrphanDetector.dead_end config)
      |apply (demoted_not_blocker req OrphanDetector.source_only config)];
      try discriminate;
      destruct (OrphanDetector.determineOrphanSeverity req _ config); try discriminate;
      reflexivity.
Qed.

(** ** Gap recommendations *)

Section RecommendationFacts.
Import DeepValidation GapAnalysis.

Lemma Forall_flat_map_one {A B : Type} (P : B -> Prop) (f : A -> list B) (l : list A) :
  (forall x, In x l -> List.Forall P (f x)) -> List.Forall P (flat_map f l).
Proof.
  induction l as [|x l IH]; intros H; simpl; [constructor|].
  apply Forall_app. split; [apply H; left; reflexivity|].
  apply IH. intros y Hy. apply H. right. exact Hy.
Qed.

Lemma circular_counted cycles :
  List.Forall Statements.counted (analyzeCircularDependencies cycles).
Proof.
  unfold analyzeCircularDependencies. apply Forall_app. split;
    destruct (0 <? _)%nat; repeat constructor.
Qed.

Lemma coverage_counted coverage requirements :
  List.Forall Statements.counted (analyzeCoverageGaps coverage requirements).
Proof.
  unfold analyzeCoverageGaps. apply Forall_flat_map_one. intros cov _.
  destruct (_ && _); repeat constructor.
Qed.

Lemma orphans_counted orphans :
  List.Forall Statements.counted (analyzeOrphanedRequirements orphans).
Proof.
  unfold analyzeOrphanedRequirements. apply Forall_app. split.
  - destruct (0 <? _)%nat; repeat constructor.
    unfold Statements.counted. simpl. rewrite length_map. reflexivity.
  - destruct (5 <? _)%nat; repeat constructor.
    unfold Statements.counted. simpl. rewrite length_map. reflexivity.
Qed.

Lemma status_counted inconsistencies :
  List.Forall Statements.counted (analyzeStatusInconsistencies inconsistencies).
Proof.
  unfold analyzeStatusInconsistencies. apply Forall_app. split;
    destruct (0 <? _)%nat; repeat constructor.
Qed.

Lemma chains_counted chains :
  List.Forall Statements.counted (analyzeIncompleteChains chains).
Proof.
  unfold analyzeIncompleteChains.
  destruct (_ =? 0)%nat; repeat constructor.
  unfold Statements.counted. simpl. rewrite length_map. reflexivity.
Qed.

Lemma priority_counted coverage :
  List.Forall Statements.counted (analyzePriorityCoverage coverage).
Proof.
  unfold analyzePriorityCoverage. apply Forall_flat_map_one. intros cov _.
  destruct (_ && _); repeat constructor.
Qed.

Lemma baseline_counted issues :
  List.Forall Statements.counted (analyzeBaselineIssues issues).
Proof.
  unfold analyzeBaselineIssues. apply Forall_app. split.
  - destruct (0 <? _)%nat; repeat constructor.
    unfold Statements.counted. simpl. rewrite length_map. reflexivity.
  - destruct (0 <? _)%nat; repeat constructor.
Qed.

Lemma gathered_counted report requirements :
  List.Forall Statements.counted (Statements.gathered report requirements).
Proof.
  unfold Statements.gathered.
  apply Forall_app; split; [apply circular_counted|].
  apply Forall_app; split; [apply coverage_counted|].
  apply Forall_app; split; [apply orphans_counted|].
  apply Forall_app; split; [apply status_counted|].
  apply Forall_app; split; [apply chains_counted|].
  apply Forall_app; split; [apply priority_counted|apply baseline_counted].
Qed.

End RecommendationFacts.

(** X23. In every recommendation that [generateGapRecommendations]
    returns, whichever of the seven analyzers made it, the affected
    count is the number of the affected ids it lists. *)
Theorem recommendation_counts_its_ids
  (report : GapAnalysis.DeepValidationReport)
  (requirements : list RequirementObject) (rec : GapAnalysis.GapRecommendation) :
  In rec (GapAnalysis.generateGapRecommendations report requirements) ->
  GapAnalysis.affectedCount rec = length (GapAnalysis.affectedIds rec).
Proof.
  unfold GapAnalysis.generateGapRecommendations.
  change (GapAnalysis.analyzeCircularDependencies _ ++ _)
    with (Statements.gathered report requirements).
  intros Hin.
  assert (Hall : List.Forall Statements.counted
                   (GapAnalysis.assignPriorities 0
                      (GapAnalysis.sortBy GapAnalysis.compareRecommendations
                         (Statements.gathered report requirements)))).
  { apply (assignPriorities_Forall Statements.counted).
    - intros r p Hr. exact Hr.
    - apply List.Forall_forall. intros x Hx.
      apply (Permutation_in _ (sortBy_Permutation _)) in Hx.
      apply (proj1 (List.Forall_forall _ _) (gathered_counted report requirements) x Hx). }
  apply (proj1 (List.Forall_forall _ _) Hall rec Hin).
Qed.

Lemma recommendation_counts_its_ids_witness :
  let report :=
    {| GapAnalysis.circularDependencies := [];
       GapAnalysis.hierarchicalCoverageResults := [];
       GapAnalysis.orphanedRequirements := [];
       GapAnalysis.statusInconsistencies :=
         [ {| StatusConsistency.si_chain := ["REQ001"; "REQ002"];
              StatusConsistency.si_fromId := "REQ001";
              StatusConsistency.si_toId := "REQ002";
              StatusConsistency.si_fromStatus := "approved";
              StatusConsistency.si_toStatus := "draft";
              StatusConsistency.si_linkType := "satisfies";
              StatusConsistency.si_severity := MEDIUM;
              StatusConsistency.si_violation := StatusConsistency.approved_to_draft |};
           {| StatusConsistency.si_chain := ["REQ003"; "REQ002"];
              StatusConsistency.si_fromId := "REQ003";
              StatusConsistency.si_toId := "REQ002";
              StatusConsistency.si_fromStatus := "approved";
              StatusConsistency.si_toStatus := "draft";
              StatusConsistency.si_linkType := "satisfies";
              StatusConsistency.si_severity := MEDIUM;
              StatusConsistency.si_violation := StatusConsistency.approved_to_draft |} ];
       GapAnalysis.incompleteChains := [];
       GapAnalysis.priorityWeightedCoverageResults := [];
       GapAnalysis.baselineIssues := [] |} in
  let rec :=
    {| GapAnalysis.severity := MEDIUM;
       GapAnalysis.category := GapAnalysis.STATUS_CONSISTENCY;
       GapAnalysis.action := "Update status of downstream requirements";
       GapAnalysis.description :=
         "2 approved requirements link to draft items. Consider bulk status update.";
       GapAnalysis.affectedCount := 1;
       GapAnalysis.affectedIds := ["REQ002"];
       GapAnalysis.estimatedEffort := GapAnalysis.effort_low;
       GapAnalysis.priority := 1 |} in
  GapAnalysis.affectedCount rec = length (GapAnalysis.affectedIds rec).
Proof.
  intros report rec.
  apply (recommendation_counts_its_ids report [] rec).
  vm_compute. left. reflexivity.
Defined.

(** ** Sorting by a numeric key *)

Section SortByKey.

Context {A : Type}.
Variable key : A -> Z.

Lemma sortInsert_key_Permutation x l :
  Permutation (GapAnalysis.sortInsert (fun a b => (key a - key b)%Z) x l) (x :: l).
Proof.
  induction l as [|y l IH]; simpl.
  - reflexivity.
  - destruct (key x - key y <=? 0)%Z.
    + reflexivity.
    + rewrite IH. apply perm_swap.
Qed.

Lemma sortBy_key_Permutation l : Permutation (GapAnalysis.sortBy (fun a b => (key a - key b)%Z) l) l.
Proof.
  induction l as [|x l IH]; simpl.
  - reflexivity.
  - rewrite sortInsert_key_Permutation. constructor. exact IH.
Qed.

Lemma sortInsert_key_Forall (P : A -> Prop) x l :
  P x -> List.Forall P l -> List.Forall P (GapAnalysis.sortInsert (fun a b => (key a - key b)%Z) x l).
Proof.
  intros Hx Hl. induction Hl as [|y l Hy Hl IH]; simpl.
  - constructor; [exact Hx|constructor].
  - destruct (key x - key y <=? 0)%Z.
    + constructor; [exact Hx|]. constructor; assumption.
    + constructor; assumption.
Qed.

Lemma sortInsert_key_sorted x l :
  StronglySorted (fun a b => (key a <= key b)%Z) l ->
  StronglySorted (fun a b => (key a <= key b)%Z) (GapAnalysis.sortInsert (fun a b => (key a - key b)%Z) x l).
Proof.
  intros Hl. induction Hl as [|y l Hl IH Hy]; simpl.
  - constructor; constructor.
  - destruct (Z.leb_spec (key x - key y) 0) as [Hle|Hgt].
    + constructor; [constructor; assumption|].
      constructor; [lia|].
      eapply List.Forall_impl; [|exact Hy]. intros z Hz. simpl in Hz. lia.
    + constructor; [exact IH|].
      apply sortInsert_key_Forall; [lia|exact Hy].
Qed.

Lemma sortBy_key_sorted l :
  StronglySorted (fun a b => (key a <= key b)%Z) (GapAnalysis.sortBy (fun a b => (key a - key b)%Z) l).
Proof.
  induction l as [|x l IH]; simpl.
  - constructor.
  - apply sortInsert_key_sorted. exact IH.
Qed.

(** The sort is stable: the elements of one key keep their order. *)
Lemma sortInsert_key_stable k x l :
  StronglySorted (fun a b => (key a <= key b)%Z) l ->
  List.filter (fun a => (key a =? k)%Z) (GapAnalysis.sortInsert (fun a b => (key a - key b)%Z) x l)
  = List.filter (fun a => (key a =? k)%Z) (x :: l).
Proof.
  intros Hl. induction Hl as [|y l Hl IH Hy]; [reflexivity|].
  cbn [GapAnalysis.sortInsert].
  destruct (Z.leb_spec (key x - key y) 0) as [Hle|Hgt]; [reflexivity|].
  cbn [List.filter]. rewrite IH. cbn [List.filter].
  destruct (Z.eqb_spec (key y) k) as [Hy'|Hy'];
    destruct (Z.eqb_spec (key x) k) as [Hx'|Hx']; try reflexivity.
  lia.
Qed.

Lemma sortBy_key_stable k l :
  List.filter (fun a => (key a =? k)%Z) (GapAnalysis.sortBy (fun a b => (key a - key b)%Z) l)
  = List.filter (fun a => (key a =? k)%Z) l.
Proof.
  induction l as [|x l IH]; [reflexivity|].
  cbn [GapAnalysis.sortBy fold_right].
  rewrite sortInsert_key_stable; [|apply sortBy_key_sorted].
  cbn [List.filter]. fold (GapAnalysis.sortBy (fun a b => (key a - key b)%Z) l). rewrite IH. reflexivity.
Qed.

End SortByKey.

(** ** ID generator *)








Section IdFacts.
Import IdGenerator.

Variable parseIdNumber : IdConfig -> string -> option Z.
Variable idConfig : IdConfig.







End IdFacts.

Section IdFormatFacts.
Import IdGenerator.

Variable formatId : IdConfig -> Z -> string.
Variable parseIdNumber : IdConfig -> string -> option Z.
Variable idConfig : IdConfig.

Lemma generateNextId_number requirements :
  generateNextId formatId parseIdNumber idConfig requirements
  = formatId idConfig (Statements.nextNumber parseIdNumber idConfig requirements).
Proof.
  unfold generateNextId, Statements.nextNumber.
  destruct (length requirements =? 0)%nat; reflexivity.
Qed.


End IdFormatFacts.






(** X27. [getIdsSorted] returns the ids of the records rearranged in
    ascending order of their numbers, an id that does not parse counting
    as 0, and the ids of one number keep the order of the input;
    [getIdsByLevel] is the same on the records of the level. *)
Theorem ids_sorted_by_number
  (parseIdNumber : IdGenerator.IdConfig -> string -> option Z)
  (idConfig : IdGenerator.IdConfig) (requirements : list RequirementObject) :
  Permutation (IdGenerator.getIdsSorted parseIdNumber idConfig requirements)
    (map req_id requirements)
  /\ StronglySorted
       (fun a b => (IdGenerator.numberOrZero parseIdNumber idConfig a
                    <= IdGenerator.numberOrZero parseIdNumber idConfig b)%Z)
       (IdGenerator.getIdsSorted parseIdNumber idConfig requirements)
  /\ (forall k,
        List.filter
          (fun a => (IdGenerator.numberOrZero parseIdNumber idConfig a =? k)%Z)
          (IdGenerator.getIdsSorted parseIdNumber idConfig requirements)
        = List.filter
            (fun a => (IdGenerator.numberOrZero parseIdNumber idConfig a =? k)%Z)
            (map req_id requirements))
  /\ forall level,
       IdGenerator.getIdsByLevel parseIdNumber level idConfig requirements
       = IdGenerator.getIdsSorted parseIdNumber idConfig
           (List.filter (IdGenerator.hasLevel level) requirements).
Proof.
  unfold IdGenerator.getIdsSorted, IdGenerator.getIdsByLevel.
  split; [apply (sortBy_key_Permutation (IdGenerator.numberOrZero parseIdNumber idConfig))|].
  split; [apply (sortBy_key_sorted (IdGenerator.numberOrZero parseIdNumber idConfig))|].
  split; [|reflexivity].
  intros k. apply (sortBy_key_stable (IdGenerator.numberOrZero parseIdNumber idConfig)).
Qed.

(** ** Configuration hash *)

Section HashFacts.
Import IndexCache.

Local Open Scope Z_scope.

Lemma toInt32_range z : - 2 ^ 31 <= toInt32 z < 2 ^ 31.
Proof.
  unfold toInt32.
  pose proof (Z.mod_pos_bound (z + 2 ^ 31) (2 ^ 32) ltac:(lia)). lia.
Qed.

Lemma toInt32_mod z : toInt32 z mod 2 ^ 32 = z mod 2 ^ 32.
Proof.
  unfold toInt32. rewrite Zminus_mod_idemp_l. f_equal. lia.
Qed.

Lemma toInt32_eqm a b : a mod 2 ^ 32 = b mod 2 ^ 32 -> toInt32 a = toInt32 b.
Proof.
  intros H. unfold toInt32.
  rewrite (Z.add_mod a), (Z.add_mod b), H by lia. reflexivity.
Qed.

Lemma toInt32_small z : - 2 ^ 31 <= z < 2 ^ 31 -> toInt32 z = z.
Proof.
  intros H. unfold toInt32. rewrite Z.mod_small; lia.
Qed.

Lemma hashStep_polynomial h c : hashStep h c = toInt32 (h * 31 + c).
Proof.
  unfold hashStep. apply toInt32_eqm.
  rewrite (Z.add_mod (toInt32 (h * 2 ^ 5) - h)), (Zminus_mod (toInt32 (h * 2 ^ 5))),
    toInt32_mod, <- Zminus_mod, <- Z.add_mod by lia.
  f_equal. lia.
Qed.

Lemma hashStep_wrapped p c : hashStep (toInt32 p) c = toInt32 (p * 31 + c).
Proof.
  rewrite hashStep_polynomial. apply toInt32_eqm.
  rewrite (Z.add_mod (toInt32 p * 31)), (Z.mul_mod (toInt32 p)), toInt32_mod,
    <- Z.mul_mod, <- Z.add_mod by lia.
  reflexivity.
Qed.

Lemma hashCode_from units : forall p,
  fold_left hashStep units (toInt32 p)
  = toInt32 (fold_left (fun h c => h * 31 + c) units p).
Proof.
  induction units as [|c units IH]; intros p; simpl.
  - reflexivity.
  - rewrite hashStep_wrapped. apply IH.
Qed.

Lemma toString16_inj a b : toString16 a = toString16 b -> a = b.
Proof.
  unfold toString16. intros H.
  assert (Hproper : forall z,
            Z.to_hex_int z <> Hexadecimal.Pos Hexadecimal.Nil
            /\ Z.to_hex_int z <> Hexadecimal.Neg Hexadecimal.Nil).
  { intros [|p|p]; simpl; split; try discriminate;
      intros [= Hp]; apply (HexadecimalPos.Unsigned.to_uint_nonnil p Hp). }
  apply HexadecimalZ.to_int_inj.
  assert (Hs : Some (Z.to_hex_int a) = Some (Z.to_hex_int b)).
  { rewrite <- (HexadecimalString.NilZero.isi (Z.to_hex_int a));
      [|apply Hproper|apply Hproper].
    rewrite <- (HexadecimalString.NilZero.isi (Z.to_hex_int b));
      [|apply Hproper|apply Hproper].
    rewrite H. reflexivity. }
  injection Hs as Hs. exact Hs.
Qed.

End HashFacts.

(** X28. The loop of [hashConfig], with its shift, subtraction and
    mask, computes the polynomial in 31 over the code units of the
    string, wrapped to a signed 32-bit integer: the hash lies between
    -2^31 and 2^31 - 1, and two strings get the same hexadecimal text
    exactly when their polynomials agree modulo 2^32. *)
Theorem hash_is_wrapped_polynomial (units units' : list Z) :
  IndexCache.hashCode units = IndexCache.toInt32 (Statements.polynomial31 units)
  /\ (- 2 ^ 31 <= IndexCache.hashCode units < 2 ^ 31)%Z
  /\ (IndexCache.hashConfig units = IndexCache.hashConfig units'
      <-> (Statements.polynomial31 units mod 2 ^ 32
           = Statements.polynomial31 units' mod 2 ^ 32)%Z).
Proof.
  assert (Hcode : forall u,
            IndexCache.hashCode u = IndexCache.toInt32 (Statements.polynomial31 u)).
  { intros u. unfold IndexCache.hashCode, Statements.polynomial31.
    rewrite <- (toInt32_small 0) at 1 by lia. apply hashCode_from. }
  split; [apply Hcode|]. split.
  - rewrite Hcode. apply toInt32_range.
  - unfold IndexCache.hashConfig. rewrite !Hcode. split.
    + intros H. apply toString16_inj in H.
      rewrite <- (toInt32_mod (Statements.polynomial31 units)),
        <- (toInt32_mod (Statements.polynomial31 units')), H. reflexivity.
    + intros H. rewrite (toInt32_eqm _ _ H). reflexivity.
Qed.

(** ** The deep validation of graphAnalysis.ts *)

Lemma find_by_In (requirements : list RequirementObject) k :
  In k (map req_id requirements) ->
  exists r, Js.find_by req_id requirements k = Some r.
Proof.
  induction requirements as [|x l IH]; simpl; [intros []|].
  destruct (String.eqb_spec (req_id x) k) as [Heq|Hne].
  - intros _. exists x. reflexivity.
  - intros [H|H]; [contradiction|]. apply IH, H.
Qed.

Lemma map_set_keys {V : Type} (m : list (string * V)) k v x :
  In x (Js.map_keys (Js.map_set k v m)) -> x = k \/ In x (Js.map_keys m).
Proof.
  unfold Js.map_keys. induction m as [|[k0 v0] m IH]; simpl.
  - intros [<-|[]]. left. reflexivity.
  - destruct (String.eqb_spec k0 k) as [->|Hne]; simpl.
    + intros [<-|H]; [left; reflexivity|right; right; exact H].
    + intros [<-|H]; [right; left; reflexivity|].
      destruct (IH H) as [->|H']; [left; reflexivity|right; right; exact H'].
Qed.

Lemma adjacency_known requirements x :
  x ∈ Statements.known (GraphAnalysis.adjacency requirements) ->
  In x (map req_id requirements).
Proof.
  unfold Statements.known, GraphAnalysis.adjacency. intros H.
  apply elem_of_list_to_set, list_elem_of_In in H.
  assert (Hfrom : forall l g,
    In x (Js.map_keys
            (fold_left
               (fun g req =>
                  Js.map_set (req_id req) (concat (Js.map_values (req_links req))) g)
               l g)) ->
    In x (map req_id l) \/ In x (Js.map_keys g)).
  { induction l as [|r l IH]; intros g Hx; simpl in *; [right; exact Hx|].
    destruct (IH _ Hx) as [Hl|Hg]; [left; right; exact Hl|].
    apply map_set_keys in Hg. destruct Hg as [->|Hg]; [left; left; reflexivity|].
    right. exact Hg. }
  destruct (Hfrom requirements [] H) as [Hin|[]]. exact Hin.
Qed.

Lemma normalizeCycle_elements raw :
  raw <> [] ->
  GraphAnalysis.normalizeCycle raw <> []
  /\ forall x, In x (GraphAnalysis.normalizeCycle raw) -> In x raw.
Proof.
  intros Hne. unfold GraphAnalysis.normalizeCycle.
  destruct (length raw <=? 1)%nat eqn:Hlen; [split; [exact Hne|tauto]|].
  apply Nat.leb_gt in Hlen.
  set (clean := if String.eqb (nth 0 raw "") (nth (length raw - 1) raw "")
                then removelast raw else raw).
  assert (Hclean : clean <> [] /\ forall x, In x clean -> In x raw).
  { subst clean. destruct (String.eqb _ _).
    - split; [|intros x; apply In_removelast].
      destruct raw as [|a [|b raw']]; simpl in *; try lia. discriminate.
    - split; [exact Hne|tauto]. }
  destruct Hclean as [Hcne Hcin].
  set (k := GraphAnalysis.minIndexFrom clean 1 0 (tl clean)).
  assert (Hperm : Permutation (skipn k clean ++ firstn k clean) clean).
  { rewrite Permutation_app_comm, firstn_skipn. reflexivity. }
  split.
  - intros Hnil. rewrite Hnil in Hperm. apply Permutation_nil in Hperm. contradiction.
  - intros x Hx. apply Hcin. apply (Permutation_in _ Hperm Hx).
Qed.

Lemma status_issue_type requirements statusOrder issue :
  In issue (GraphQueries.checkStatusConsistency requirements statusOrder) ->
  GraphQueries.vi_type issue = GraphQueries.StatusInconsistent.
Proof.
  unfold GraphQueries.checkStatusConsistency. rewrite in_flat_map.
  intros (req & _ & H).
  destruct (negb _); [destruct H|].
  destruct (GraphQueries.rankOf _ (req_status req)) as [reqRank|]; [|destruct H].
  apply in_flat_map in H. destruct H as (linkedIds & _ & H).
  apply in_flat_map in H. destruct H as (linkedId & _ & H).
  unfold GraphQueries.checkLinked in H.
  destruct (Js.map_get _ linkedId) as [linkedReq|]; [|destruct H].
  destruct (negb _); [destruct H|].
  destruct (GraphQueries.rankOf _ (req_status linkedReq)); [|destruct H].
  destruct (_ && _); [|destruct H].
  destruct H as [<-|[]]. reflexivity.
Qed.

Lemma cycleIssues_all requirements circularDeps :
  (forall c, In c circularDeps ->
     exists first rest, c = first :: rest /\ In first (map req_id requirements)) ->
  map GraphQueries.vi_relatedIds (GraphQueries.cycleIssues requirements circularDeps)
  = map Some circularDeps
  /\ List.Forall (fun i => GraphQueries.vi_type i = GraphQueries.CircularDep)
       (GraphQueries.cycleIssues requirements circularDeps).
Proof.
  unfold GraphQueries.cycleIssues.
  induction circularDeps as [|c cs IH]; intros Hall; simpl; [split; [reflexivity|constructor]|].
  destruct (Hall c (or_introl eq_refl)) as (first & rest & -> & Hin).
  destruct (find_by_In requirements first Hin) as [r Hr].
  simpl. rewrite Hr. simpl.
  destruct IH as [IH1 IH2]; [intros c' Hc'; apply Hall; right; exact Hc'|].
  split; [rewrite IH1; reflexivity|constructor; [reflexivity|exact IH2]].
Qed.

Lemma orphanIssues_all requirements orphanedReqs :
  (forall o, In o orphanedReqs -> In o (map req_id requirements)) ->
  length (GraphQueries.orphanIssues requirements orphanedReqs) = length orphanedReqs
  /\ List.Forall (fun i => GraphQueries.vi_type i = GraphQueries.OrphanedReq)
       (GraphQueries.orphanIssues requirements orphanedReqs).
Proof.
  unfold GraphQueries.orphanIssues.
  induction orphanedReqs as [|o os IH]; intros Hall; simpl; [split; [reflexivity|constructor]|].
  destruct (find_by_In requirements o (Hall o (or_introl eq_refl))) as [r Hr].
  rewrite Hr. simpl.
  destruct IH as [IH1 IH2]; [intros o' Ho'; apply Hall; right; exact Ho'|].
  split; [rewrite IH1; reflexivity|constructor; [reflexivity|exact IH2]].
Qed.

Lemma filter_all {A : Type} (p : A -> bool) (l : list A) :
  (forall x, In x l -> p x = true) -> List.filter p l = l.
Proof.
  induction l as [|x l IH]; intros H; [reflexivity|]. simpl.
  rewrite (H x (or_introl eq_refl)). f_equal. apply IH.
  intros y Hy. apply H. right. exact Hy.
Qed.

(** X29. [performDeepValidation] returns on every input, and its issue
    list accounts for everything found: in this order, one CircularDep
    warning for every cycle, carrying the cycle as its related ids, one
    OrphanedReq note for every orphaned id, and the warnings of
    [checkStatusConsistency]. No cycle and no orphan is dropped for want
    of a record to locate it at: the first id of a cycle and every
    orphaned id are ids of records of the input. *)
Theorem deep_validation_accounts_for_all
  (requirements : list RequirementObject) (idx : GraphAnalysis.RequirementIndex)
  (statusOrder : list string) :
  exists result,
    GraphQueries.performDeepValidation requirements idx statusOrder = Some result
    /\ GraphAnalysis.detectCircularDependencies requirements
       = Some (GraphQueries.dv_circularDeps result)
    /\ GraphQueries.dv_orphanedReqs result
       = GraphAnalysis.findOrphanedRequirements requirements idx
    /\ map GraphQueries.vi_relatedIds
         (List.filter (GraphQueries.hasType GraphQueries.CircularDep)
            (GraphQueries.dv_issues result))
       = map Some (GraphQueries.dv_circularDeps result)
    /\ length (List.filter (GraphQueries.hasType GraphQueries.OrphanedReq)
                 (GraphQueries.dv_issues result))
       = length (GraphQueries.dv_orphanedReqs result)
    /\ List.filter (GraphQueries.hasType GraphQueries.StatusInconsistent)
         (GraphQueries.dv_issues result)
       = GraphQueries.checkStatusConsistency requirements statusOrder.
Proof.
  destruct (depth_first_cycles_total requirements) as (cycles & Hdet & Hshape).
  unfold GraphQueries.performDeepValidation. rewrite Hdet.
  eexists. split; [reflexivity|]. simpl. split; [reflexivity|]. split; [reflexivity|].
  destruct (cycleIssues_all requirements cycles) as [Hrel Hctype].
  { intros c Hc. destruct (Hshape c Hc) as (raw & -> & (node & mid & Hraw) & _ & Hkeys).
    assert (Hne : raw <> []) by (rewrite Hraw; discriminate).
    destruct (normalizeCycle_elements raw Hne) as [Hnn Hsub].
    destruct (GraphAnalysis.normalizeCycle raw) as [|first rest]; [congruence|].
    exists first, rest. split; [reflexivity|].
    apply adjacency_known, Hkeys, Hsub. left. reflexivity. }
  destruct (orphanIssues_all requirements
              (GraphAnalysis.findOrphanedRequirements requirements idx)) as [Hlen Hotype].
  { intros o Ho. unfold GraphAnalysis.findOrphanedRequirements in Ho.
    apply in_map_iff in Ho. destruct Ho as (r & <- & Hr). apply filter_In in Hr.
    apply in_map. tauto. }
  assert (Hstype : List.Forall
            (fun i => GraphQueries.vi_type i = GraphQueries.StatusInconsistent)
            (GraphQueries.checkStatusConsistency requirements statusOrder)).
  { apply List.Forall_forall. intros i Hi. apply (status_issue_type _ _ _ Hi). }
  rewrite !List.filter_app.
  assert (Hkeep : forall t l,
            List.Forall (fun i => GraphQueries.vi_type i = t) l ->
            List.filter (GraphQueries.hasType t) l = l).
  { intros t l Hl. apply filter_all. intros x Hx.
    unfold GraphQueries.hasType.
    rewrite (proj1 (List.Forall_forall _ _) Hl x Hx). destruct t; reflexivity. }
  assert (Hdrop : forall t t' l, t <> t' ->
            List.Forall (fun i => GraphQueries.vi_type i = t') l ->
            List.filter (GraphQueries.hasType t) l = []).
  { intros t t' l Hne Hl. apply filter_none. intros x Hx.
    unfold GraphQueries.hasType.
    rewrite (proj1 (List.Forall_forall _ _) Hl x Hx).
    destruct t, t'; try reflexivity; congruence. }
  assert (Hco : GraphQueries.CircularDep <> GraphQueries.OrphanedReq) by discriminate.
  assert (Hcs : GraphQueries.CircularDep <> GraphQueries.StatusInconsistent) by discriminate.
  assert (Hoc : GraphQueries.OrphanedReq <> GraphQueries.CircularDep) by discriminate.
  assert (Hos : GraphQueries.OrphanedReq <> GraphQueries.StatusInconsistent) by discriminate.
  assert (Hsc : GraphQueries.StatusInconsistent <> GraphQueries.CircularDep) by discriminate.
  assert (Hso : GraphQueries.StatusInconsistent <> GraphQueries.OrphanedReq) by discriminate.
  split; [|split].
  - rewrite (Hkeep _ _ Hctype), (Hdrop _ _ _ Hco Hotype),
      (Hdrop _ _ _ Hcs Hstype), !app_nil_r. exact Hrel.
  - rewrite (Hdrop _ _ _ Hoc Hctype), (Hkeep _ _ Hotype),
      (Hdrop _ _ _ Hos Hstype), app_nil_r. simpl. exact Hlen.
  - rewrite (Hdrop _ _ _ Hsc Hctype), (Hdrop _ _ _ Hso Hotype),
      (Hkeep _ _ Hstype). reflexivity.
Qed.

(** ** Dependency chains *)

Section DependencyChainFacts.
Import DependencyChain.

Variable direction : Direction.
Variable requirements : list RequirementObject.
Variable i : string.

Lemma grown_refl st : Statements.grown st st.
Proof. split; [reflexivity|]. exists []. rewrite app_nil_r. reflexivity. Qed.

Lemma grown_trans st1 st2 st3 :
  Statements.grown st1 st2 -> Statements.grown st2 st3 -> Statements.grown st1 st3.
Proof.
  intros [H1 [m1 Hm1]] [H2 [m2 Hm2]]. split; [etransitivity; eassumption|].
  exists (m1 ++ m2). rewrite Hm2, Hm1, app_assoc. reflexivity.
Qed.

Lemma step_universe x n :
  Statements.chainStep direction requirements x n ->
  n ∈ Statements.chainUniverse i requirements.
Proof.
  unfold Statements.chainStep, Statements.chainUniverse, chainNodes, nextOf.
  intros H. apply elem_of_list_to_set, list_elem_of_In. right.
  apply in_or_app. destruct direction.
  - left. apply in_flat_map in H. destruct H as (req & Hreq & H).
    apply in_flat_map in H. destruct H as (linkedIds & _ & H).
    destruct (Js.includes linkedIds x); [|destruct H].
    destruct H as [<-|[]]. apply in_map, Hreq.
  - right. destruct (Js.map_get _ x) as [req|] eqn:Hget; [|destruct H].
    apply reqMapOf_get in Hget. destruct Hget as [[Hreq _]|Hget]; [|discriminate].
    apply in_concat. exists (IndexBuilder.targetsOf req).
    split; [apply in_map, Hreq|exact H].
Qed.

Lemma reaches_step x n :
  x = i \/ Statements.reaches direction requirements i x ->
  Statements.chainStep direction requirements x n ->
  Statements.reaches direction requirements i n.
Proof.
  intros [->|Hx] Hn.
  - apply Statements.reach_first, Hn.
  - apply (Statements.reach_next _ _ _ x n Hx Hn).
Qed.

Lemma universe_shrinks x (visited : gset string) :
  x ∈ Statements.chainUniverse i requirements -> x ∉ visited ->
  (size (Statements.chainUniverse i requirements ∖ ({[x]} ∪ visited))
   < size (Statements.chainUniverse i requirements ∖ visited))%nat.
Proof.
  intros Hx Hv. apply subset_size. split.
  - intros y. rewrite !elem_of_difference, elem_of_union. tauto.
  - intros H. specialize (H x).
    rewrite !elem_of_difference, elem_of_union, elem_of_singleton in H. tauto.
Qed.

Lemma universe_mono (v v' : gset string) :
  v ⊆ v' ->
  (size (Statements.chainUniverse i requirements ∖ v')
   <= size (Statements.chainUniverse i requirements ∖ v))%nat.
Proof.
  intros H. apply subseteq_size. intros y. rewrite !elem_of_difference.
  intros [Hy Hv]. split; [exact Hy|]. intros Hv'. apply Hv, H, Hv'.
Qed.

(** The loop over the steps of [currentId], which is on the stack. *)
Lemma visitAll_ok fuel currentId stack :
  Statements.traverses direction requirements i fuel ->
  currentId ∈ stack ->
  (currentId = i \/ Statements.reaches direction requirements i currentId) ->
  forall ns st,
    (forall n, In n ns -> Statements.chainStep direction requirements currentId n) ->
    (size (Statements.chainUniverse i requirements ∖ visited st) < fuel)%nat ->
    stack ⊆ visited st ->
    Statements.traversed direction requirements i stack st ->
    exists st',
      visitAll (traverse fuel direction requirements (GraphQueries.reqMapOf requirements))
        ns st = Some st'
      /\ Statements.grown st st'
      /\ Statements.traversed direction requirements i stack st'
      /\ forall n, In n ns -> In n (chain st') /\ n ∈ visited st'.
Proof.
  intros Hrec Hon Hcur. induction ns as [|n ns IH]; intros st Hns Hfuel Hstack Hst; simpl.
  - exists st. split; [reflexivity|]. split; [apply grown_refl|].
    split; [exact Hst|intros n []].
  - assert (Hstep : Statements.chainStep direction requirements currentId n)
      by (apply Hns; left; reflexivity).
    assert (Hreach : Statements.reaches direction requirements i n)
      by (apply (reaches_step currentId n Hcur Hstep)).
    set (st1 := {| visited := visited st; chain := chain st ++ [n] |}).
    assert (Hst1 : Statements.traversed direction requirements i stack st1).
    { destruct Hst as (Hsound & Hvis & Hdone). split; [|split]; simpl.
      - intros x Hx. apply in_app_or in Hx.
        destruct Hx as [Hx|[<-|[]]]; [apply Hsound, Hx|exact Hreach].
      - exact Hvis.
      - intros x Hx Hoff m Hm. destruct (Hdone x Hx Hoff m Hm) as [H1 H2].
        split; [apply in_or_app; left; exact H1|exact H2]. }
    destruct (Hrec n stack st1 (step_universe currentId n Hstep) (or_intror Hreach)
                Hfuel Hstack Hst1) as (st2 & Htr & Hg2 & Hn2 & Hst2).
    rewrite Htr.
    assert (Hg12 : Statements.grown st st2).
    { destruct Hg2 as [Hv [more Hm]]. split; [exact Hv|].
      exists ([n] ++ more). rewrite Hm. simpl. rewrite <- app_assoc. reflexivity. }
    destruct (IH st2) as (st' & Hloop & Hg' & Hst' & Hall).
    + intros m Hm. apply Hns. right. exact Hm.
    + pose proof (universe_mono (visited st) (visited st2) (proj1 Hg12)). lia.
    + etransitivity; [exact Hstack|exact (proj1 Hg12)].
    + exact Hst2.
    + exists st'. split; [exact Hloop|]. split; [apply (grown_trans _ _ _ Hg12 Hg')|].
      split; [exact Hst'|].
      intros m [<-|Hm]; [|apply Hall, Hm].
      destruct Hg' as [Hv' [more' Hm']]. split; [|apply Hv', Hn2].
      rewrite Hm'. apply in_or_app. left.
      destruct Hg2 as [_ [more Hm2]]. rewrite Hm2. simpl.
      apply in_or_app. left. apply in_or_app. right. left. reflexivity.
Qed.

Lemma traverse_ok : forall fuel, Statements.traverses direction requirements i fuel.
Proof.
  induction fuel as [|fuel IH]; intros currentId stack st Hu Hcur Hfuel Hstack Hst; [lia|].
  simpl. destruct (bool_decide (currentId ∈ visited st)) eqn:Hvis.
  - apply bool_decide_eq_true in Hvis. exists st.
    split; [reflexivity|]. split; [apply grown_refl|]. split; [exact Hvis|exact Hst].
  - apply bool_decide_eq_false in Hvis.
    set (st1 := {| visited := {[currentId]} ∪ visited st; chain := chain st |}).
    assert (Hst1 : Statements.traversed direction requirements i
                     ({[currentId]} ∪ stack) st1).
    { destruct Hst as (Hsound & Hreach & Hdone). split; [|split]; simpl.
      - exact Hsound.
      - intros x Hx. apply elem_of_union in Hx. destruct Hx as [Hx|Hx].
        + apply elem_of_singleton in Hx. subst x. exact Hcur.
        + apply Hreach, Hx.
      - intros x Hx Hoff n Hn.
        apply elem_of_union in Hx. destruct Hx as [Hx|Hx].
        + exfalso. apply Hoff, elem_of_union. left. exact Hx.
        + destruct (Hdone x Hx) with (n := n) as [H1 H2]; [|exact Hn|].
          * intros Hs. apply Hoff, elem_of_union. right. exact Hs.
          * split; [exact H1|]. apply elem_of_union. right. exact H2. }
    destruct (visitAll_ok fuel currentId ({[currentId]} ∪ stack) IH)
      with (ns := nextOf direction requirements (GraphQueries.reqMapOf requirements)
                    currentId) (st := st1)
      as (st' & Hloop & Hg & Hst' & Hall).
    + apply elem_of_union. left. apply elem_of_singleton. reflexivity.
    + exact Hcur.
    + intros n Hn. exact Hn.
    + simpl. pose proof (universe_shrinks currentId (visited st) Hu Hvis). lia.
    + simpl. intros x Hx. apply elem_of_union in Hx. apply elem_of_union.
      destruct Hx as [Hx|Hx]; [left; exact Hx|right; apply Hstack, Hx].
    + exact Hst1.
    + exists st'. split; [exact Hloop|].
      assert (Hcurv : currentId ∈ visited st').
      { apply (proj1 Hg). simpl. apply elem_of_union. left.
        apply elem_of_singleton. reflexivity. }
      split; [|split; [exact Hcurv|]].
      * destruct Hg as [Hv Hm]. split; [|exact Hm].
        intros x Hx. apply Hv. simpl. apply elem_of_union. right. exact Hx.
      * destruct Hst' as (Hsound & Hreach & Hdone). split; [exact Hsound|].
        split; [exact Hreach|]. intros x Hx Hoff n Hn.
        destruct (decide (x = currentId)) as [->|Hne].
        -- apply Hall, Hn.
        -- apply (Hdone x Hx); [|exact Hn].
           intros Hs. apply elem_of_union in Hs. destruct Hs as [Hs|Hs].
           ++ apply elem_of_singleton in Hs. contradiction.
           ++ contradiction.
Qed.

End DependencyChainFacts.

(** X30. [getDependencyChain] returns on every input, and the ids on
    the chain it returns are exactly the ids reached from the start by
    one step or more: downstream a step goes from an id to the targets
    of the record held for it, upstream from an id to the records that
    list it. The start itself is on the chain only when a cycle leads
    back to it. *)
Theorem dependency_chain_is_reachable_set
  (i : string) (requirements : list RequirementObject)
  (direction : DependencyChain.Direction) :
  exists chain,
    DependencyChain.getDependencyChain i requirements direction = Some chain
    /\ forall x, In x chain <-> Statements.reaches direction requirements i x.
Proof.
  unfold DependencyChain.getDependencyChain.
  destruct (traverse_ok direction requirements i
              (S (S (length (DependencyChain.chainNodes i requirements))))
              i ∅ {| DependencyChain.visited := ∅; DependencyChain.chain := [] |})
    as (st & Htr & _ & Hi & Hsound & _ & Hdone).
  - apply elem_of_list_to_set, list_elem_of_In. left. reflexivity.
  - left. reflexivity.
  - cbn [DependencyChain.visited]. unfold Statements.chainUniverse.
    generalize (DependencyChain.chainNodes i requirements). intros nodes.
    pose proof (size_list_to_set_le nodes).
    assert (size ((list_to_set nodes : gset string) ∖ ∅)
            <= size (list_to_set nodes : gset string))%nat.
    { apply subseteq_size. intros y. rewrite elem_of_difference. tauto. }
    lia.
  - simpl. reflexivity.
  - split; [intros x []|]. split; [intros x Hx|intros x Hx];
      exfalso; apply (proj1 (elem_of_empty x) Hx).
  - rewrite Htr. eexists. split; [reflexivity|]. intros x. split; [apply Hsound|].
    intros Hreach.
    assert (Hboth : In x (DependencyChain.chain st) /\ x ∈ DependencyChain.visited st).
    { induction Hreach as [n Hn|y n Hy IH Hn].
      - apply (Hdone i Hi (not_elem_of_empty i) n Hn).
      - destruct IH as [_ Hyv].
        apply (Hdone y Hyv (not_elem_of_empty y) n Hn). }
    apply Hboth.
Qed.
